(** * The dataset-directory synchronisation script, [scripts/copy_datadir.py]

    A shallow embedding of the lock ledger ([has_locks], [remove_lock]),
    the quota planner and job submission ([copy_datasets]) and the
    lock-gated delete ([cleanup]), followed by the properties of the
    design document that concern them.

    Conventions of the embedding:
    - Python [str] values are [string]s over ASCII code points;
    - the numbers printed by [du --block-size=1G] and the [--max-gb]
      ceiling are rationals ([Q]), with exact arithmetic;
    - the filesystem is a finite map from path to node, the process is a
      state-and-exception monad over a [World];
    - the collaborators the script shells out to or imports ([du], the
      HDF5 key lookup, [rsync], [datetime.strptime], the other processes
      sharing the directory, the thread pool's scheduling) are section
      variables, so that every general theorem holds for all of them. *)

From Stdlib Require Import ZArith QArith Lqa Lia Ascii String List Bool Permutation.
From stdpp Require Import gmap strings list sorting.

Local Open Scope Z_scope.

#[local] Arguments String.append !s1 s2 : simpl nomatch.

(** ** Python string operations *)

Module PyStr.

(** [str.isspace] on one ASCII code point: TAB..CR, FS..US and SPACE. *)
Definition is_space (c : ascii) : bool :=
  let n := nat_of_ascii c in
  ((9 <=? n)%nat && (n <=? 13)%nat) || ((28 <=? n)%nat && (n <=? 31)%nat) || (n =? 32)%nat.

Fixpoint lstrip (s : string) : string :=
  match s with
  | EmptyString => EmptyString
  | String c s' => if is_space c then lstrip s' else s
  end.

Fixpoint rstrip (s : string) : string :=
  match s with
  | EmptyString => EmptyString
  | String c s' =>
      match rstrip s' with
      | EmptyString => if is_space c then EmptyString else String c EmptyString
      | r => String c r
      end
  end.

(** [s.strip()] *)
Definition strip (s : string) : string := rstrip (lstrip s).

(** [s.startswith(p)] *)
Definition startswith (s p : string) : bool := String.prefix p s.

(** [s.endswith(suf)] *)
Fixpoint endswith (s suf : string) : bool :=
  if String.eqb s suf then true
  else match s with
       | EmptyString => false
       | String _ s' => endswith s' suf
       end.

(** [s.split(sep)] for a one-character separator: one field more than
    there are separators, so never an empty list. *)
Fixpoint split (sep : ascii) (s : string) : list string :=
  match s with
  | EmptyString => [EmptyString]
  | String c s' =>
      if Ascii.eqb c sep then EmptyString :: split sep s'
      else match split sep s' with
           | f :: fs => String c f :: fs
           | [] => [String c EmptyString]
           end
  end.

Definition LF : ascii := ascii_of_nat 10.
Definition CR : ascii := ascii_of_nat 13.

(** Text-mode reading translates ["\r\n"] and a lone ["\r"] to ["\n"]
    ([open]'s default [newline=None]).  [after_cr] remembers that the
    previous character was a carriage return already turned into a line
    feed. *)
Fixpoint universal_newlines (after_cr : bool) (s : string) : string :=
  match s with
  | EmptyString => EmptyString
  | String c s' =>
      if Ascii.eqb c LF then
        if after_cr then universal_newlines false s'
        else String LF (universal_newlines false s')
      else if Ascii.eqb c CR then String LF (universal_newlines true s')
      else String c (universal_newlines false s')
  end.

(** The lines of a text, each with its terminator, the way iterating over
    a file object (or [readlines]) yields them: an unterminated last line
    is yielded as it is, nothing comes after a final line feed. *)
Definition keepends (fields : list string) : list string :=
  match reverse fields with
  | [] => []
  | last :: init =>
      ((λ f, f +:+ String LF EmptyString) <$> reverse init)
      ++ (if String.eqb last EmptyString then [] else [last])
  end.

Definition readlines (text : string) : list string :=
  keepends (split LF (universal_newlines false text)).

(** [str(x)] of an [Optional[str]] inside an f-string. *)
Definition str_of_optional (o : option string) : string :=
  match o with
  | Some s => s
  | None => "None"
  end.

(** [os.path.join(a, b)] of [posixpath]. *)
Definition path_join (a b : string) : string :=
  if startswith b "/" then b
  else if String.eqb a EmptyString || endswith a "/" then a +:+ b
  else a +:+ "/" +:+ b.

(** [free sep s]: the character [sep] does not occur in [s]. *)
Fixpoint free (sep : ascii) (s : string) : bool :=
  match s with
  | EmptyString => true
  | String c s' => negb (Ascii.eqb c sep) && free sep s'
  end.

End PyStr.

(** ** [datetime.strptime(s, "%Y%m%d%H%M")]

    The library matches the text against the regular expression
    [(\d\d\d\d)(1[0-2]|0[1-9]|[1-9])(3[0-1]|[1-2]\d|0[1-9]|[1-9]| [1-9])(2[0-3]|[0-1]\d|\d)([0-5]\d|\d)],
    takes the first match in backtracking order, fails when text remains
    after it, and then builds the date, which fails for a day the month
    does not have and for year 0. The result is given here in minutes
    since 0001-01-01 00:00. *)

Module Strptime.

Definition digit (c : ascii) : option Z :=
  let n := nat_of_ascii c in
  if ((48 <=? n)%nat && (n <=? 57)%nat) then Some (Z.of_nat (n - 48)) else None.

(** A regular-expression piece: the ways it can match a prefix of the
    text, in the order backtracking tries them. *)
Definition Piece := string → list (Z * string).

(** One character whose digit value lies in [lo..hi]. *)
Definition range (lo hi : Z) : Piece := λ s,
  match s with
  | String c s' =>
      match digit c with
      | Some d => if (lo <=? d) && (d <=? hi) then [(d, s')] else []
      | None => []
      end
  | EmptyString => []
  end.

(** The blank of the alternative [ [1-9]] of [%d]. *)
Definition blank : Piece := λ s,
  match s with
  | String c s' => if Ascii.eqb c " "%char then [(0, s')] else []
  | EmptyString => []
  end.

(** Concatenation of two pieces read as a decimal number. *)
Definition cat (p q : Piece) : Piece := λ s,
  flat_map (λ '(a, s1), (λ '(b, s2), (10 * a + b, s2)) <$> q s1) (p s).

(** Alternation, left alternative first. *)
Definition alt (p q : Piece) : Piece := λ s, p s ++ q s.

Definition re_Y : Piece := cat (cat (cat (range 0 9) (range 0 9)) (range 0 9)) (range 0 9).
Definition re_m : Piece :=
  alt (cat (range 1 1) (range 0 2)) (alt (cat (range 0 0) (range 1 9)) (range 1 9)).
Definition re_d : Piece :=
  alt (cat (range 3 3) (range 0 1))
    (alt (cat (range 1 2) (range 0 9))
       (alt (cat (range 0 0) (range 1 9)) (alt (range 1 9) (cat blank (range 1 9))))).
Definition re_H : Piece :=
  alt (cat (range 2 2) (range 0 3)) (alt (cat (range 0 1) (range 0 9)) (range 0 9)).
Definition re_M : Piece := alt (cat (range 0 5) (range 0 9)) (range 0 9).

(** All matches of the whole expression, in backtracking order. *)
Definition matches (s : string) : list ((Z * Z * Z * Z * Z) * string) :=
  flat_map (λ '(y, s1),
    flat_map (λ '(m, s2),
      flat_map (λ '(d, s3),
        flat_map (λ '(h, s4),
          (λ '(mi, s5), ((y, m, d, h, mi), s5)) <$> re_M s4)
        (re_H s3))
      (re_d s2))
    (re_m s1))
  (re_Y s).

Definition is_leap (y : Z) : bool :=
  ((y mod 4 =? 0) && negb (y mod 100 =? 0)) || (y mod 400 =? 0).

Definition days_in_month (y m : Z) : Z :=
  if m =? 2 then (if is_leap y then 29 else 28)
  else if (m =? 4) || (m =? 6) || (m =? 9) || (m =? 11) then 30
  else 31.

Definition days_before_year (y : Z) : Z :=
  let p := y - 1 in p * 365 + p / 4 - p / 100 + p / 400.

Fixpoint days_before_month (y : Z) (m : nat) : Z :=
  match m with
  | O => 0
  | S m' => days_before_month y m' + days_in_month y (Z.of_nat m)
  end.

(** [date(y, m, d).toordinal()], or the [ValueError] of an impossible date. *)
Definition toordinal (y m d : Z) : option Z :=
  if (1 <=? y) && (y <=? 9999) && (1 <=? m) && (m <=? 12)
     && (1 <=? d) && (d <=? days_in_month y m)
  then Some (days_before_year y + days_before_month y (Z.to_nat (m - 1)) + d)
  else None.

Definition strptime (s : string) : option Z :=
  match matches s with
  | ((y, m, d, h, mi), EmptyString) :: _ =>
      o ← toordinal y m d; Some ((o - 1) * 1440 + h * 60 + mi)
  | _ => None
  end.

End Strptime.

(** ** The world the script runs in *)

(** What a path of the filesystem holds: a text file with its content
    (the lock ledgers), a full copy of a dataset, or a symbolic link to a
    dataset of the source directory. The source directory itself is not
    in the map: it is only read, through the collaborators below. *)
Inductive Node :=
  | Text (content : string)
  | Data
  | Link.

(** A job handed to the thread pool: [cp(src, tgt)]. *)
Record Job := { job_src : string; job_tgt : string }.

(** The messages the script prints about a placement and about the
    verdict of [cleanup], with the paths and the measured size they are
    about. Its other messages are not recorded. *)
Inductive Event :=
  | Linking (src tgt : string)
  | Checking (src tgt : string)
  | Copying (src tgt : string) (gb : Q)
  | Cleaning (dir : string)
  | CouldNotCleanup.

Record World := {
  files : gmap string Node;   (* the filesystem *)
  slept : list Z;             (* the arguments of the [sleep] calls so far *)
  queue : list Job;           (* jobs submitted to the pool and not finished *)
  submitted : list Job;       (* every job handed to the pool so far, oldest first *)
  trace : list Event;         (* messages printed so far *)
  tick : nat                  (* how often the workers were given a turn *)
}.

Definition set_files (f : gmap string Node → gmap string Node) (w : World) : World :=
  {| files := f (files w); slept := slept w; queue := queue w; submitted := submitted w;
     trace := trace w; tick := tick w |}.
Definition set_queue (f : list Job → list Job) (w : World) : World :=
  {| files := files w; slept := slept w; queue := f (queue w); submitted := submitted w;
     trace := trace w; tick := tick w |}.
Definition set_submitted (f : list Job → list Job) (w : World) : World :=
  {| files := files w; slept := slept w; queue := queue w; submitted := f (submitted w);
     trace := trace w; tick := tick w |}.
Definition set_tick (f : nat → nat) (w : World) : World :=
  {| files := files w; slept := slept w; queue := queue w; submitted := submitted w;
     trace := trace w; tick := f (tick w) |}.

Inductive Exn :=
  | FileNotFoundError
  | ValueError
  | UnicodeDecodeError
  | CalledProcessError.

(** A call returns, raises, or (for the one loop that is run on fuel)
    is cut off. *)
Inductive Outcome (A : Type) :=
  | Ok (a : A) (w : World)
  | Raise (e : Exn) (w : World)
  | OutOfFuel.
Arguments Ok {A} a w.
Arguments Raise {A} e w.
Arguments OutOfFuel {A}.

Definition M (A : Type) : Type := World → Outcome A.

#[export] Instance M_ret : MRet M := λ A a w, Ok a w.
#[export] Instance M_bind : MBind M := λ A B k m w,
  match m w with
  | Ok a w' => k a w'
  | Raise e w' => Raise e w'
  | OutOfFuel => OutOfFuel
  end.

Definition raise {A} (e : Exn) : M A := λ w, Raise e w.

(** [for x in xs: s = body(s, x)] *)
Fixpoint for_each {A S : Type} (xs : list A) (body : S → A → M S) (s : S) : M S :=
  match xs with
  | [] => mret s
  | x :: xs' => s' ← body s x; for_each xs' body s'
  end.

(** *** Filesystem primitives *)

(** [os.path.exists] and [os.path.isfile]: every node of the model is a
    regular file once links are followed. *)
Definition present (f : gmap string Node) (p : string) : bool :=
  match f !! p with Some _ => true | None => false end.
Definition is_link (f : gmap string Node) (p : string) : bool :=
  match f !! p with Some Link => true | _ => false end.
Definition path_exists (p : string) : M bool := λ w, Ok (present (files w) p) w.
Definition isfile (p : string) : M bool := λ w, Ok (present (files w) p) w.
Definition islink (p : string) : M bool := λ w, Ok (is_link (files w) p) w.

(** [for line in open(p)]: the lines of a text file. *)
Definition open_lines (p : string) : M (list string) := λ w,
  match files w !! p with
  | None => Raise FileNotFoundError w
  | Some (Text t) => Ok (PyStr.readlines t) w
  | Some _ => Raise UnicodeDecodeError w
  end.

(** [open(p, "a+").write(s)] *)
Definition append_text (p s : string) : M unit := λ w,
  match files w !! p with
  | None => Ok tt (set_files <[p := Text s]> w)
  | Some (Text t) => Ok tt (set_files <[p := Text (t +:+ s)]> w)
  | Some _ => Ok tt w
  end.

(** [f.seek(0); f.writelines(lines); f.truncate()] on a file opened ["r+"]. *)
Definition rewrite_text (p : string) (lines : list string) : M unit := λ w,
  Ok tt (set_files <[p := Text (foldr String.append EmptyString lines)]> w).

(** [os.remove(p)] *)
Definition os_remove (p : string) : M unit := λ w,
  match files w !! p with
  | None => Raise FileNotFoundError w
  | Some _ => Ok tt (set_files (delete p) w)
  end.

(** [ln(src, tgt)]: [ln -s] refuses an existing target. The directory the
    target lies in is taken to exist. *)
Definition ln (src tgt : string) : M unit := λ w,
  match files w !! tgt with
  | None => Ok tt (set_files <[tgt := Link]> w)
  | Some _ => Raise CalledProcessError w
  end.

(** [shutil.rmtree(d)]: everything below [d] goes. Directories are not
    in the map: [d] is taken to exist when some path lies below it, and
    for the empty name or a directory that is not there [rmtree] raises
    [FileNotFoundError] and removes nothing. *)
Definition inside (d p : string) : bool := PyStr.startswith p (PyStr.path_join d EmptyString).
Definition rmtree (d : string) : M unit := λ w,
  if String.eqb d EmptyString
     || bool_decide (map_Forall (λ p _, inside d p = false) (files w))
  then Raise FileNotFoundError w
  else Ok tt (set_files (filter (λ kv, inside d kv.1 = false)) w).

Definition say (e : Event) (w : World) : World :=
  {| files := files w; slept := slept w; queue := queue w; submitted := submitted w;
     trace := trace w ++ [e]; tick := tick w |}.
Definition emit (e : Event) : M unit := λ w, Ok tt (say e w).

(** [executor.submit(cp, src, tgt)]: the job joins the queue of the pool,
    behind the jobs that are there. *)
Definition submit (src tgt : string) : M unit := λ w,
  Ok tt (set_queue (λ q, q ++ [{| job_src := src; job_tgt := tgt |}])
           (set_submitted (λ s, s ++ [{| job_src := src; job_tgt := tgt |}]) w)).

(** [ThreadPoolExecutor(max_workers=4)]: a fresh, idle pool. *)
Definition max_workers : nat := 4.
Definition ThreadPoolExecutor : M unit := λ w, Ok tt (set_queue (λ _, []) w).

(** The dataset catalog: for each split, the [[filename, sampling_factor]]
    entries of the JSON configuration. *)
Record Catalog := {
  train : list (string * Q);
  valid : list (string * Q);
  test : list (string * Q)
}.

(** [sorted(l, key=lambda e: e[1], reverse=True)]: descending in the
    sampling factor, entries with equal factors keep their order. *)
Fixpoint insert_desc (e : string * Q) (l : list (string * Q)) : list (string * Q) :=
  match l with
  | [] => [e]
  | x :: xs => if Qle_bool x.2 e.2 then e :: x :: xs else x :: insert_desc e xs
  end.
Definition sorted_desc (l : list (string * Q)) : list (string * Q) := foldr insert_desc [] l.

(** The parsed command line: no subcommand, [copy-datasets] (alias [cp])
    with its catalog as loaded, or [cleanup]. *)
Inductive Args :=
  | NoCommand
  | CopyDatasetsArgs (src_dir target_dir : string) (data_cfg : Catalog) (max_gb : Q)
      (lock : option string)
  | CleanupArgs (target_dir : string) (lock : option string).

(** ** The script *)

Module Script.
Section Collaborators.

(** [datetime.strptime(_, TIMESTAMP_FORMAT)], in minutes; [None] is its
    [ValueError]. *)
Variable strptime : string → option Z.
(** [list(h5py.File(path).keys())[0]]: the category of a source file,
    which is taken to exist and to hold a dataset. *)
Variable dstype : string → string.
(** [du(path)], which may depend on what the target directory holds; the
    path is taken to exist. *)
Variable du : gmap string Node → string → Q.
(** Whether [rsync] manages to copy a source file. *)
Variable rsync_ok : string → bool.
(** What the other processes sharing the filesystem do to it while this
    one sleeps, given the sleeps made so far. *)
Variable others : list Z → gmap string Node → gmap string Node.
(** Which of the running jobs finish at each turn of the workers:
    positions in the queue of unfinished jobs, oldest first. *)
Variable sched : nat → list nat.
(** The module-level [timestamp], taken once when the process starts. *)
Variable timestamp : string.

(** [sleep(t)] *)
Definition sleep (t : Z) : M unit := λ w,
  if t <? 0 then Raise ValueError w
  else Ok tt {| files := others (slept w ++ [t]) (files w); slept := slept w ++ [t];
                queue := queue w; submitted := submitted w; trace := trace w;
                tick := tick w |}.

(** [du(path)] *)
Definition measure (p : string) : M Q := λ w, Ok (du (files w) p) w.

(** *** The thread pool *)

(** [cp(src, tgt)] as a worker runs it: [rsync], and on failure remove
    what is at the target and link instead. The link is taken to
    succeed: an exception in a worker would go unnoticed, the futures
    being waited for and never asked for their result. *)
Definition cp (j : Job) (f : gmap string Node) : gmap string Node :=
  if rsync_ok (job_src j) then <[job_tgt j := Data]> f
  else <[job_tgt j := Link]> (if present f (job_tgt j) then delete (job_tgt j) f else f).

(** The job at position [i] of the queue finishes, if it is running:
    only the [max_workers] oldest unfinished jobs are. *)
Definition finish (i : nat) (w : World) : World :=
  if (i <? max_workers)%nat then
    match queue w !! i with
    | Some j => set_queue (delete i) (set_files (cp j) w)
    | None => w
    end
  else w.

(** One turn of the workers: the jobs the schedule names finish. *)
Definition turn (w : World) : World :=
  foldl (λ w i, finish i w) (set_tick S w) (sched (tick w)).
Definition workers : M unit := λ w, Ok tt (turn w).

(** A step of the main thread, with the workers running beside it. *)
Definition pooled {A} (op : M A) : M A := _ ← workers; op.

(** [for future in as_completed(futures)]: wait until every job has
    finished, in the order the schedule lets them. *)
Definition finish_next (w : World) : World :=
  let i := hd 0%nat (sched (tick w)) in
  finish (if (i <? Nat.min max_workers (length (queue w)))%nat then i else 0%nat)
         (set_tick S w).
Definition as_completed : M unit := λ w, Ok tt (Nat.iter (length (queue w)) finish_next w).

(** *** [has_locks] *)

(** The condition of the generator inside [any]: the line ends in
    [.write] and the caller gave a lock name the line does not start
    with. *)
Definition foreign_write (lock : option string) (line : string) : bool :=
  PyStr.endswith (PyStr.strip line) ".write"
  && match lock with
     | Some l => negb (PyStr.startswith (PyStr.strip line) l)
     | None => false
     end.

(** The [while any(...)] loop. At most twelve rounds are ever made
    ([wait_write_rounds]); [fuel] only makes the recursion structural. *)
Fixpoint wait_write (fuel : nat) (lock_f : string) (lock : option string)
    (wait_write_lock : bool) (tries : Z) (have_write_locks : bool) : M bool :=
  match fuel with
  | O => λ _, OutOfFuel
  | S fuel' =>
      lines ← open_lines lock_f;
      if existsb (foreign_write lock) lines then
        if negb wait_write_lock then mret true
        else
          _ ← sleep tries;
          let tries := tries * 2 in
          if 2 ^ 11 <? tries then mret true
          else wait_write fuel' lock_f lock wait_write_lock tries true
      else mret have_write_locks
  end.

(** The [for line in open(lock_f)] loop over the lines already read:
    [true] when it breaks with [have_read_locks = True]. What the loop
    prints (the exception of a line it cannot read, the lock it has
    found) is not recorded in [trace]. *)
Fixpoint recent_activity (lock : option string) (cur_timestamp : Z)
    (lines : list string) : bool :=
  match lines with
  | [] => false
  | line :: rest =>
      let line := PyStr.strip line in
      if match lock with Some l => PyStr.startswith line l | None => false end
      then recent_activity lock cur_timestamp rest
      else
        match PyStr.split "."%char line !! 1%nat with
        | None => recent_activity lock cur_timestamp rest          (* IndexError *)
        | Some field =>
            match strptime field with
            | None => recent_activity lock cur_timestamp rest      (* ValueError *)
            | Some lock_timestamp =>
                if cur_timestamp - lock_timestamp <? 24 * 60 then true
                else recent_activity lock cur_timestamp rest
            end
        end
  end.

Definition wait_write_fuel : nat := 12.

Definition has_locks (directory : string) (lock : option string)
    (wait_write_lock : bool) : M (bool * bool) :=
  let lock_f := PyStr.path_join directory ".lock" in
  is_f ← isfile lock_f;
  if is_f : bool then
    have_write_locks ← wait_write wait_write_fuel lock_f lock wait_write_lock 1 false;
    cur_timestamp ← (match strptime timestamp with
                     | Some t => mret t
                     | None => raise ValueError
                     end);
    lines ← open_lines lock_f;
    mret (recent_activity lock cur_timestamp lines, have_write_locks)
  else mret (false, false).

(** *** [remove_lock] *)

Definition kept_line (lock : string) (new_lock : option string) (line : string) : list string :=
  let line := PyStr.strip line in
  if String.eqb line EmptyString || PyStr.startswith line lock then []
  else if match new_lock with Some n => PyStr.startswith line n | None => false end then []
  else [line +:+ String PyStr.LF EmptyString].

Definition remove_lock (target_dir lock : string) (new_lock : option string) : M unit :=
  let lock_f := PyStr.path_join target_dir ".lock" in
  old ← open_lines lock_f;
  let lines := flat_map (kept_line lock new_lock) old in
  let lines := match new_lock with
               | Some n => lines ++ [n +:+ String PyStr.LF EmptyString]
               | None => lines
               end in
  rewrite_text lock_f lines.

(** *** [copy_datasets] *)

(** The dictionary [datasets] of one split: the entries under the
    category of their file, in catalog order. *)
Definition group_by_dstype (src_dir : string) (entries : list (string * Q))
    : gmap string (list (string * Q)) :=
  foldl (λ datasets entry,
           let k := dstype (PyStr.path_join src_dir entry.1) in
           <[k := (datasets !!! k) ++ [entry]]> datasets)
        ∅ entries.

(** The body of the innermost loop: the placement of one file. It
    returns the new value of [cur_gb]. *)
Definition place (src_dir target_dir : string) (max_gb : Q) (have_read_locks : bool)
    (cur_gb : Q) (entry : string * Q) : M Q :=
  let fn := entry.1 in
  let fn_src := PyStr.path_join src_dir fn in
  let fn_tgt := PyStr.path_join target_dir fn in
  new_gb ← pooled (measure fn_src);
  if negb (Qle_bool (cur_gb + new_gb) max_gb) then
    there ← pooled (path_exists fn_tgt);
    if negb there then
      _ ← emit (Linking fn_src fn_tgt);
      _ ← pooled (ln fn_src fn_tgt);
      mret cur_gb
    else
      recheck ← (if negb have_read_locks then
                   is_f ← pooled (isfile fn_tgt);
                   if is_f : bool then is_l ← pooled (islink fn_tgt); mret (negb is_l)
                   else mret false
                 else mret false);
      if recheck : bool then
        _ ← emit (Checking fn_src fn_tgt);
        _ ← submit fn_src fn_tgt;
        mret cur_gb
      else mret cur_gb
  else
    is_l ← pooled (islink fn_tgt);
    skip ← (if is_l && negb have_read_locks then
              _ ← pooled (os_remove fn_tgt); mret false
            else if have_read_locks then pooled (isfile fn_tgt)
            else mret false);
    if skip : bool then mret cur_gb
    else
      _ ← emit (Copying fn_src fn_tgt new_gb);
      let cur_gb := (cur_gb + new_gb)%Q in
      _ ← submit fn_src fn_tgt;
      mret cur_gb.

Definition priority : list string := ["noise"; "speech"; "rir"].

(** The body of [for split in ("train", "valid", "test")]. *)
Definition copy_split (src_dir target_dir : string) (max_gb : Q) (have_read_locks : bool)
    (cur_gb : Q) (entries : list (string * Q)) : M Q :=
  let datasets := sorted_desc <$> group_by_dstype src_dir entries in
  for_each priority
    (λ cur_gb k,
       for_each (datasets !!! k) (place src_dir target_dir max_gb have_read_locks) cur_gb)
    cur_gb.

(** The function takes the catalog as [json.load] returns it. Directories
    are not modelled, so [os.makedirs] has no counterpart; of the
    [print]s those that announce a placement are kept, in [trace]. *)
Definition copy_datasets (src_dir target_dir : string) (cfg : Catalog) (max_gb : Q)
    (lock : option string) : M unit :=
  let lock_f := PyStr.path_join target_dir ".lock" in
  locks ← has_locks target_dir lock true;
  let have_read_locks := locks.1 in
  _ ← append_text lock_f
        (String PyStr.LF EmptyString +:+ PyStr.str_of_optional lock +:+ "." +:+ timestamp +:+ ".write");
  _ ← ThreadPoolExecutor;
  cur_gb ← measure target_dir;
  _ ← for_each [train cfg; valid cfg; test cfg]
        (copy_split src_dir target_dir max_gb have_read_locks) cur_gb;
  _ ← as_completed;
  match lock with
  | Some l => remove_lock target_dir l (Some (l +:+ "." +:+ timestamp +:+ ".read"))
  | None => mret tt
  end.

(** *** [cleanup] *)

Definition cleanup (target_dir : string) (prev_lock : option string) : M unit :=
  locks ← has_locks target_dir prev_lock true;
  if locks.1 || locks.2 then emit CouldNotCleanup
  else _ ← emit (Cleaning target_dir); rmtree target_dir.

(** *** The command line *)

(** The block under [if __name__ == "__main__"], after [parse_args]. The
    value is the exit status: [exit(1)] without a subcommand, 0 when the
    subcommand returns. *)
Definition main (args : Args) : M Z :=
  match args with
  | NoCommand => mret 1
  | CopyDatasetsArgs src_dir target_dir data_cfg max_gb lock =>
      _ ← copy_datasets src_dir target_dir data_cfg max_gb lock;
      mret 0
  | CleanupArgs target_dir lock =>
      _ ← match lock with
          | Some l =>
              _ ← remove_lock target_dir (l +:+ ".read") None;
              remove_lock target_dir (l +:+ ".write") None
          | None => mret tt
          end;
      _ ← cleanup target_dir lock;
      mret 0
  end.

End Collaborators.
End Script.

(** ** Vocabulary of the properties *)

(** The sleeps of the back-off: [2^j, 2^(j+1), ...], [k] of them. *)
Definition pow2s (j k : nat) : list Z := (λ i, 2 ^ Z.of_nat i) <$> seq j k.

Definition total (l : list Z) : Z := foldr Z.add 0 l.

(** Between [w] and [w'] the process only slept, for [naps]. *)
Definition napped (w w' : World) (naps : list Z) : Prop :=
  slept w' = slept w ++ naps ∧ queue w' = queue w ∧ trace w' = trace w ∧ tick w' = tick w
  ∧ submitted w' = submitted w.

(** Nobody else touches the filesystem. *)
Definition quiet (others : list Z → gmap string Node → gmap string Node) : Prop :=
  ∀ h f, others h f = f.

(** A ledger line as [copy_datasets] writes it. *)
Definition record (owner stamp kind : string) : string :=
  owner +:+ "." +:+ stamp +:+ "." +:+ kind.

(** The call returns or raises: it is never cut off for lack of fuel. *)
Definition ends {A} (m : M A) : Prop := ∀ w, m w ≠ OutOfFuel.

(** [I] survives the call, whether it returns or raises. *)
Definition keeps {A} (I : World → Prop) (m : M A) : Prop :=
  ∀ w, I w → match m w with
             | Ok _ w' | Raise _ w' => I w'
             | OutOfFuel => True
             end.

(** What [line.strip()] leaves of a line, unless that is nothing. *)
Definition stripped (line : string) : list string :=
  if String.eqb (PyStr.strip line) EmptyString then [] else [PyStr.strip line].

(** The text [writelines] makes of lines given without terminator. *)
Definition unlines (ls : list string) : string :=
  foldr String.append EmptyString ((λ l, l +:+ String PyStr.LF EmptyString) <$> ls).

(** Neither line feed nor carriage return occurs in [s]. *)
Definition one_line (s : string) : bool := PyStr.free PyStr.LF s && PyStr.free PyStr.CR s.

(** A stripped line passes the two tests of [remove_lock]: it starts
    neither with the lock name nor with the new record. *)
Definition survives (lock : string) (new_lock : option string) (line : string) : bool :=
  negb (PyStr.startswith line lock)
  && negb (match new_lock with Some n => PyStr.startswith line n | None => false end).

(** What [remove_lock] makes of the lines [old] of the ledger, without
    the line terminators. *)
Definition remaining (lock : string) (new_lock : option string) (old : list string)
    : list string :=
  filter (λ l, survives lock new_lock l = true) (flat_map stripped old) ++ option_list new_lock.

(** The line is a Write record. *)
Definition write_line (line : string) : bool :=
  PyStr.endswith (PyStr.strip line) ".write".

(** The caller does not take the line for one of its own: it gave no
    lock name, or the line does not start with it. *)
Definition foreign (lock : option string) (line : string) : Prop :=
  match lock with
  | Some l => PyStr.startswith line l = false
  | None => True
  end.

(** The lines of the ledger of [directory], an absent ledger having none. *)
Definition ledger_lines (directory : string) (w : World) : option (list string) :=
  match files w !! PyStr.path_join directory ".lock" with
  | None => Some []
  | Some (Text t) => Some (PyStr.readlines t)
  | Some _ => None
  end.

(** The line is a Read record of a foreign owner, stamped less than 24
    hours before [cur]; neither the owner nor the stamp contains a dot. *)
Definition fresh_foreign_read (strptime : string → option Z) (lock : option string)
    (cur : Z) (line : string) : Prop :=
  ∃ owner stamp ts,
    PyStr.strip line = record owner stamp "read"
    ∧ PyStr.free "." owner = true ∧ PyStr.free "." stamp = true
    ∧ foreign lock (PyStr.strip line)
    ∧ strptime stamp = Some ts ∧ cur - ts < 24 * 60.

(** The line carries no time stamp younger than 24 hours. *)
Definition stale (strptime : string → option Z) (cur : Z) (line : string) : Prop :=
  ∀ field ts,
    PyStr.split "." (PyStr.strip line) !! 1%nat = Some field →
    strptime field = Some ts → 24 * 60 ≤ cur - ts.

Definition no_leading_space (s : string) : bool :=
  match s with
  | EmptyString => true
  | String c _ => negb (PyStr.is_space c)
  end.

(** The line is a Read or Write record of an owner whose name starts with
    [x] and not with white space, as it stands in the file or as it is
    read, with its line terminator. *)
Definition extends (x : string) (line : string) : Prop :=
  ∃ y stamp kind,
    String.prefix x y = true ∧ no_leading_space y = true
    ∧ (kind = "read" ∨ kind = "write")
    ∧ (line = record y stamp kind ∨ line = record y stamp kind +:+ String PyStr.LF EmptyString).

Definition blank_or_extends (x : string) (line : string) : Prop :=
  PyStr.strip line = EmptyString ∨ extends x line.

(** What the back-off loop leaves behind when it starts with a sleep of
    [2^j]: it ends, having slept for consecutive powers of two and for
    nothing else, and what it returns is [good]. *)
Definition backed_off {A} (j : nat) (w : World) (o : Outcome A) (good : A → Prop) : Prop :=
  match o with
  | Ok a w' => (∃ k, (j + k ≤ 12)%nat ∧ napped w w' (pow2s j k)) ∧ good a
  | Raise _ w' => ∃ k, (j + k ≤ 12)%nat ∧ napped w w' (pow2s j k)
  | OutOfFuel => False
  end.

(** *** The planner *)

(** The files [copy_split] visits, in the order it visits them. *)
Definition visit_order (dstype : string → string) (src_dir : string)
    (entries : list (string * Q)) : list (string * Q) :=
  flat_map (λ k, sorted_desc (filter (λ e, dstype (PyStr.path_join src_dir e.1) = k) entries))
           Script.priority.

(** ... and over the three splits of a catalog. *)
Definition visited (dstype : string → string) (src_dir : string) (cfg : Catalog)
    : list (string * Q) :=
  flat_map (visit_order dstype src_dir) [train cfg; valid cfg; test cfg].

(** [a] stands before [b] in the list. *)
Definition listed_before {A} (l : list A) (a b : A) : Prop :=
  ∃ l1 l2 l3, l = l1 ++ a :: l2 ++ b :: l3.

Definition target_of (target_dir : string) (e : string * Q) : string :=
  PyStr.path_join target_dir e.1.

(** What placing one file prints, and the budget consumed afterwards:
    nothing, one link, one re-check, or one copy that fits the budget. *)
Inductive placed (du : gmap string Node → string → Q) (max_gb : Q) (src tgt : string)
    (cur_gb : Q) : list Event → Q → Prop :=
  | placed_skip : placed du max_gb src tgt cur_gb [] cur_gb
  | placed_link : placed du max_gb src tgt cur_gb [Linking src tgt] cur_gb
  | placed_check : placed du max_gb src tgt cur_gb [Checking src tgt] cur_gb
  | placed_copy f :
      Qle_bool (cur_gb + du f src) max_gb = true →
      placed du max_gb src tgt cur_gb [Copying src tgt (du f src)] (cur_gb + du f src)%Q.

Inductive placed_all (du : gmap string Node → string → Q) (max_gb : Q)
    (src_dir target_dir : string) : list (string * Q) → Q → list Event → Q → Prop :=
  | placed_nil cur_gb : placed_all du max_gb src_dir target_dir [] cur_gb [] cur_gb
  | placed_cons e es cur_gb evs1 cur_gb1 evs2 cur_gb2 :
      placed du max_gb (PyStr.path_join src_dir e.1) (PyStr.path_join target_dir e.1)
        cur_gb evs1 cur_gb1 →
      placed_all du max_gb src_dir target_dir es cur_gb1 evs2 cur_gb2 →
      placed_all du max_gb src_dir target_dir (e :: es) cur_gb (evs1 ++ evs2) cur_gb2.

(** The sum of the sizes of the files announced as copied. *)
Definition copied (evs : list Event) : Q :=
  foldr (λ ev acc, match ev with Copying _ _ gb => (gb + acc)%Q | _ => acc end) 0%Q evs.

(** The source and the target path of a placement. *)
Definition event_src (ev : Event) : option string :=
  match ev with
  | Linking src _ | Checking src _ | Copying src _ _ => Some src
  | _ => None
  end.


(** The job [copy_datasets] submits for a catalog entry. *)
Definition job_of (src_dir target_dir : string) (e : string * Q) : Job :=
  {| job_src := PyStr.path_join src_dir e.1; job_tgt := PyStr.path_join target_dir e.1 |}.



(** Outside the paths [T] the filesystem is still [f0], and no queued
    job writes outside [T]. *)
Definition untouched (T : string → Prop) (f0 : gmap string Node) (w : World) : Prop :=
  (∀ p, ¬ T p → files w !! p = f0 !! p) ∧ Forall (λ j, T (job_tgt j)) (queue w).

(** Every path of [S] is there, or a queued job will put it there. *)
Definition provided (S : string → Prop) (w : World) : Prop :=
  ∀ p, S p → present (files w) p = true ∨ p ∈ job_tgt <$> queue w.

(** From [w] to [w'] the process did not sleep, nothing outside [T] was
    written, no path was lost and no queued job was dropped unfinished. *)
Definition settled (w w' : World) : Prop :=
  slept w' = slept w
  ∧ (∀ T f0, untouched T f0 w → untouched T f0 w')
  ∧ (∀ S, provided S w → provided S w')
  ∧ (∀ p, present (files w) p = true → present (files w') p = true).

(** ** Concrete collaborators and worlds for the examples *)

Module Examples.

(** Nobody else is active. *)
Definition no_others : list Z → gmap string Node → gmap string Node := λ _ f, f.

(** Another process empties the ledger of [/t] during the first sleep. *)
Definition release_at_once : list Z → gmap string Node → gmap string Node :=
  λ _ f, <["/t/.lock" := Text EmptyString]> f.

(** The workers finish nothing before the main thread waits for them. *)
Definition idle : nat → list nat := λ _, [].

Definition world (f : gmap string Node) : World :=
  {| files := f; slept := []; queue := []; submitted := []; trace := []; tick := 0 |}.

(** The target directory [/t] holding only a ledger with the given lines,
    each written the way [copy_datasets] does, after a line feed. *)
Definition ledger_text (records : list string) : string :=
  foldr (λ r t, String PyStr.LF r +:+ t) EmptyString records.
Definition ledger_world (records : list string) : World :=
  world {[ "/t/.lock" := Text (ledger_text records) ]}.

(** The process started on 2026-11-03 at 08:37. *)
Definition now : string := "202611030837".

(** [rsync] always succeeds. *)
Definition rsync_fine : string → bool := λ _, true.

(** The category of a source file is read off its name. *)
Definition category (p : string) : string :=
  if PyStr.startswith p "/s/noise" then "noise"
  else if PyStr.startswith p "/s/speech" then "speech"
  else if PyStr.startswith p "/s/rir" then "rir"
  else "other".

(** Every source file takes 3 GB, the target directory counts for 0. *)
Definition sizes : gmap string Node → string → Q :=
  λ _ p, if PyStr.startswith p "/s/" then 3%Q else 0%Q.

(** The catalog of the end-to-end scenario of the design document. *)
Definition two_files : Catalog :=
  {| train := [("noiseA.bin", 2%Q); ("speechA.bin", 5%Q)]; valid := []; test := [] |}.


(** A catalog with a file of a category the script does not know. *)
Definition with_music : Catalog :=
  {| train := [("musicA.bin", 9%Q); ("noiseA.bin", 2%Q)]; valid := [("speechA.bin", 5%Q)];
     test := [] |}.


(** The target directory holds 10 GB already, every source file takes 3. *)
Definition crowded : gmap string Node → string → Q :=
  λ _ p, if PyStr.startswith p "/s/" then 3%Q else 10%Q.

(** Later the same day, at 12:00. *)
Definition noon : string := "202611031200".

(** The world a call ends in. *)
Definition world_after {A} (o : Outcome A) : World :=
  match o with
  | Ok _ w | Raise _ w => w
  | OutOfFuel => world ∅
  end.

End Examples.

(** ** Facts about the string operations *)

Module PyStrFacts.
Import PyStr.

Lemma prefix_app (p r : string) : String.prefix p (p +:+ r) = true.
Proof.
  induction p as [|c p IH]; simpl.
  - by destruct r.
  - destruct (ascii_dec c c) as [_|Hne]; [exact IH | by destruct Hne].
Qed.

Lemma app_assoc (a b c : string) : (a +:+ b) +:+ c = a +:+ (b +:+ c).
Proof. induction a as [|x a IH]; simpl; [done | by f_equal]. Qed.

Lemma endswith_refl (s : string) : endswith s s = true.
Proof. destruct s; [done |]. cbn [endswith]. by rewrite String.eqb_refl. Qed.

Lemma endswith_app (a suf : string) : endswith (a +:+ suf) suf = true.
Proof.
  induction a as [|c a IH]; [apply endswith_refl |].
  change (String c a +:+ suf) with (String c (a +:+ suf)). cbn [endswith].
  rewrite IH. by destruct (String.eqb _ _).
Qed.

Lemma rstrip_app_keep (a b : string) :
  b ≠ EmptyString → rstrip b = b → rstrip (a +:+ b) = a +:+ b.
Proof.
  intros Hb Hr. induction a as [|c a IH]; simpl; [done |].
  rewrite IH. destruct (a +:+ b) eqn:E; [| done].
  destruct a; simpl in E; [by subst | discriminate].
Qed.

Lemma rstrip_app_space (a : string) (c : ascii) :
  is_space c = true → rstrip (a +:+ String c EmptyString) = rstrip a.
Proof.
  intros Hc. induction a as [|x a IH]; simpl.
  - by rewrite Hc.
  - by rewrite IH.
Qed.

Lemma lstrip_app_space (a : string) (c : ascii) :
  is_space c = true →
  lstrip (a +:+ String c EmptyString) = EmptyString ∧ lstrip a = EmptyString
  ∨ lstrip (a +:+ String c EmptyString) = lstrip a +:+ String c EmptyString.
Proof.
  intros Hc. induction a as [|x a IH]; simpl.
  - rewrite Hc. by left.
  - destruct (is_space x); [exact IH | by right].
Qed.

(** The line terminator does not survive [strip]. *)
Lemma strip_terminator (a : string) : strip (a +:+ String LF EmptyString) = strip a.
Proof.
  unfold strip.
  destruct (lstrip_app_space a LF eq_refl) as [[-> ->] | ->]; [done |].
  by apply rstrip_app_space.
Qed.

Lemma split_cons_inv (sep : ascii) (s : string) : ∃ f fs, split sep s = f :: fs.
Proof.
  induction s as [|c s (f & fs & IH)]; simpl; [by eauto |].
  destruct (Ascii.eqb c sep); [by eauto |]. rewrite IH. by eauto.
Qed.

(** Splitting at a separator splits the list of fields. *)
Lemma split_app_sep (sep : ascii) (a b : string) :
  split sep (a +:+ String sep b) = split sep a ++ split sep b.
Proof.
  induction a as [|c a IH]; simpl.
  - by rewrite Ascii.eqb_refl.
  - destruct (Ascii.eqb c sep); [by rewrite IH |].
    rewrite IH. by destruct (split_cons_inv sep a) as (f & fs & ->).
Qed.

Lemma split_free (sep : ascii) (s : string) : free sep s = true → split sep s = [s].
Proof.
  induction s as [|c s IH]; simpl; [done |].
  intros [Hc Hs]%andb_true_iff. apply negb_true_iff in Hc. rewrite Hc.
  by rewrite (IH Hs).
Qed.

Lemma free_app (sep : ascii) (a b : string) :
  free sep (a +:+ b) = free sep a && free sep b.
Proof. induction a as [|c a IH]; simpl; [done | by rewrite IH, andb_assoc]. Qed.

Lemma universal_newlines_free (b : bool) (s : string) :
  free LF s = true → free CR s = true → universal_newlines b s = s.
Proof.
  revert b. induction s as [|c s IH]; simpl; intros b; [done |].
  intros [Hl Hs]%andb_true_iff [Hc Hs']%andb_true_iff.
  apply negb_true_iff in Hl, Hc. rewrite Hl, Hc. by rewrite IH.
Qed.




End PyStrFacts.

(** ** Facts about the lock ledger *)

Lemma bind_Ok {A B} (m : M A) (k : A → M B) (w w' : World) (a : A) :
  m w = Ok a w' → (m ≫= k) w = k a w'.
Proof. intros H. unfold mbind, M_bind. by rewrite H. Qed.

Lemma bind_inv {A B} (m : M A) (k : A → M B) (w w'' : World) (b : B) :
  (m ≫= k) w = Ok b w'' → ∃ a w', m w = Ok a w' ∧ k a w' = Ok b w''.
Proof. unfold mbind, M_bind. destruct (m w) as [a w'| |]; [by eauto | done | done]. Qed.

Lemma napped_refl (w : World) : napped w w [].
Proof. unfold napped. by rewrite app_nil_r. Qed.

Lemma pow2s_cons (j k : nat) : pow2s j (S k) = 2 ^ Z.of_nat j :: pow2s (S j) k.
Proof. done. Qed.

Lemma total_pow2s (j k : nat) : total (pow2s j k) = 2 ^ Z.of_nat (j + k) - 2 ^ Z.of_nat j.
Proof.
  revert j. induction k as [|k IH]; intros j.
  - rewrite Nat.add_0_r. simpl. lia.
  - rewrite pow2s_cons. simpl. rewrite IH.
    replace (Z.of_nat (j + S k)) with (Z.of_nat (S j + k)) by lia.
    replace (Z.of_nat (S j)) with (Z.of_nat j + 1) by lia.
    rewrite Z.pow_add_r by lia. lia.
Qed.

(** The ledger of a directory lies in it. *)
Lemma inside_ledger (d : string) : inside d (PyStr.path_join d ".lock") = true.
Proof.
  unfold inside, PyStr.path_join, PyStr.startswith.
  change (String.prefix "/" ".lock") with false.
  change (String.prefix "/" EmptyString) with false. cbv iota.
  assert (Hnil : ∀ a : string, a +:+ EmptyString = a).
  { induction a as [|c a IH]; simpl; [done | by rewrite IH]. }
  destruct (String.eqb d EmptyString || PyStr.endswith d "/").
  - rewrite Hnil. apply PyStrFacts.prefix_app.
  - change (d +:+ "/" +:+ EmptyString) with (d +:+ "/").
    rewrite <- (PyStrFacts.app_assoc d "/" ".lock"). apply PyStrFacts.prefix_app.
Qed.

(** [rmtree] returns on a directory that has a name and holds a path. *)
Lemma rmtree_Ok (d p : string) (n : Node) (w : World) :
  d ≠ EmptyString → files w !! p = Some n → inside d p = true →
  rmtree d w = Ok tt (set_files (filter (λ kv, inside d kv.1 = false)) w).
Proof.
  intros Hd Hp Hin. unfold rmtree.
  destruct (String.eqb_spec d EmptyString) as [-> | _]; [done |].
  rewrite bool_decide_eq_false_2; [done |].
  intros Hall. specialize (Hall p n Hp). simpl in Hall. congruence.
Qed.

Lemma rmtree_ledger (d : string) (n : Node) (w : World) :
  d ≠ EmptyString → files w !! PyStr.path_join d ".lock" = Some n →
  rmtree d w = Ok tt (set_files (filter (λ kv, inside d kv.1 = false)) w).
Proof. intros Hd Hp. eapply rmtree_Ok; [done | exact Hp | apply inside_ledger]. Qed.

Section LedgerFacts.

Variable strptime : string → option Z.
Variable others : list Z → gmap string Node → gmap string Node.
Variable timestamp : string.

Local Abbreviation wait_write := (Script.wait_write others).
Local Abbreviation has_locks := (Script.has_locks strptime others timestamp).
Local Abbreviation cleanup := (Script.cleanup strptime others timestamp).

(** Whatever the other processes do, [wait_write] ends after at most
    twelve rounds, and it reports a write lock if it saw one. *)
Lemma wait_write_spec (lock_f : string) (lock : option string) (wait : bool) (fuel : nat) :
  ∀ (j : nat) (hw : bool) (w : World),
    (j ≤ 11)%nat → (12 ≤ j + fuel)%nat →
    backed_off j w (wait_write fuel lock_f lock wait (2 ^ Z.of_nat j) hw w)
      (λ b, b = true ∨ b = hw).
Proof.
  induction fuel as [|fuel IH]; intros j hw w Hj Hfuel; [lia |].
  cbn [Script.wait_write]. unfold mbind, M_bind, open_lines.
  destruct (files w !! lock_f) as [[t| |]|]; simpl;
    try (exists 0%nat; split; [lia | apply napped_refl]).
  destruct (existsb _ _); simpl;
    [| split; [exists 0%nat; split; [lia | apply napped_refl] | by right]].
  destruct wait; simpl;
    [| split; [exists 0%nat; split; [lia | apply napped_refl] | by left]].
  unfold Script.sleep.
  destruct (Z.ltb_spec (2 ^ Z.of_nat j) 0) as [Hneg|_]; [lia |].
  set (w1 := {| files := _ |}).
  assert (Hw1 : napped w w1 (pow2s j 1)) by done.
  replace (2 ^ Z.of_nat j * 2) with (2 ^ Z.of_nat (S j))
    by (rewrite Nat2Z.inj_succ, Z.pow_succ_r; lia).
  destruct (Z.ltb_spec (2 ^ 11) (2 ^ Z.of_nat (S j))) as [Hcap|Hcap].
  - simpl. split; [exists 1%nat; split; [lia | done] | by left].
  - assert (Hj' : (S j ≤ 11)%nat).
    { apply Z.pow_le_mono_r_iff in Hcap; lia. }
    specialize (IH (S j) true w1 Hj' ltac:(lia)).
    unfold backed_off in *.
    destruct (wait_write fuel lock_f lock true (2 ^ Z.of_nat (S j)) true w1)
      as [b w'| e w' |]; [| | done].
    + destruct IH as [(k & Hk & Hs & Hq & Ht & Hti & Hsu) Hb]. split; [| by destruct Hb; left].
      exists (S k). split; [lia |]. rewrite pow2s_cons.
      unfold napped. rewrite Hs, Hq, Ht, Hti, Hsu. simpl. by rewrite <- app_assoc.
    + destruct IH as (k & Hk & Hs & Hq & Ht & Hti & Hsu).
      exists (S k). split; [lia |]. rewrite pow2s_cons.
      unfold napped. rewrite Hs, Hq, Ht, Hti, Hsu. simpl. by rewrite <- app_assoc.
Qed.


(** The same loop when the ledger stays as it is: a foreign write lock
    that is there is waited for through all twelve sleeps. *)
Lemma wait_write_quiet (lock_f t : string) (lock : option string) (wait : bool) (fuel : nat) :
  quiet others →
  ∀ (j : nat) (hw : bool) (w : World),
    files w !! lock_f = Some (Text t) →
    (j ≤ 11)%nat → (12 ≤ j + fuel)%nat →
    ∃ w', wait_write fuel lock_f lock wait (2 ^ Z.of_nat j) hw w
          = Ok (existsb (Script.foreign_write lock) (PyStr.readlines t) || hw) w'
        ∧ files w' = files w
        ∧ napped w w' (if existsb (Script.foreign_write lock) (PyStr.readlines t) && wait
                       then pow2s j (12 - j) else []).
Proof.
  intros Hq. induction fuel as [|fuel IH]; intros j hw w Hf Hj Hfuel; [lia |].
  cbn [Script.wait_write]. unfold mbind, M_bind, open_lines. rewrite Hf.
  destruct (existsb _ _); simpl; [| exists w; by split; [| split; [| apply napped_refl]]].
  destruct wait; simpl; [| exists w; by split; [| split; [| apply napped_refl]]].
  unfold Script.sleep.
  destruct (Z.ltb_spec (2 ^ Z.of_nat j) 0) as [Hneg|_]; [lia |].
  rewrite Hq. set (w1 := {| files := _ |}).
  replace (2 ^ Z.of_nat j * 2) with (2 ^ Z.of_nat (S j))
    by (rewrite Nat2Z.inj_succ, Z.pow_succ_r; lia).
  destruct (Z.ltb_spec (2 ^ 11) (2 ^ Z.of_nat (S j))) as [Hcap|Hcap].
  - assert (j = 11%nat) as -> by (apply Z.pow_lt_mono_r_iff in Hcap; lia).
    exists w1. by split; [| split].
  - assert (Hj' : (S j ≤ 11)%nat) by (apply Z.pow_le_mono_r_iff in Hcap; lia).
    destruct (IH (S j) true w1 Hf Hj' ltac:(lia)) as (w' & -> & Hfs & Hs & Hqu & Ht & Hti & Hsu).
    exists w'. rewrite orb_true_r. split; [done |]. split; [done |].
    replace (12 - j)%nat with (S (12 - S j)) by lia. rewrite pow2s_cons.
    unfold napped. rewrite Hs, Hqu, Ht, Hti, Hsu. simpl. by rewrite <- app_assoc.
Qed.

(** With no lock name nothing counts as a foreign write lock. *)
Lemma foreign_write_anonymous (lines : list string) :
  existsb (Script.foreign_write None) lines = false.
Proof.
  induction lines as [|l lines IH]; [done |]. simpl. rewrite IH.
  unfold Script.foreign_write. by rewrite andb_false_r.
Qed.

(** [has_locks] in a quiet environment, in closed form. *)
Lemma has_locks_quiet (directory t : string) (lock : option string) (wait : bool)
    (cur : Z) (w : World) :
  quiet others →
  files w !! PyStr.path_join directory ".lock" = Some (Text t) →
  strptime timestamp = Some cur →
  ∃ w', has_locks directory lock wait w
        = Ok (Script.recent_activity strptime lock cur (PyStr.readlines t),
              existsb (Script.foreign_write lock) (PyStr.readlines t)) w'
      ∧ files w' = files w
      ∧ napped w w' (if existsb (Script.foreign_write lock) (PyStr.readlines t) && wait
                     then pow2s 0 12 else []).
Proof.
  intros Hq Hf Hcur. unfold Script.has_locks.
  unfold mbind at 1, M_bind at 1, isfile, present. rewrite Hf.
  destruct (wait_write_quiet (PyStr.path_join directory ".lock") t lock wait
              Script.wait_write_fuel Hq 0 false w Hf ltac:(lia) ltac:(unfold Script.wait_write_fuel; lia))
    as (w' & Hw & Hfs & Hn).
  change (2 ^ Z.of_nat 0) with 1 in Hw.
  unfold mbind, M_bind. rewrite Hw, Hcur. unfold mret, M_ret, open_lines.
  rewrite Hfs, Hf, orb_false_r. exists w'. by split; [| split].
Qed.

(** A missing ledger means no locks. *)
Lemma has_locks_no_ledger (directory : string) (lock : option string) (wait : bool) (w : World) :
  files w !! PyStr.path_join directory ".lock" = None →
  has_locks directory lock wait w = Ok (false, false) w.
Proof.
  intros Hf. unfold Script.has_locks, mbind, M_bind, isfile, present. by rewrite Hf.
Qed.

(** Whatever happens around it, [has_locks] ends, and all it does to the
    process is sleep through a prefix of [1, 2, 4, ..., 2048]. *)
Lemma has_locks_backed_off (directory : string) (lock : option string) (wait : bool) (w : World) :
  backed_off 0 w (has_locks directory lock wait w) (λ _, True).
Proof.
  unfold Script.has_locks. unfold mbind at 1, M_bind at 1, isfile.
  destruct (present _ _); [| simpl; split; [exists 0%nat; split; [lia | apply napped_refl] | done]].
  pose proof (wait_write_spec (PyStr.path_join directory ".lock") lock wait
                Script.wait_write_fuel 0 false w ltac:(lia)
                ltac:(unfold Script.wait_write_fuel; lia)) as Hw.
  change (2 ^ Z.of_nat 0) with 1 in Hw.
  unfold mbind at 1, M_bind at 1.
  destruct (wait_write _ _ _ _ _ _ _) as [hw w1|e w1|]; simpl in *; [| done | done].
  destruct Hw as [Hk _].
  unfold mbind at 1, M_bind at 1.
  destruct (strptime timestamp); simpl; [| done].
  unfold mbind, M_bind, open_lines.
  destruct (files w1 !! _) as [[?| |]|]; simpl; done.
Qed.


(** When the first scan finds a foreign write lock, the loop reports it,
    and with [wait_write_lock] set it sleeps at least once. *)
Lemma wait_write_foreign (lock_f t : string) (lock : option string) (wait : bool)
    (fuel : nat) (w : World) :
  (12 ≤ fuel)%nat →
  files w !! lock_f = Some (Text t) →
  existsb (Script.foreign_write lock) (PyStr.readlines t) = true →
  match wait_write fuel lock_f lock wait 1 false w with
  | Ok b w' =>
      b = true
      ∧ ∃ k, (k ≤ 12)%nat ∧ (if wait then (1 ≤ k)%nat else k = 0%nat) ∧ napped w w' (pow2s 0 k)
  | Raise _ w' =>
      ∃ k, (k ≤ 12)%nat ∧ (if wait then (1 ≤ k)%nat else k = 0%nat) ∧ napped w w' (pow2s 0 k)
  | OutOfFuel => False
  end.
Proof.
  intros Hfuel Hf Hex. destruct fuel as [|fuel]; [lia |].
  cbn [Script.wait_write].
  unfold mbind at 1, M_bind at 1, open_lines. rewrite Hf, Hex.
  destruct wait; cbn [negb].
  - unfold mbind, M_bind, Script.sleep. change (1 <? 0) with false. cbv iota.
    set (w1 := {| files := _ |}).
    change (2 ^ 11 <? 1 * 2) with false. cbv iota.
    pose proof (wait_write_spec lock_f lock true fuel 1 true w1
                  ltac:(lia) ltac:(lia)) as Hw.
    change (2 ^ Z.of_nat 1) with (1 * 2) in Hw. unfold backed_off in Hw.
    destruct (wait_write fuel _ _ _ _ _ _) as [b w'|e w'|]; [| | done].
    + destruct Hw as [(k & Hk & Hs & Hq & Ht & Hti & Hsu) Hb].
      split; [by destruct Hb |]. exists (S k). split; [lia |]. split; [lia |].
      rewrite pow2s_cons. unfold napped. rewrite Hs, Hq, Ht, Hti, Hsu. simpl.
      by rewrite <- app_assoc.
    + destruct Hw as (k & Hk & Hs & Hq & Ht & Hti & Hsu).
      exists (S k). split; [lia |]. split; [lia |].
      rewrite pow2s_cons. unfold napped. rewrite Hs, Hq, Ht, Hti, Hsu. simpl.
      by rewrite <- app_assoc.
  - split; [done |]. exists 0%nat. split; [lia |]. split; [done | apply napped_refl].
Qed.

Lemma has_locks_foreign_write (directory t : string) (lock : option string)
    (wait : bool) (w : World) :
  files w !! PyStr.path_join directory ".lock" = Some (Text t) →
  existsb (Script.foreign_write lock) (PyStr.readlines t) = true →
  match has_locks directory lock wait w with
  | Ok r w' =>
      r.2 = true
      ∧ ∃ k, (k ≤ 12)%nat ∧ (if wait then (1 ≤ k)%nat else k = 0%nat) ∧ napped w w' (pow2s 0 k)
  | Raise _ w' =>
      ∃ k, (k ≤ 12)%nat ∧ (if wait then (1 ≤ k)%nat else k = 0%nat) ∧ napped w w' (pow2s 0 k)
  | OutOfFuel => False
  end.
Proof.
  intros Hf Hex. unfold Script.has_locks.
  unfold mbind at 1, M_bind at 1, isfile, present. rewrite Hf.
  pose proof (wait_write_foreign (PyStr.path_join directory ".lock") t lock wait
                Script.wait_write_fuel w ltac:(unfold Script.wait_write_fuel; lia) Hf Hex)
    as Hstep.
  unfold mbind at 1, M_bind at 1.
  destruct (wait_write _ _ _ _ _ _ _) as [hw w1|e w1|]; [| done | done].
  destruct Hstep as [-> Hk].
  unfold mbind at 1, M_bind at 1.
  destruct (strptime timestamp); simpl; [| done].
  unfold mbind, M_bind, open_lines.
  destruct (files w1 !! _) as [[?| |]|]; simpl; done.
Qed.

Lemma recent_activity_fresh (lock : option string) (cur : Z) (lines : list string) :
  Exists (fresh_foreign_read strptime lock cur) lines →
  Script.recent_activity strptime lock cur lines = true.
Proof.
  induction 1 as [line rest (owner & stamp & ts & Hl & Ho & Hs & Hfor & Hts & Hage) | line rest _ IH].
  - cbn [Script.recent_activity]. rewrite Hl in *.
    assert (Hown : match lock with Some l => PyStr.startswith (record owner stamp "read") l
                                | None => false end = false) by (by destruct lock).
    rewrite Hown.
    assert (Hfield : PyStr.split "." (record owner stamp "read") !! 1%nat = Some stamp).
    { unfold record.
      change ("." +:+ stamp +:+ "." +:+ "read") with (String "." (stamp +:+ String "." "read")).
      rewrite !PyStrFacts.split_app_sep, (PyStrFacts.split_free _ _ Ho),
        (PyStrFacts.split_free _ _ Hs). done. }
    rewrite Hfield, Hts.
    by destruct (Z.ltb_spec (cur - ts) (24 * 60)); [| lia].
  - cbn [Script.recent_activity]. rewrite IH.
    destruct (match lock with Some l => _ | None => false end); [done |].
    destruct (PyStr.split _ _ !! 1%nat) as [field|]; [| done].
    destruct (strptime field) as [ts|]; [| done].
    by destruct (_ <? _).
Qed.

Lemma recent_activity_stale (lock : option string) (cur : Z) (lines : list string) :
  Forall (stale strptime cur) lines →
  Script.recent_activity strptime lock cur lines = false.
Proof.
  induction 1 as [|line rest Hst _ IH]; [done |].
  cbn [Script.recent_activity]. rewrite IH.
  destruct (match lock with Some l => _ | None => false end); [done |].
  destruct (PyStr.split _ _ !! 1%nat) as [field|] eqn:Hfield; [| done].
  destruct (strptime field) as [ts|] eqn:Hts; [| done].
  specialize (Hst field ts Hfield Hts).
  by destruct (Z.ltb_spec (cur - ts) (24 * 60)); [lia |].
Qed.

Lemma existsb_Forall_false {A} (f : A → bool) (l : list A) :
  Forall (λ x, f x = false) l → existsb f l = false.
Proof. induction 1 as [|x l Hx _ IH]; [done |]. simpl. by rewrite Hx, IH. Qed.

Lemma napped_nil_eq (w w' : World) : files w' = files w → napped w w' [] → w' = w.
Proof.
  intros Hf (Hs & Hq & Ht & Hti & Hsu). rewrite app_nil_r in Hs.
  destruct w, w'; simpl in *; by subst.
Qed.


Lemma wait_write_anonymous (lock_f : string) (wait : bool) (fuel : nat) (tries : Z)
    (hw : bool) (w : World) :
  (1 ≤ fuel)%nat →
  wait_write fuel lock_f None wait tries hw w
  = (_ ← open_lines lock_f; mret hw) w.
Proof.
  intros Hfuel. destruct fuel as [|fuel]; [lia |].
  cbn [Script.wait_write]. unfold mbind, M_bind.
  destruct (open_lines lock_f w) as [lines w'| |]; [| done | done].
  by rewrite foreign_write_anonymous.
Qed.

Lemma prefix_app_l (x y r : string) :
  String.prefix x y = true → String.prefix x (y +:+ r) = true.
Proof.
  revert y. induction x as [|c x IH]; intros y; [by destruct (y +:+ r) |].
  destruct y as [|d y]; [done |]. simpl.
  destruct (ascii_dec c d); [apply IH | done].
Qed.

(** A record of an owner without leading white space reads back as it
    was written. *)
Lemma strip_record (y stamp kind : string) :
  no_leading_space y = true → kind = "read" ∨ kind = "write" →
  PyStr.strip (record y stamp kind) = record y stamp kind.
Proof.
  intros Hy Hk. unfold PyStr.strip.
  assert (Hl : PyStr.lstrip (record y stamp kind) = record y stamp kind).
  { unfold record. destruct y as [|c y]; [done |]. simpl in *.
    apply negb_true_iff in Hy. by rewrite Hy. }
  rewrite Hl. unfold record.
  rewrite <- !PyStrFacts.app_assoc.
  apply PyStrFacts.rstrip_app_keep; by destruct Hk as [-> | ->].
Qed.

Lemma blank_or_extends_strip (x line : string) :
  blank_or_extends x line →
  PyStr.strip line = EmptyString
  ∨ ∃ y stamp kind, String.prefix x y = true ∧ PyStr.strip line = record y stamp kind.
Proof.
  intros [Hb | (y & stamp & kind & Hp & Hy & Hk & Hl)]; [by left | right].
  exists y, stamp, kind. split; [done |].
  destruct Hl as [-> | ->]; [| rewrite PyStrFacts.strip_terminator]; by apply strip_record.
Qed.

Lemma foreign_write_own (x : string) (lines : list string) :
  Forall (blank_or_extends x) lines →
  existsb (Script.foreign_write (Some x)) lines = false.
Proof.
  intros H. apply existsb_Forall_false. eapply Forall_impl; [exact H |].
  intros line [Hl | (y & stamp & kind & Hp & Hl)]%blank_or_extends_strip;
    unfold Script.foreign_write; rewrite Hl; [done |].
  unfold PyStr.startswith, record.
  by rewrite (prefix_app_l _ _ _ Hp), andb_false_r.
Qed.

Lemma recent_activity_own (x : string) (cur : Z) (lines : list string) :
  Forall (blank_or_extends x) lines →
  Script.recent_activity strptime (Some x) cur lines = false.
Proof.
  induction 1 as [|line rest Hl _ IH]; [done |].
  cbn [Script.recent_activity]. rewrite IH.
  apply blank_or_extends_strip in Hl as [-> | (y & stamp & kind & Hp & ->)].
  - by destruct (PyStr.startswith _ _).
  - unfold PyStr.startswith, record. by rewrite (prefix_app_l _ _ _ Hp).
Qed.

(** ** The claims about the lock ledger *)

(** The write scan is blind for a caller that gives no lock name: its
    condition [lock is not None and not ...startswith(lock)] is false
    for every line, so such a caller is never told of a write lock and
    never waits for one, whatever the ledger holds. The second scan of
    [has_locks] does the opposite and takes every line for foreign. *)
Lemma anonymous_caller_sees_no_write_lock (directory : string) (wait : bool) (w : World) :
  match has_locks directory None wait w with
  | Ok r w' => r.2 = false ∧ slept w' = slept w
  | Raise _ w' => slept w' = slept w
  | OutOfFuel => False
  end.
Proof.
  unfold Script.has_locks. unfold mbind at 1, M_bind at 1, isfile.
  destruct (present _ _); [| done].
  unfold mbind at 1, M_bind at 1.
  rewrite wait_write_anonymous by (unfold Script.wait_write_fuel; lia).
  unfold mbind at 1, M_bind at 1, open_lines.
  destruct (files w !! _) as [[t| |]|] eqn:Hf; simpl; [| done | done | done].
  unfold mbind at 1, M_bind at 1.
  destruct (strptime timestamp); simpl; [| done].
  unfold mbind, M_bind. by rewrite Hf.
Qed.

(** C7, as amended: with [wait_write_lock] set and a foreign write lock
    in the ledger, [has_locks] always ends; it has then slept for
    [1, 2, 4, ...] seconds, at least once and at most twelve times, that
    is for at most [2^12 - 1] seconds in all, and it reports the write
    lock when it returns. *)
Theorem lock_wait_is_bounded (directory t : string) (lock : option string) (w : World) :
  files w !! PyStr.path_join directory ".lock" = Some (Text t) →
  existsb (Script.foreign_write lock) (PyStr.readlines t) = true →
  match has_locks directory lock true w with
  | Ok r w' =>
      r.2 = true
      ∧ ∃ k, (1 ≤ k ≤ 12)%nat ∧ slept w' = slept w ++ pow2s 0 k
             ∧ total (pow2s 0 k) ≤ 2 ^ 12 - 1
  | Raise _ w' =>
      ∃ k, (1 ≤ k ≤ 12)%nat ∧ slept w' = slept w ++ pow2s 0 k
           ∧ total (pow2s 0 k) ≤ 2 ^ 12 - 1
  | OutOfFuel => False
  end.
Proof.
  intros Hf Hex. pose proof (has_locks_foreign_write directory t lock true w Hf Hex) as H.
  assert (Hsum : ∀ k, (k ≤ 12)%nat → total (pow2s 0 k) ≤ 2 ^ 12 - 1).
  { intros k Hk. rewrite total_pow2s. simpl (0 + k)%nat.
    assert (2 ^ Z.of_nat k ≤ 2 ^ 12) by (apply Z.pow_le_mono_r; lia).
    change (2 ^ Z.of_nat 0) with 1. lia. }
  destruct (has_locks directory lock true w) as [r w'|e w'|]; [| | done].
  - destruct H as [Hr (k & Hk & Hk1 & Hs & _)]. split; [done |].
    exists k. split; [lia |]. split; [done | by apply Hsum].
  - destruct H as (k & Hk & Hk1 & Hs & _).
    exists k. split; [lia |]. split; [done | by apply Hsum].
Qed.

(** The wait gives up: a foreign write lock that stays is waited for
    through all twelve sleeps, [2^12 - 1] seconds, and [has_locks] then
    returns, reporting it. *)
Lemma lock_wait_gives_up (directory t : string) (lock : option string) (cur : Z) (w : World) :
  quiet others →
  files w !! PyStr.path_join directory ".lock" = Some (Text t) →
  strptime timestamp = Some cur →
  existsb (Script.foreign_write lock) (PyStr.readlines t) = true →
  ∃ hr w', has_locks directory lock true w = Ok (hr, true) w'
           ∧ slept w' = slept w ++ pow2s 0 12
           ∧ total (pow2s 0 12) = 2 ^ 12 - 1.
Proof.
  intros Hq Hf Hcur Hex.
  destruct (has_locks_quiet directory t lock true cur w Hq Hf Hcur) as (w' & Hr & _ & Hn).
  rewrite Hex in *. exists (Script.recent_activity strptime lock cur (PyStr.readlines t)), w'.
  split; [done |]. split; [apply Hn | done].
Qed.


(** A ledger made of blank lines and of records of owners whose names
    start with [x] tells the caller [x] nothing. *)
Lemma own_ledger_reports_nothing (directory t x : string) (wait : bool) (cur : Z) (w : World) :
  files w !! PyStr.path_join directory ".lock" = Some (Text t) →
  strptime timestamp = Some cur →
  Forall (blank_or_extends x) (PyStr.readlines t) →
  has_locks directory (Some x) wait w = Ok (false, false) w.
Proof.
  intros Hf Hcur Hall. unfold Script.has_locks.
  unfold mbind at 1, M_bind at 1, isfile, present. rewrite Hf.
  unfold Script.wait_write_fuel. cbn [Script.wait_write].
  unfold mbind, M_bind, open_lines. rewrite Hf.
  rewrite (foreign_write_own _ _ Hall). simpl. rewrite Hcur. simpl. rewrite Hf.
  by rewrite (recent_activity_own _ _ _ Hall).
Qed.

Lemma recent_activity_without (x r : string) (cur : Z) (l1 l2 : list string) :
  extends x r →
  Script.recent_activity strptime (Some x) cur (l1 ++ r :: l2)
  = Script.recent_activity strptime (Some x) cur (l1 ++ l2).
Proof.
  intros Hr. induction l1 as [|l l1 IH]; simpl.
  - pose proof (recent_activity_own x cur [r] ltac:(apply Forall_singleton; by right)) as Hown.
    cbn [Script.recent_activity] in Hown.
    destruct (PyStr.startswith (PyStr.strip r) x); [done |].
    destruct (PyStr.split _ _ !! 1%nat) as [field|]; [| done].
    destruct (strptime field) as [ts|]; [| done].
    by destruct (_ <? _).
  - by rewrite IH.
Qed.

(** C10, as amended: ownership is decided by string prefix. A Read or
    Write record of an owner whose name starts with the caller's lock
    name [x] (and not with white space) counts as the caller's own: with
    or without that line in the ledger, [has_locks] tells the caller
    the same about foreign write locks and about recent activity. *)
Theorem prefix_owner_counts_as_own (directory x r : string) (wait : bool) (cur : Z)
    (l1 l2 : list string) (t ty : string) (w wy : World) :
  quiet others →
  strptime timestamp = Some cur →
  extends x r →
  files w !! PyStr.path_join directory ".lock" = Some (Text t) →
  PyStr.readlines t = l1 ++ l2 →
  files wy !! PyStr.path_join directory ".lock" = Some (Text ty) →
  PyStr.readlines ty = l1 ++ r :: l2 →
  ∃ answer w' wy',
    has_locks directory (Some x) wait w = Ok answer w'
    ∧ has_locks directory (Some x) wait wy = Ok answer wy'.
Proof.
  intros Hq Hcur Hr Hf Hl Hfy Hly.
  destruct (has_locks_quiet directory t (Some x) wait cur w Hq Hf Hcur) as (w' & Hw & _).
  destruct (has_locks_quiet directory ty (Some x) wait cur wy Hq Hfy Hcur) as (wy' & Hwy & _).
  rewrite Hl in Hw. rewrite Hly in Hwy.
  rewrite (recent_activity_without x r cur l1 l2 Hr) in Hwy.
  rewrite existsb_app in Hw, Hwy. cbn [existsb] in Hwy.
  pose proof (foreign_write_own x [r] ltac:(apply Forall_singleton; by right)) as Hown.
  cbn [existsb] in Hown. rewrite orb_false_r in Hown. rewrite Hown in Hwy.
  by eauto.
Qed.

(** C3, as amended. In a quiet environment, with a readable ledger in
    the directory, whose name is not empty:
    - if the ledger holds a Read record of a foreign owner (whose name
      has no dot) stamped less than 24 hours before the run, [cleanup]
      refuses and leaves the filesystem as it is;
    - if the ledger is empty, or none of its lines carries a stamp
      younger than 24 hours and none is a foreign write lock, [cleanup]
      deletes the target directory tree. *)
Theorem cleanup_gate (directory t : string) (lock : option string) (cur : Z) (w : World) :
  quiet others →
  strptime timestamp = Some cur →
  directory ≠ EmptyString →
  files w !! PyStr.path_join directory ".lock" = Some (Text t) →
  (Exists (fresh_foreign_read strptime lock cur) (PyStr.readlines t) →
     ∃ w', cleanup directory lock w = Ok tt w'
           ∧ files w' = files w ∧ trace w' = trace w ++ [CouldNotCleanup])
  ∧ (Forall (stale strptime cur) (PyStr.readlines t) →
     Forall (λ line, Script.foreign_write lock line = false) (PyStr.readlines t) →
     ∃ w', cleanup directory lock w = Ok tt w'
           ∧ files w' = filter (λ kv, inside directory kv.1 = false) (files w)
           ∧ trace w' = trace w ++ [Cleaning directory]).
Proof.
  intros Hq Hcur Hdir Hf.
  destruct (has_locks_quiet directory t lock true cur w Hq Hf Hcur) as (w' & Hr & Hfs & Hn).
  split.
  - intros Hfresh. unfold Script.cleanup, mbind, M_bind. rewrite Hr.
    rewrite (recent_activity_fresh _ _ _ Hfresh). simpl.
    eexists. split; [done |]. simpl. split; [done |]. by destruct Hn as (_ & _ & -> & _).
  - intros Hst Hnw. unfold Script.cleanup, mbind, M_bind. rewrite Hr.
    rewrite (recent_activity_stale _ _ _ Hst), (existsb_Forall_false _ _ Hnw) in *.
    simpl in *. apply napped_nil_eq in Hn as ->; [| done].
    rewrite (rmtree_ledger directory (Text t)) by done.
    eexists. split; [done |]. by split.
Qed.

End LedgerFacts.

(** ** Facts about the planner and the pool *)

Lemma for_each_app {A S} (xs ys : list A) (body : S → A → M S) (s : S) (w : World) :
  for_each (xs ++ ys) body s w = (s' ← for_each xs body s; for_each ys body s') w.
Proof.
  revert s w. induction xs as [|x xs IH]; intros s w; [done |].
  simpl. unfold mbind, M_bind in *. destruct (body s x w) as [s1 w1| |]; [| done | done].
  apply IH.
Qed.

(** Two nested loops visit the concatenation of the inner lists. *)
Lemma for_each_flat_map {A B S} (g : A → list B) (xs : list A) (body : S → B → M S)
    (s : S) (w : World) :
  for_each xs (λ s x, for_each (g x) body s) s w = for_each (flat_map g xs) body s w.
Proof.
  revert s w. induction xs as [|x xs IH]; intros s w; [done |].
  simpl. rewrite for_each_app. unfold mbind, M_bind.
  destruct (for_each (g x) body s w) as [s1 w1| |]; [| done | done]. apply IH.
Qed.

Lemma settled_refl (w : World) : settled w w.
Proof. unfold settled. split; [done |]. split; [auto |]. split; auto. Qed.

Lemma settled_trans (w1 w2 w3 : World) : settled w1 w2 → settled w2 w3 → settled w1 w3.
Proof.
  intros (Hs1 & Hu1 & Hp1 & Hx1) (Hs2 & Hu2 & Hp2 & Hx2).
  split; [congruence |]. split; [| split].
  - intros T f0 H. by apply Hu2, Hu1.
  - intros S H. by apply Hp2, Hp1.
  - intros p H. by apply Hx2, Hx1.
Qed.

Lemma settled_say (e : Event) (w : World) : settled w (say e w).
Proof. unfold settled. split; [done |]. split; [auto |]. split; auto. Qed.

Lemma delete_targets (q : list Job) (i : nat) (j : Job) (p : string) :
  q !! i = Some j → p ∈ job_tgt <$> q → p = job_tgt j ∨ p ∈ job_tgt <$> delete i q.
Proof.
  revert i. induction q as [|x q IH]; intros i Hi Hp; [done |].
  destruct i as [|i]; simpl in *.
  - injection Hi as ->. apply elem_of_cons in Hp as [-> | Hp]; [by left | by right].
  - apply elem_of_cons in Hp as [-> | Hp]; [right; apply elem_of_cons; by left |].
    destruct (IH i Hi Hp) as [-> | Hq]; [by left | right; apply elem_of_cons; by right].
Qed.








Section PoolFacts.

Variable rsync_ok : string → bool.
Variable sched : nat → list nat.

Local Abbreviation cp := (Script.cp rsync_ok).
Local Abbreviation finish := (Script.finish rsync_ok).
Local Abbreviation turn := (Script.turn rsync_ok sched).
Local Abbreviation finish_next := (Script.finish_next rsync_ok sched).

Lemma cp_lookup_ne (j : Job) (f : gmap string Node) (p : string) :
  p ≠ job_tgt j → cp j f !! p = f !! p.
Proof.
  intros Hp. unfold Script.cp.
  destruct (rsync_ok _); [by rewrite lookup_insert_ne |].
  rewrite lookup_insert_ne by done.
  destruct (present f _); [by rewrite lookup_delete_ne | done].
Qed.

Lemma cp_present_tgt (j : Job) (f : gmap string Node) : present (cp j f) (job_tgt j) = true.
Proof.
  unfold Script.cp, present.
  destruct (rsync_ok _); by rewrite lookup_insert_eq.
Qed.

Lemma cp_present (j : Job) (f : gmap string Node) (p : string) :
  present f p = true → present (cp j f) p = true.
Proof.
  intros Hp. destruct (decide (p = job_tgt j)) as [-> | Hne]; [apply cp_present_tgt |].
  unfold present. by rewrite cp_lookup_ne.
Qed.

Lemma settled_finish (i : nat) (w : World) : settled w (finish i w).
Proof.
  unfold Script.finish.
  destruct (i <? max_workers)%nat; [| apply settled_refl].
  destruct (queue w !! i) as [j|] eqn:Hj; [| apply settled_refl].
  split; [done |]. split; [| split].
  - intros T f0 [Hf Hq]. pose proof (Forall_lookup_1 _ _ _ _ Hq Hj) as HT.
    split; simpl.
    + intros p Hp. rewrite cp_lookup_ne; [by apply Hf |]. by intros ->.
    + by apply Forall_delete.
  - intros S Hprov p Hp. simpl.
    destruct (Hprov p Hp) as [Hpres | Hin]; [left; by apply cp_present |].
    destruct (delete_targets _ _ _ _ Hj Hin) as [-> | Hin']; [left; apply cp_present_tgt | by right].
  - intros p Hp. simpl. by apply cp_present.
Qed.

Lemma settled_set_tick (g : nat → nat) (w : World) : settled w (set_tick g w).
Proof. unfold settled. split; [done |]. split; [auto |]. split; auto. Qed.

Lemma settled_turn (w : World) : settled w (turn w).
Proof.
  unfold Script.turn. generalize (sched (tick w)).
  intros picks. eapply settled_trans; [apply (settled_set_tick S) |].
  generalize (set_tick S w). induction picks as [|i picks IH]; intros w0; [apply settled_refl |].
  simpl. eapply settled_trans; [apply settled_finish | apply IH].
Qed.



Lemma trace_finish (i : nat) (w : World) : trace (finish i w) = trace w.
Proof.
  unfold Script.finish. destruct (i <? max_workers)%nat; [| done].
  by destruct (queue w !! i).
Qed.

Lemma trace_turn (w : World) : trace (turn w) = trace w.
Proof.
  unfold Script.turn. generalize (sched (tick w)). intros picks.
  change (trace w) with (trace (set_tick S w)). generalize (set_tick S w).
  induction picks as [|i picks IH]; intros w0; [done |].
  simpl. by rewrite IH, trace_finish.
Qed.

(** Waiting for the pool finishes every job. *)
Lemma finish_next_length (w : World) :
  length (queue (finish_next w)) = pred (length (queue w)).
Proof.
  unfold Script.finish_next. set (i := hd 0%nat _).
  set (n := if (i <? _)%nat then i else 0%nat).
  assert (Hn : (n < max_workers)%nat ∧ (n < length (queue w) ∨ queue w = [])%nat).
  { unfold n. destruct (Nat.ltb_spec i (Nat.min max_workers (length (queue w)))).
    - split; [lia | left; lia].
    - split; [unfold max_workers; lia |]. destruct (queue w); [by right | left; simpl; lia]. }
  destruct Hn as [Hn1 Hn2]. unfold Script.finish.
  apply Nat.ltb_lt in Hn1. rewrite Hn1.
  change (queue (set_tick S w)) with (queue w).
  destruct Hn2 as [Hn2 | Hnil].
  - destruct (lookup_lt_is_Some_2 (queue w) n Hn2) as [x Hx]. rewrite Hx. simpl.
    rewrite length_delete by eauto. lia.
  - rewrite Hnil. simpl. by rewrite Hnil.
Qed.

Lemma settled_finish_next (w : World) : settled w (finish_next w).
Proof.
  unfold Script.finish_next.
  eapply settled_trans; [apply (settled_set_tick S) | apply settled_finish].
Qed.

Lemma trace_finish_next (w : World) : trace (finish_next w) = trace w.
Proof. unfold Script.finish_next. by rewrite trace_finish. Qed.

Lemma drain_spec (n : nat) (w : World) :
  settled w (Nat.iter n finish_next w)
  ∧ trace (Nat.iter n finish_next w) = trace w
  ∧ length (queue (Nat.iter n finish_next w)) = (length (queue w) - n)%nat.
Proof.
  induction n as [|n (IH1 & IH2 & IH3)]; simpl.
  - split; [apply settled_refl |]. split; [done | lia].
  - split; [eapply settled_trans; [exact IH1 | apply settled_finish_next] |].
    split; [by rewrite trace_finish_next |].
    rewrite finish_next_length, IH3. lia.
Qed.

End PoolFacts.

Lemma untouched_insert (T : string → Prop) (f0 : gmap string Node) (p : string) (x : Node)
    (w : World) :
  T p → untouched T f0 w → untouched T f0 (set_files <[p := x]> w).
Proof.
  intros HT [Hf Hq]. split; [| done]. intros p' Hp'. simpl.
  rewrite lookup_insert_ne; [by apply Hf | by intros ->].
Qed.

Lemma untouched_delete (T : string → Prop) (f0 : gmap string Node) (p : string) (w : World) :
  T p → untouched T f0 w → untouched T f0 (set_files (delete p) w).
Proof.
  intros HT [Hf Hq]. split; [| done]. intros p' Hp'. simpl.
  rewrite lookup_delete_ne; [by apply Hf | by intros ->].
Qed.

Lemma untouched_submit (T : string → Prop) (f0 : gmap string Node) (src tgt : string)
    (w : World) :
  T tgt → untouched T f0 w →
  untouched T f0 (set_queue (λ q, q ++ [{| job_src := src; job_tgt := tgt |}]) w).
Proof.
  intros HT [Hf Hq]. split; [done |]. simpl. apply Forall_app. split; [done |].
  by apply Forall_singleton.
Qed.

Lemma provided_more (S : string → Prop) (t : string) (w : World) :
  provided S w →
  present (files w) t = true ∨ t ∈ job_tgt <$> queue w →
  provided (λ p, S p ∨ p = t) w.
Proof. intros Hp Ht p [HS | ->]; [by apply Hp | done]. Qed.

Lemma provided_insert (S : string → Prop) (t : string) (x : Node) (w : World) :
  provided S w → provided (λ p, S p ∨ p = t) (set_files <[t := x]> w).
Proof.
  intros Hp p Hpt. simpl. unfold present.
  destruct (decide (p = t)) as [-> | Hne]; [left; by rewrite lookup_insert_eq |].
  destruct Hpt as [HS | ->]; [| done].
  rewrite lookup_insert_ne by done. by apply Hp.
Qed.

Lemma provided_submit (S : string → Prop) (src tgt : string) (w : World) :
  provided S w →
  provided (λ p, S p ∨ p = tgt) (set_queue (λ q, q ++ [{| job_src := src; job_tgt := tgt |}]) w).
Proof.
  intros Hp p [HS | ->]; simpl; rewrite fmap_app.
  - destruct (Hp p HS) as [? | ?]; [by left | right; apply elem_of_app; by left].
  - right. apply elem_of_app. right. simpl. apply list_elem_of_singleton. done.
Qed.

Lemma provided_remove_submit (S : string → Prop) (src tgt : string) (w : World) :
  provided S w →
  provided (λ p, S p ∨ p = tgt)
    (set_queue (λ q, q ++ [{| job_src := src; job_tgt := tgt |}]) (set_files (delete tgt) w)).
Proof.
  intros Hp p Hpt. simpl. rewrite fmap_app.
  destruct (decide (p = tgt)) as [-> | Hne].
  - right. apply elem_of_app. right. simpl. apply list_elem_of_singleton. done.
  - destruct Hpt as [HS | ->]; [| done].
    destruct (Hp p HS) as [Hpres | ?]; [left | right; apply elem_of_app; by left].
    unfold present in *. by rewrite lookup_delete_ne.
Qed.

Section PlannerFacts.

Variable dstype : string → string.
Variable du : gmap string Node → string → Q.
Variable rsync_ok : string → bool.
Variable sched : nat → list nat.

Local Abbreviation turn := (Script.turn rsync_ok sched).
Local Abbreviation pooled := (Script.pooled rsync_ok sched).
Local Abbreviation place := (Script.place du rsync_ok sched).
Local Abbreviation copy_split := (Script.copy_split dstype du rsync_ok sched).

Lemma pooled_eq {A} (op : M A) (w : World) : pooled op w = op (turn w).
Proof. done. Qed.

Ltac step H :=
  let Hs := fresh "Hs" in
  apply bind_inv in H as (? & ? & Hs & H);
  try rewrite pooled_eq in Hs;
  unfold Script.measure, path_exists, isfile, islink, emit, submit in Hs;
  try (injection Hs as <- <-).

Ltac settle :=
  lazymatch goal with
  | |- settled ?w ?w => apply settled_refl
  | |- settled ?w (Script.turn _ _ ?x) =>
      apply (settled_trans w x); [settle | apply settled_turn]
  | |- settled ?w (say ?e ?x) =>
      apply (settled_trans w x); [settle | apply settled_say]
  end.

(** What placing one file does. *)
Lemma place_spec (src_dir target_dir : string) (max_gb : Q) (hrl : bool) (cur_gb : Q)
    (e : string * Q) (w : World) (cur_gb' : Q) (w' : World) :
  place src_dir target_dir max_gb hrl cur_gb e w = Ok cur_gb' w' →
  (∃ evs, trace w' = trace w ++ evs
          ∧ placed du max_gb (PyStr.path_join src_dir e.1) (PyStr.path_join target_dir e.1)
              cur_gb evs cur_gb')
  ∧ slept w' = slept w
  ∧ (∀ T f0, T (PyStr.path_join target_dir e.1) → untouched T f0 w → untouched T f0 w')
  ∧ (∀ S, provided S w → provided (λ p, S p ∨ p = PyStr.path_join target_dir e.1) w').
Proof.
  unfold Script.place. intros H.
  set (src := PyStr.path_join src_dir e.1) in *.
  set (tgt := PyStr.path_join target_dir e.1) in *.
  step H. set (w1 := turn w) in *.
  destruct (negb (Qle_bool _ _)) eqn:Hbudget.
  - (* too large *)
    step H. set (w2 := turn w1) in *.
    destruct (present (files w2) tgt) eqn:Hthere; cbn [negb] in H.
    + (* the target exists *)
      step H.
      assert (Hrest : settled w2 w' ∧ trace w' = trace w2 ∧ cur_gb' = cur_gb
                      ∨ ∃ w3, settled w2 w3 ∧ trace w3 = trace w2 ∧ cur_gb' = cur_gb
                          ∧ w' = set_queue (λ q, q ++ [{| job_src := src; job_tgt := tgt |}])
                                   (set_submitted
                                      (λ s, s ++ [{| job_src := src; job_tgt := tgt |}])
                                      (say (Checking src tgt) w3))).
      { destruct hrl; cbn [negb] in Hs.
        - injection Hs as <- <-. injection H as <- <-. left. split; [settle | done].
        - step Hs. destruct (present (files (turn w2)) tgt).
          + step Hs. injection Hs as <- <-.
            destruct (negb (is_link _ _)).
            * step H. step H. injection H as <- <-. right.
              exists (turn (turn w2)). split; [settle |]. by rewrite !trace_turn.
            * injection H as <- <-. left. split; [settle |]. by rewrite !trace_turn.
          + injection Hs as <- <-. injection H as <- <-. left.
            split; [settle |]. by rewrite !trace_turn. }
      assert (H02 : settled w w2) by (unfold w2, w1; settle).
      assert (Ht2 : trace w2 = trace w) by (unfold w2, w1; by rewrite !trace_turn).
      destruct Hrest as [(Hset & Htr & ->) | (w3 & Hset & Htr & -> & ->)].
      * pose proof (settled_trans _ _ _ H02 Hset) as (Hsl & Hun & Hpr & Hpres).
        split; [exists []; rewrite app_nil_r; split; [congruence | constructor] |].
        split; [done |]. split; [by auto |].
        intros S HS. apply provided_more; [by apply Hpr |]. left.
        destruct Hset as (_ & _ & _ & Hx). by apply Hx.
      * pose proof (settled_trans _ _ _ H02 Hset) as (Hsl & Hun & Hpr & Hpres).
        split; [exists [Checking src tgt]; simpl; split; [congruence | constructor] |].
        split; [done |]. split.
        -- intros T f0 HT Hu. apply untouched_submit; [done |]. by apply Hun.
        -- intros S HS. apply (provided_submit S src tgt (set_submitted _ (say _ w3))). by apply Hpr.
    + (* the target is missing: link *)
      step H. step H. unfold ln in Hs.
      set (w3 := turn (say (Linking src tgt) w2)) in *.
      destruct (files w3 !! tgt); [done |]. injection Hs as <- <-. injection H as <- <-.
      assert (H03 : settled w w3) by (unfold w3, w2, w1; settle).
      destruct H03 as (Hsl & Hun & Hpr & Hpres).
      split; [exists [Linking src tgt]; split; [| constructor] |].
      { simpl. unfold w3, w2, w1. by rewrite !trace_turn; simpl; rewrite !trace_turn. }
      split; [done |]. split.
      * intros T f0 HT Hu. apply untouched_insert; [done |]. by apply Hun.
      * intros S HS. apply provided_insert. by apply Hpr.
  - (* within the budget *)
    apply negb_false_iff in Hbudget.
    step H. set (w2 := turn w1) in *.
    assert (H02 : settled w w2) by (unfold w2, w1; settle).
    assert (Ht2 : trace w2 = trace w) by (unfold w2, w1; by rewrite !trace_turn).
    step H.
    destruct (is_link (files w2) tgt && negb hrl).
    + (* a stale link: remove it and copy *)
      step Hs. unfold os_remove in Hs0.
      destruct (files (turn w2) !! tgt); [| done]. injection Hs0 as <- <-.
      injection Hs as <- <-. step H. step H. injection H as <- <-.
      assert (H03 : settled w (turn w2)) by (unfold w2, w1; settle).
      destruct H03 as (Hsl & Hun & Hpr & Hpres).
      split; [eexists; split; [| by apply (placed_copy du max_gb src tgt cur_gb (files w1))] |].
      { simpl. by rewrite trace_turn, Ht2. }
      split; [done |]. split.
      * intros T f0 HT Hu. apply untouched_submit; [done |].
        apply (untouched_delete T f0 tgt (turn w2)); [done |]. by apply Hun.
      * intros S HS. apply (provided_remove_submit S src tgt (turn w2)). by apply Hpr.
    + assert (Hrest : ∃ w3, settled w2 w3 ∧ trace w3 = trace w2
                        ∧ (w' = w3 ∧ cur_gb' = cur_gb ∧ present (files w3) tgt = true
                           ∨ w' = set_queue (λ q, q ++ [{| job_src := src; job_tgt := tgt |}])
                                    (set_submitted
                                       (λ s, s ++ [{| job_src := src; job_tgt := tgt |}])
                                       (say (Copying src tgt (du (files w1) src)) w3))
                             ∧ cur_gb' = (cur_gb + du (files w1) src)%Q)).
      { destruct hrl.
        - rewrite pooled_eq in Hs. injection Hs as <- <-.
          exists (turn w2). split; [settle |]. split; [by rewrite trace_turn |].
          destruct (present (files (turn w2)) tgt) eqn:Hp.
          + injection H as <- <-. by left.
          + step H. step H. injection H as <- <-. by right.
        - injection Hs as <- <-. exists w2. split; [settle |]. split; [done |].
          step H. step H. injection H as <- <-. by right. }
      destruct Hrest as (w3 & Hset & Htr & [(-> & -> & Hp) | (-> & ->)]);
        pose proof (settled_trans _ _ _ H02 Hset) as (Hsl & Hun & Hpr & Hpres).
      * split; [exists []; rewrite app_nil_r; split; [congruence | constructor] |].
        split; [done |]. split; [by auto |].
        intros S HS. apply provided_more; [by apply Hpr | by left].
      * split; [eexists; split; [| by apply (placed_copy du max_gb src tgt cur_gb (files w1))] |].
        { simpl. congruence. }
        split; [done |]. split.
        -- intros T f0 HT Hu. apply untouched_submit; [done |]. by apply Hun.
        -- intros S HS. apply (provided_submit S src tgt (set_submitted _ (say _ w3))). by apply Hpr.
Qed.


(** ... and what placing a list of files does. *)
Lemma place_all_spec (src_dir target_dir : string) (max_gb : Q) (hrl : bool)
    (es : list (string * Q)) :
  ∀ (cur_gb : Q) (w : World) (cur_gb' : Q) (w' : World),
    for_each es (place src_dir target_dir max_gb hrl) cur_gb w = Ok cur_gb' w' →
    (∃ evs, trace w' = trace w ++ evs
            ∧ placed_all du max_gb src_dir target_dir es cur_gb evs cur_gb')
    ∧ slept w' = slept w
    ∧ (∀ T f0, Forall (λ e, T (target_of target_dir e)) es →
               untouched T f0 w → untouched T f0 w')
    ∧ (∀ S, provided S w → provided (λ p, S p ∨ p ∈ target_of target_dir <$> es) w').
Proof.
  induction es as [|e es IH]; intros cur_gb w cur_gb' w' H.
  - injection H as <- <-. split; [exists []; rewrite app_nil_r; split; [done | constructor] |].
    split; [done |]. split; [done |].
    intros S HS p [Hp | Hp]; [by apply HS | by apply elem_of_nil in Hp].
  - simpl in H. apply bind_inv in H as (cur1 & w1 & H1 & H).
    apply place_spec in H1 as ((evs1 & Ht1 & Hpl1) & Hs1 & Hu1 & Hp1).
    apply IH in H as ((evs2 & Ht2 & Hpl2) & Hs2 & Hu2 & Hp2).
    split; [exists (evs1 ++ evs2); split; [| by econstructor] |].
    { by rewrite Ht2, Ht1, <- app_assoc. }
    split; [congruence |]. split.
    + intros T f0 [HT HTs]%Forall_cons Hu. apply Hu2; [done |]. by apply Hu1.
    + intros S HS p Hp. apply (Hp2 _ (Hp1 S HS)).
      destruct Hp as [Hp | [-> | Hp]%elem_of_cons]; [by left; left | by left; right | by right].
Qed.






Lemma group_by_dstype_lookup (src_dir : string) (entries : list (string * Q)) (k : string) :
  Script.group_by_dstype dstype src_dir entries !!! k
  = filter (λ e, dstype (PyStr.path_join src_dir e.1) = k) entries.
Proof.
  unfold Script.group_by_dstype.
  enough (Hgen : ∀ acc : gmap string (list (string * Q)),
    foldl (λ datasets entry,
             let k := dstype (PyStr.path_join src_dir entry.1) in
             <[k := (datasets !!! k) ++ [entry]]> datasets) acc entries !!! k
    = acc !!! k ++ filter (λ e, dstype (PyStr.path_join src_dir e.1) = k) entries).
  { rewrite Hgen. by rewrite lookup_total_empty. }
  induction entries as [|e entries IH]; intros acc; simpl.
  - by rewrite app_nil_r.
  - rewrite IH, filter_cons.
    destruct (decide (dstype (PyStr.path_join src_dir e.1) = k)) as [<- | Hne].
    + by rewrite lookup_total_insert_eq, <- app_assoc.
    + by rewrite lookup_total_insert_ne.
Qed.

Lemma sorted_lookup (m : gmap string (list (string * Q))) (k : string) :
  (sorted_desc <$> m) !!! k = sorted_desc (m !!! k).
Proof.
  rewrite !lookup_total_alt, lookup_fmap. by destruct (m !! k).
Qed.

(** The loops of one split visit [visit_order]. *)
Lemma copy_split_eq (src_dir target_dir : string) (max_gb : Q) (hrl : bool) (cur_gb : Q)
    (entries : list (string * Q)) (w : World) :
  copy_split src_dir target_dir max_gb hrl cur_gb entries w
  = for_each (visit_order dstype src_dir entries) (place src_dir target_dir max_gb hrl) cur_gb w.
Proof.
  unfold Script.copy_split. rewrite for_each_flat_map. unfold visit_order.
  f_equal. unfold Script.priority. simpl.
  by rewrite !sorted_lookup, !group_by_dstype_lookup.
Qed.

(** The loops over the three splits visit [visited]. *)
Lemma copy_splits_eq (src_dir target_dir : string) (max_gb : Q) (hrl : bool) (cur_gb : Q)
    (cfg : Catalog) (w : World) :
  for_each [train cfg; valid cfg; test cfg] (copy_split src_dir target_dir max_gb hrl) cur_gb w
  = for_each (visited dstype src_dir cfg) (place src_dir target_dir max_gb hrl) cur_gb w.
Proof.
  unfold visited. rewrite <- for_each_flat_map.
  generalize [train cfg; valid cfg; test cfg]. intros splits. revert cur_gb w.
  induction splits as [|s splits IH]; intros cur_gb w; [done |].
  simpl. unfold mbind, M_bind. rewrite copy_split_eq.
  destruct (for_each (visit_order dstype src_dir s) _ cur_gb w) as [c w1| |]; [| done | done].
  apply IH.
Qed.

End PlannerFacts.

(** *** The visiting order *)

Lemma insert_desc_perm (e : string * Q) (l : list (string * Q)) : insert_desc e l ≡ₚ e :: l.
Proof.
  induction l as [|x l IH]; simpl; [done |].
  destruct (Qle_bool _ _); [done |]. rewrite IH. apply Permutation_swap.
Qed.

Lemma sorted_desc_perm (l : list (string * Q)) : sorted_desc l ≡ₚ l.
Proof.
  induction l as [|x l IH]; simpl; [done |]. by rewrite insert_desc_perm, IH.
Qed.

Lemma filter_union_perm {A} (g : A → string) (k : string) (ks : list string) (l : list A) :
  k ∉ ks →
  filter (λ e, g e = k) l ++ filter (λ e, g e ∈ ks) l ≡ₚ filter (λ e, g e ∈ k :: ks) l.
Proof.
  intros Hk. induction l as [|x l IH]; [done |].
  rewrite !filter_cons.
  destruct (decide (g x = k)) as [Hx | Hx].
  - rewrite decide_False by (by rewrite Hx).
    rewrite decide_True by (rewrite Hx; apply elem_of_cons; by left).
    simpl. by rewrite IH.
  - destruct (decide (g x ∈ ks)) as [Hin | Hin].
    + rewrite decide_True by (apply elem_of_cons; by right).
      rewrite <- Permutation_middle. by rewrite IH.
    + rewrite decide_False; [done |]. by intros [? | ?]%elem_of_cons.
Qed.

Lemma flat_map_filter_perm {A} (g : A → string) (ks : list string) (l : list A) :
  NoDup ks →
  flat_map (λ k, filter (λ e, g e = k) l) ks ≡ₚ filter (λ e, g e ∈ ks) l.
Proof.
  induction 1 as [|k ks Hk _ IH]; simpl.
  - induction l as [|x l IHl]; [done |]. rewrite filter_cons.
    rewrite decide_False; [done |]. apply not_elem_of_nil.
  - rewrite IH. by apply filter_union_perm.
Qed.

Lemma NoDup_priority : NoDup Script.priority.
Proof.
  unfold Script.priority.
  repeat (apply NoDup_cons_2; [rewrite ?elem_of_cons, elem_of_nil; intuition discriminate |]).
  apply NoDup_nil_2.
Qed.

Lemma visit_order_perm (dstype : string → string) (src_dir : string)
    (entries : list (string * Q)) :
  visit_order dstype src_dir entries
  ≡ₚ filter (λ e, dstype (PyStr.path_join src_dir e.1) ∈ Script.priority) entries.
Proof.
  rewrite <- (flat_map_filter_perm _ _ _ NoDup_priority). unfold visit_order.
  induction Script.priority as [|k ks IH]; simpl; [done |].
  by rewrite sorted_desc_perm, IH.
Qed.

Lemma elem_of_visit_order (dstype : string → string) (src_dir : string)
    (entries : list (string * Q)) (e : string * Q) :
  e ∈ visit_order dstype src_dir entries
  ↔ e ∈ entries ∧ dstype (PyStr.path_join src_dir e.1) ∈ Script.priority.
Proof. rewrite visit_order_perm, list_elem_of_filter. tauto. Qed.

Lemma elem_of_visited (dstype : string → string) (src_dir : string) (cfg : Catalog)
    (e : string * Q) :
  e ∈ visited dstype src_dir cfg
  ↔ e ∈ train cfg ++ valid cfg ++ test cfg
    ∧ dstype (PyStr.path_join src_dir e.1) ∈ Script.priority.
Proof.
  unfold visited. simpl. rewrite app_nil_r, !elem_of_app, !elem_of_visit_order. tauto.
Qed.






(** *** What the messages say *)

Lemma copied_app (a b : list Event) : (copied (a ++ b) == copied a + copied b)%Q.
Proof.
  induction a as [|ev a IH]; simpl; [lra |].
  destruct ev; rewrite ?IH; lra.
Qed.

Section Placed.

Variable du : gmap string Node → string → Q.
Variable max_gb : Q.
Variables src_dir target_dir : string.
Hypothesis du_nonneg : ∀ f p, (0 <= du f p)%Q.

(** The budget is consumed by the copies and by nothing else, and a copy
    is only made when it fits. *)
Lemma placed_all_budget (es : list (string * Q)) (cur_gb : Q) (evs : list Event) (cur_gb' : Q) :
  placed_all du max_gb src_dir target_dir es cur_gb evs cur_gb' →
  (cur_gb' == cur_gb + copied evs)%Q
  ∧ (0 <= copied evs)%Q
  ∧ ((copied evs == 0)%Q ∨ (cur_gb' <= max_gb)%Q).
Proof.
  induction 1 as [cur | e es cur evs1 cur1 evs2 cur2 Hp _ (IH1 & IH2 & IH3)].
  - simpl. split; [lra |]. split; [lra | left; lra].
  - assert ((cur1 == cur + copied evs1)%Q ∧ (0 <= copied evs1)%Q
            ∧ ((copied evs1 == 0)%Q ∨ (cur1 <= max_gb)%Q)) as (H1 & H2 & H3).
    { destruct Hp as [| | |f Hfit]; simpl; try (split; [lra |]; split; [lra | left; lra]).
      pose proof (du_nonneg f (PyStr.path_join src_dir e.1)).
      apply Qle_bool_iff in Hfit.
      split; [lra |]. split; [lra | right; lra]. }
    rewrite copied_app. split; [lra |]. split; [lra |].
    destruct IH3 as [IH3 | IH3]; [| by right].
    destruct H3 as [H3 | H3]; [left; lra | right; lra].
Qed.

End Placed.

Section PlacedEvents.

Variable du : gmap string Node → string → Q.
Variable max_gb : Q.
Variables src_dir target_dir : string.

Lemma placed_all_app_inv (l1 l2 : list (string * Q)) :
  ∀ (cur_gb : Q) (evs : list Event) (cur_gb' : Q),
    placed_all du max_gb src_dir target_dir (l1 ++ l2) cur_gb evs cur_gb' →
    ∃ evs1 evs2 c,
      evs = evs1 ++ evs2
      ∧ placed_all du max_gb src_dir target_dir l1 cur_gb evs1 c
      ∧ placed_all du max_gb src_dir target_dir l2 c evs2 cur_gb'.
Proof.
  induction l1 as [|e l1 IH]; intros cur evs cur' H; simpl in H.
  - exists [], evs, cur. split; [done |]. split; [constructor | done].
  - inversion H as [| e' es' c0 evsa ca evsb cb Hp Hrest]; subst.
    destruct (IH _ _ _ Hrest) as (evs1 & evs2 & c & -> & H1 & H2).
    exists (evsa ++ evs1), evs2, c. split; [by rewrite app_assoc |].
    split; [by econstructor | done].
Qed.

(** Every message is about a file of the list. *)
Lemma placed_all_events (es : list (string * Q)) (cur_gb : Q) (evs : list Event) (cur_gb' : Q) :
  placed_all du max_gb src_dir target_dir es cur_gb evs cur_gb' →
  Forall (λ ev, ∃ e, e ∈ es ∧ event_src ev = Some (PyStr.path_join src_dir e.1)) evs.
Proof.
  induction 1 as [cur | e es cur evs1 cur1 evs2 cur2 Hp _ IH]; [constructor |].
  apply Forall_app. split.
  - destruct Hp; repeat constructor; exists e; (split; [apply elem_of_cons; by left | done]).
  - eapply Forall_impl; [exact IH |]. intros ev (e' & He' & Hsrc).
    exists e'. split; [apply elem_of_cons; by right | done].
Qed.


End PlacedEvents.

(** ** Facts about a whole run *)

Lemma append_text_spec (p s : string) (w w2 : World) :
  append_text p s w = Ok tt w2 →
  present (files w2) p = true
  ∧ (∀ q, q ≠ p → files w2 !! q = files w !! q)
  ∧ trace w2 = trace w ∧ slept w2 = slept w
  ∧ match files w !! p with
    | None => files w2 !! p = Some (Text s)
    | Some (Text t) => files w2 !! p = Some (Text (t +:+ s))
    | Some _ => True
    end.
Proof.
  unfold append_text, present. intros H.
  destruct (files w !! p) as [[t| |]|] eqn:Hp; injection H as <-; simpl;
    rewrite ?lookup_insert_eq, ?Hp;
    (split; [done |]; split; [| done]); intros q Hq; by rewrite ?lookup_insert_ne.
Qed.

Section RunFacts.

Variable strptime : string → option Z.
Variable dstype : string → string.
Variable du : gmap string Node → string → Q.
Variable rsync_ok : string → bool.
Variable others : list Z → gmap string Node → gmap string Node.
Variable sched : nat → list nat.

Local Abbreviation has_locks := (Script.has_locks strptime others).
Local Abbreviation place := (Script.place du rsync_ok sched).
Local Abbreviation copy_split := (Script.copy_split dstype du rsync_ok sched).
Local Abbreviation copy_datasets := (Script.copy_datasets strptime dstype du rsync_ok others sched).
Local Abbreviation finish_next := (Script.finish_next rsync_ok sched).

Lemma remove_lock_spec (target_dir lock : string) (new_lock : option string) (w w' : World) :
  Script.remove_lock target_dir lock new_lock w = Ok tt w' →
  present (files w') (PyStr.path_join target_dir ".lock") = true
  ∧ (∀ q, q ≠ PyStr.path_join target_dir ".lock" → files w' !! q = files w !! q)
  ∧ trace w' = trace w.
Proof.
  unfold Script.remove_lock. intros H.
  apply bind_inv in H as (old & w1 & H1 & H).
  unfold open_lines in H1. destruct (files w !! _) as [[t| |]|]; [| done | done | done].
  injection H1 as <- <-. unfold rewrite_text in H. injection H as <-. simpl.
  unfold present. rewrite lookup_insert_eq. split; [done |]. split; [| done].
  intros q Hq. by rewrite lookup_insert_ne.
Qed.

Lemma wait_write_files_quiet (lock_f : string) (lock : option string) (wait : bool) (fuel : nat) :
  quiet others →
  ∀ (tries : Z) (hw : bool) (w : World) (b : bool) (w1 : World),
    Script.wait_write others fuel lock_f lock wait tries hw w = Ok b w1 →
    files w1 = files w.
Proof.
  intros Hq. induction fuel as [|fuel IH]; intros tries hw w b w1 H; [done |].
  cbn [Script.wait_write] in H. apply bind_inv in H as (lines & w0 & H0 & H).
  assert (w0 = w) as ->.
  { unfold open_lines in H0. by destruct (files w !! lock_f) as [[?| |]|]; simplify_eq. }
  destruct (existsb _ _); [| by injection H as _ <-].
  destruct (negb wait); [by injection H as _ <- |].
  apply bind_inv in H as ([] & w2 & H2 & H).
  unfold Script.sleep in H2. destruct (tries <? 0); [done |]. injection H2 as <-.
  destruct (2 ^ 11 <? tries * 2).
  - injection H as _ <-. simpl. apply Hq.
  - apply IH in H. rewrite H. simpl. apply Hq.
Qed.

Lemma has_locks_Ok (timestamp directory : string) (lock : option string) (wait : bool)
    (w : World) (r : bool * bool) (w1 : World) :
  has_locks timestamp directory lock wait w = Ok r w1 →
  trace w1 = trace w
  ∧ (quiet others → files w1 = files w)
  ∧ (files w !! PyStr.path_join directory ".lock" = None
     ∨ ∃ cur, strptime timestamp = Some cur)
  ∧ (files w1 !! PyStr.path_join directory ".lock" = None
     ∨ ∃ t, files w1 !! PyStr.path_join directory ".lock" = Some (Text t)).
Proof.
  intros H.
  pose proof (has_locks_backed_off strptime others timestamp directory lock wait w) as Hb.
  rewrite H in Hb. destruct Hb as [(k & _ & _ & _ & Ht & _) _].
  split; [done |].
  unfold Script.has_locks in H. apply bind_inv in H as (is_f & w0 & H0 & H).
  unfold isfile in H0. injection H0 as <- <-. unfold present in H.
  destruct (files w !! PyStr.path_join directory ".lock") as [n|] eqn:Hf.
  - apply bind_inv in H as (hw & w2 & H2 & H).
    apply bind_inv in H as (cur & w3 & H3 & H).
    destruct (strptime timestamp) as [c|]; [| done]. injection H3 as <- <-.
    apply bind_inv in H as (lines & w4 & H4 & H). injection H as _ <-.
    unfold open_lines in H4.
    destruct (files w2 !! PyStr.path_join directory ".lock") as [[t| |]|] eqn:Hf2;
      [| done | done | done].
    injection H4 as _ <-.
    split; [intros Hq; by eapply wait_write_files_quiet |].
    split; [right; by eexists | right; by eexists].
  - injection H as _ <-. split; [done |]. split; by left.
Qed.

(** The stages of [copy_datasets]. *)
Lemma copy_datasets_inv (timestamp src_dir target_dir : string) (cfg : Catalog) (max_gb : Q)
    (lock : option string) (w w' : World) :
  copy_datasets timestamp src_dir target_dir cfg max_gb lock w = Ok tt w' →
  ∃ locks w1 w2 cur_gb' w3,
    has_locks timestamp target_dir lock true w = Ok locks w1
    ∧ append_text (PyStr.path_join target_dir ".lock")
        (String PyStr.LF EmptyString +:+ PyStr.str_of_optional lock +:+ "."
           +:+ timestamp +:+ ".write") w1 = Ok tt w2
    ∧ for_each (visited dstype src_dir cfg) (place src_dir target_dir max_gb locks.1)
        (du (files w2) target_dir) (set_queue (λ _, []) w2) = Ok cur_gb' w3
    ∧ match lock with
      | Some l =>
          Script.remove_lock target_dir l (Some (l +:+ "." +:+ timestamp +:+ ".read"))
            (Nat.iter (length (queue w3)) finish_next w3) = Ok tt w'
      | None => w' = Nat.iter (length (queue w3)) finish_next w3
      end.
Proof.
  unfold Script.copy_datasets. intros H.
  apply bind_inv in H as (locks & w1 & H1 & H).
  apply bind_inv in H as ([] & w2 & H2 & H).
  apply bind_inv in H as ([] & w2' & H3 & H). injection H3 as <-.
  apply bind_inv in H as (cur0 & w2'' & H4 & H). injection H4 as <- <-.
  apply bind_inv in H as (cur' & w3 & H5 & H). rewrite copy_splits_eq in H5.
  apply bind_inv in H as ([] & w4 & H6 & H). injection H6 as <-.
  exists locks, w1, w2, cur', w3. split; [done |]. split; [done |]. split; [done |].
  destruct lock; [done | by injection H as <-].
Qed.


(** What a run prints: the placements of the visited files, in order. *)
Lemma copy_datasets_trace (timestamp src_dir target_dir : string) (cfg : Catalog) (max_gb : Q)
    (lock : option string) (w w' : World) :
  copy_datasets timestamp src_dir target_dir cfg max_gb lock w = Ok tt w' →
  ∃ f evs cur_gb',
    trace w' = trace w ++ evs
    ∧ placed_all du max_gb src_dir target_dir (visited dstype src_dir cfg)
        (du f target_dir) evs cur_gb'.
Proof.
  intros (locks & w1 & w2 & cur' & w3 & H1 & H2 & H3 & H4)%copy_datasets_inv.
  apply has_locks_Ok in H1 as (Ht1 & _).
  apply append_text_spec in H2 as (_ & _ & Ht2 & _).
  apply place_all_spec in H3 as ((evs & Ht3 & Hpl) & _).
  destruct (drain_spec rsync_ok sched (length (queue w3)) w3) as (_ & Ht4 & _).
  exists (files w2), evs, cur'. split; [| done].
  assert (trace w' = trace w3) as ->.
  { destruct lock; [| by subst]. apply remove_lock_spec in H4 as (_ & _ & ->). done. }
  rewrite Ht3. simpl. by rewrite Ht2, Ht1.
Qed.

(** What a run leaves in the filesystem: every visited target and the
    ledger are there, every other path is as it was. *)
Lemma copy_datasets_files (timestamp src_dir target_dir : string) (cfg : Catalog) (max_gb : Q)
    (lock : option string) (w w' : World) :
  quiet others →
  copy_datasets timestamp src_dir target_dir cfg max_gb lock w = Ok tt w' →
  (∀ p, p ∈ target_of target_dir <$> visited dstype src_dir cfg
        ∨ p = PyStr.path_join target_dir ".lock" →
        present (files w') p = true)
  ∧ (∀ p, p ∉ target_of target_dir <$> visited dstype src_dir cfg →
          p ≠ PyStr.path_join target_dir ".lock" →
          files w' !! p = files w !! p).
Proof.
  intros Hq (locks & w1 & w2 & cur' & w3 & H1 & H2 & H3 & H4)%copy_datasets_inv.
  set (lock_f := PyStr.path_join target_dir ".lock") in *.
  set (V := target_of target_dir <$> visited dstype src_dir cfg) in *.
  apply has_locks_Ok in H1 as (_ & Hf1 & _). specialize (Hf1 Hq).
  apply append_text_spec in H2 as (Hl2 & Hf2 & _).
  apply place_all_spec in H3 as (_ & _ & Hun & Hpr).
  specialize (Hun (λ p, p ∈ V) (files w2)). specialize (Hpr (λ _, False)).
  destruct (drain_spec rsync_ok sched (length (queue w3)) w3) as ((_ & Hun4 & Hpr4 & _) & _ & Hlen).
  set (w4 := Nat.iter (length (queue w3)) finish_next w3) in *.
  assert (Hq4 : queue w4 = []) by (apply nil_length_inv; lia).
  assert (Hu4 : untouched (λ p, p ∈ V) (files w2) w4).
  { apply Hun4, Hun; [| by split].
    apply Forall_forall. intros e He. unfold V. apply list_elem_of_fmap. by exists e. }
  assert (Hp4 : ∀ p, p ∈ V → present (files w4) p = true).
  { intros p Hp.
    assert (Hp0 : provided (λ _ : string, False) (set_queue (λ _, []) w2)) by (by intros ? []).
    destruct (Hpr4 _ (Hpr Hp0) p) as [? | Hin]; [by right | done |].
    rewrite Hq4 in Hin. by apply elem_of_nil in Hin. }
  assert (Hl4 : present (files w4) lock_f = true).
  { destruct (decide (lock_f ∈ V)) as [Hin | Hout]; [by apply Hp4 |].
    unfold present. destruct Hu4 as [Hu4 _]. by rewrite (Hu4 _ Hout). }
  assert (Ho4 : ∀ p, p ∉ V → p ≠ lock_f → files w4 !! p = files w !! p).
  { intros p Hp Hne. destruct Hu4 as [Hu4 _]. rewrite (Hu4 _ Hp), Hf2 by done.
    by rewrite Hf1. }
  destruct lock as [l|]; [| by subst; split; [intros p [? | ->] |]; auto].
  apply remove_lock_spec in H4 as (Hl' & Hf' & _). fold lock_f in Hl', Hf'. split.
  - intros p [Hp | ->]; [| done].
    destruct (decide (p = lock_f)) as [-> | Hne]; [done |].
    unfold present. rewrite Hf' by done. by apply Hp4.
  - intros p Hp Hne. rewrite Hf' by done. by apply Ho4.
Qed.

(** *** Every call ends *)

Lemma ends_ret {A} (a : A) : ends (mret a : M A).
Proof. by intros w. Qed.

Lemma ends_bind {A B} (m : M A) (k : A → M B) : ends m → (∀ a, ends (k a)) → ends (m ≫= k).
Proof.
  intros Hm Hk w. unfold mbind, M_bind. specialize (Hm w).
  destruct (m w) as [a w1| |]; [apply Hk | done | done].
Qed.

Lemma ends_for_each {A S} (xs : list A) (body : S → A → M S) (s : S) :
  (∀ s x, ends (body s x)) → ends (for_each xs body s).
Proof.
  intros Hb. revert s. induction xs as [|x xs IH]; intros s; [apply ends_ret |].
  simpl. apply ends_bind; [apply Hb | apply IH].
Qed.

Lemma ends_pooled {A} (op : M A) : ends op → ends (Script.pooled rsync_ok sched op).
Proof. intros H w. apply H. Qed.

Lemma ends_has_locks (timestamp directory : string) (lock : option string) (wait : bool) :
  ends (has_locks timestamp directory lock wait).
Proof.
  intros w H.
  pose proof (has_locks_backed_off strptime others timestamp directory lock wait w) as Hb.
  by rewrite H in Hb.
Qed.

Lemma ends_place (src_dir target_dir : string) (max_gb : Q) (hrl : bool) (cur_gb : Q)
    (e : string * Q) :
  ends (place src_dir target_dir max_gb hrl cur_gb e).
Proof.
  unfold Script.place.
  repeat first
    [ apply ends_ret
    | apply ends_bind; [| intros ?]
    | apply ends_pooled
    | match goal with
      | |- ends (if ?b then _ else _) => destruct b
      | |- ends (Script.measure _ _) => by intros ?
      | |- ends (path_exists _) => by intros ?
      | |- ends (isfile _) => by intros ?
      | |- ends (islink _) => by intros ?
      | |- ends (emit _) => by intros ?
      | |- ends (submit _ _) => by intros ?
      | |- ends (ln _ _) => intros w; unfold ln; by destruct (files w !! _)
      | |- ends (os_remove _) => intros w; unfold os_remove; by destruct (files w !! _)
      end ].
Qed.

Lemma ends_remove_lock (target_dir lock : string) (new_lock : option string) :
  ends (Script.remove_lock target_dir lock new_lock).
Proof.
  unfold Script.remove_lock. apply ends_bind; [| by intros ? ?].
  intros w. unfold open_lines. by destruct (files w !! _) as [[?| |]|].
Qed.

(** [copy_datasets] always returns or raises. *)
Lemma ends_copy_datasets (timestamp src_dir target_dir : string) (cfg : Catalog) (max_gb : Q)
    (lock : option string) :
  ends (copy_datasets timestamp src_dir target_dir cfg max_gb lock).
Proof.
  unfold Script.copy_datasets.
  apply ends_bind; [apply ends_has_locks | intros locks].
  apply ends_bind; [intros w; unfold append_text; by destruct (files w !! _) as [[?| |]|] |].
  intros _. apply ends_bind; [by intros ? | intros _].
  apply ends_bind; [by intros ? | intros cur].
  apply ends_bind; [| intros _].
  { apply ends_for_each. intros c entries. unfold Script.copy_split.
    apply ends_for_each. intros c' k. apply ends_for_each. intros c'' e. apply ends_place. }
  apply ends_bind; [by intros ? | intros _].
  destruct lock; [apply ends_remove_lock | apply ends_ret].
Qed.

(** [cleanup] always returns or raises. *)
Lemma ends_cleanup (timestamp target_dir : string) (prev_lock : option string) :
  ends (Script.cleanup strptime others timestamp target_dir prev_lock).
Proof.
  unfold Script.cleanup. apply ends_bind; [apply ends_has_locks | intros locks].
  destruct (_ || _); [by intros ? |]. apply ends_bind; [by intros ? | intros _].
  intros w. unfold rmtree. by destruct (_ || _).
Qed.

(** *** What survives a failing run *)

Lemma keeps_ret {A} (I : World → Prop) (a : A) : keeps I (mret a : M A).
Proof. by intros w Hw. Qed.

Lemma keeps_bind {A B} (I : World → Prop) (m : M A) (k : A → M B) :
  keeps I m → (∀ a, keeps I (k a)) → keeps I (m ≫= k).
Proof.
  intros Hm Hk w Hw. unfold mbind, M_bind. specialize (Hm w Hw).
  destruct (m w) as [a w1| |]; [by apply Hk | done | done].
Qed.

Lemma keeps_for_each {A S} (I : World → Prop) (xs : list A) (body : S → A → M S) (s : S) :
  Forall (λ x, ∀ s, keeps I (body s x)) xs → keeps I (for_each xs body s).
Proof.
  intros Hb. revert s. induction Hb as [|x xs Hx _ IH]; intros s; [apply keeps_ret |].
  simpl. apply keeps_bind; [apply Hx | apply IH].
Qed.

Lemma keeps_pooled {A} (T : string → Prop) (f0 : gmap string Node) (op : M A) :
  keeps (untouched T f0) op → keeps (untouched T f0) (Script.pooled rsync_ok sched op).
Proof.
  intros H w Hw. apply H.
  destruct (settled_turn rsync_ok sched w) as (_ & Hun & _). by apply Hun.
Qed.

(** Placing a file writes to its target path only. *)
Lemma keeps_place (T : string → Prop) (f0 : gmap string Node) (src_dir target_dir : string)
    (max_gb : Q) (hrl : bool) (cur_gb : Q) (e : string * Q) :
  T (target_of target_dir e) →
  keeps (untouched T f0) (place src_dir target_dir max_gb hrl cur_gb e).
Proof.
  intros HT. unfold Script.place, target_of in *.
  repeat first
    [ apply keeps_ret
    | apply keeps_bind; [| intros ?]
    | apply keeps_pooled
    | match goal with
      | |- keeps _ (if ?b then _ else _) => destruct b
      | |- keeps _ (Script.measure _ _) => intros w Hw; exact Hw
      | |- keeps _ (path_exists _) => intros w Hw; exact Hw
      | |- keeps _ (isfile _) => intros w Hw; exact Hw
      | |- keeps _ (islink _) => intros w Hw; exact Hw
      | |- keeps _ (emit _) => intros w Hw; exact Hw
      | |- keeps _ (submit _ _) => intros w Hw; by apply untouched_submit
      | |- keeps _ (ln _ _) =>
          intros w Hw; unfold ln; destruct (files w !! _); [done | by apply untouched_insert]
      | |- keeps _ (os_remove _) =>
          intros w Hw; unfold os_remove; destruct (files w !! _); [by apply untouched_delete | done]
      end ].
Qed.

(** ** The claims about the planner *)

(** C1, as amended: for every catalog and every budget [B >= 0], when
    the sizes [du] reports are never negative, the sizes of the files a
    run announces as copied add up to at most [B]. *)
Theorem copied_within_budget (timestamp src_dir target_dir : string) (cfg : Catalog)
    (max_gb : Q) (lock : option string) (w w' : World) :
  (∀ f p, (0 <= du f p)%Q) →
  (0 <= max_gb)%Q →
  copy_datasets timestamp src_dir target_dir cfg max_gb lock w = Ok tt w' →
  ∃ evs, trace w' = trace w ++ evs ∧ (copied evs <= max_gb)%Q.
Proof.
  intros Hdu Hmax (f & evs & cur' & Ht & Hpl)%copy_datasets_trace.
  exists evs. split; [done |].
  destruct (placed_all_budget du max_gb src_dir target_dir Hdu _ _ _ _ Hpl) as (H1 & H2 & H3).
  pose proof (Hdu f target_dir). destruct H3; lra.
Qed.



(** C8: in a quiet environment a second run over the same source and
    catalog leaves the set of paths of the filesystem as the first run
    left it (whatever the budgets and lock names of the two runs). *)
Theorem second_run_keeps_entries (ts1 ts2 src_dir target_dir : string) (cfg : Catalog)
    (max_gb1 max_gb2 : Q) (lock1 lock2 : option string) (w w1 w2 : World) :
  quiet others →
  copy_datasets ts1 src_dir target_dir cfg max_gb1 lock1 w = Ok tt w1 →
  copy_datasets ts2 src_dir target_dir cfg max_gb2 lock2 w1 = Ok tt w2 →
  dom (files w2) = dom (files w1).
Proof.
  intros Hq [Hin1 _]%copy_datasets_files [Hin2 Hout2]%copy_datasets_files; [| done | done].
  apply set_eq. intros p. rewrite !elem_of_dom.
  destruct (decide (p ∈ target_of target_dir <$> visited dstype src_dir cfg
                    ∨ p = PyStr.path_join target_dir ".lock")) as [Hp | Hp].
  - specialize (Hin1 p Hp). specialize (Hin2 p Hp). unfold present in *.
    destruct (files w1 !! p), (files w2 !! p); try done; split; by eauto.
  - rewrite Hout2; [done | tauto | tauto].
Qed.





End RunFacts.

(** ** The claims at concrete inputs *)

Module Checks.
Import Examples.

(** The script with the collaborators of [Examples], source directory
    [/s] and target directory [/t]. *)
Local Abbreviation has_locks timestamp :=
  (Script.has_locks Strptime.strptime no_others timestamp "/t").
Local Abbreviation cleanup timestamp :=
  (Script.cleanup Strptime.strptime no_others timestamp "/t").
Local Abbreviation copy_datasets timestamp :=
  (Script.copy_datasets Strptime.strptime category sizes rsync_fine no_others idle
     timestamp "/s" "/t").

Lemma quiet_no_others : quiet no_others.
Proof. by intros h f. Qed.

Lemma sizes_nonneg (f : gmap string Node) (p : string) : (0 <= sizes f p)%Q.
Proof. unfold sizes. by destruct (PyStr.startswith p "/s/"). Qed.

(** C1 fails for a negative budget: nothing is copied, and the empty sum
    exceeds the budget. *)
Lemma negative_budget_counterexample :
  (∀ f p, (0 <= sizes f p)%Q)
  ∧ ∃ w', copy_datasets now two_files (-1)%Q None (world ∅) = Ok tt w'
          ∧ ¬ (copied (trace w') <= -1)%Q.
Proof.
  split; [apply sizes_nonneg |].
  exists (world_after (copy_datasets now two_files (-1)%Q None (world ∅))).
  split; [by vm_compute |]. by vm_compute.
Qed.

Lemma copied_within_budget_witness :
  ∃ evs, trace (world_after (copy_datasets now two_files 5%Q (Some "me") (world ∅)))
         = trace (world ∅) ++ evs
         ∧ (copied evs <= 5)%Q.
Proof.
  apply (copied_within_budget Strptime.strptime category sizes rsync_fine no_others idle
           now "/s" "/t" two_files 5%Q (Some "me") (world ∅)).
  - apply sizes_nonneg.
  - by vm_compute.
  - by vm_compute.
Defined.

(** C2, a defect of the code: the ledger holds the Write record another
    run has written seven minutes before. Called as [copy_datasets]
    calls it when [--lock] is not given, [has_locks] reports no write
    lock and returns at once, although its second scan counts the same
    line as foreign activity; a caller with a lock name of its own is
    told of the write lock, after the whole back-off. *)
Lemma anonymous_caller_misses_write_lock :
  existsb write_line (PyStr.readlines (ledger_text ["you.202611030830.write"])) = true
  ∧ has_locks now None true (ledger_world ["you.202611030830.write"])
    = Ok (true, false) (ledger_world ["you.202611030830.write"])
  ∧ ∃ w', has_locks now (Some "me") true (ledger_world ["you.202611030830.write"])
          = Ok (true, true) w'
          ∧ slept w' = pow2s 0 12.
Proof.
  split; [by vm_compute |]. split; [by vm_compute |].
  exists (world_after (has_locks now (Some "me") true (ledger_world ["you.202611030830.write"]))).
  split; by vm_compute.
Qed.

(** C3 fails: every record of the ledger is months old, and [cleanup]
    still refuses, because of the foreign write lock. *)
Lemma stale_write_lock_counterexample :
  Forall (stale Strptime.strptime 1065488197)
    (PyStr.readlines (ledger_text ["you.202601010000.write"]))
  ∧ Strptime.strptime now = Some 1065488197
  ∧ ∃ w', cleanup now (Some "me") (ledger_world ["you.202601010000.write"]) = Ok tt w'
          ∧ files w' = files (ledger_world ["you.202601010000.write"])
          ∧ trace w' = [CouldNotCleanup].
Proof.
  split; [| split; [by vm_compute |]].
  - change (PyStr.readlines _) with [String PyStr.LF EmptyString; "you.202601010000.write"].
    repeat constructor; intros field ts Hfield Hts; vm_compute in Hfield;
      [done |]. injection Hfield as <-. vm_compute in Hts. injection Hts as <-. done.
  - exists (world_after (cleanup now (Some "me") (ledger_world ["you.202601010000.write"]))).
    split; [by vm_compute |]. split; by vm_compute.
Qed.

(** The part of C3 left open: the Read record of an owner with a dot in
    its name is fresh and foreign, and [cleanup] deletes the directory. *)
Lemma dotted_owner_example :
  ∃ w', cleanup now (Some "me") (ledger_world ["job.7.202611030800.read"]) = Ok tt w'
        ∧ files w' = ∅ ∧ trace w' = [Cleaning "/t"].
Proof.
  exists (world_after (cleanup now (Some "me") (ledger_world ["job.7.202611030800.read"]))).
  split; [by vm_compute |]. split; by vm_compute.
Qed.

Lemma cleanup_gate_witness :
  (∃ w', cleanup now (Some "me") (ledger_world ["you.202611030800.read"]) = Ok tt w'
         ∧ files w' = files (ledger_world ["you.202611030800.read"])
         ∧ trace w' = trace (ledger_world ["you.202611030800.read"]) ++ [CouldNotCleanup])
  ∧ (∃ w', cleanup now (Some "me") (ledger_world ["you.202601010000.read"]) = Ok tt w'
           ∧ files w' = filter (λ kv, inside "/t" kv.1 = false)
                          (files (ledger_world ["you.202601010000.read"]))
           ∧ trace w' = trace (ledger_world ["you.202601010000.read"]) ++ [Cleaning "/t"]).
Proof.
  split.
  - apply (cleanup_gate Strptime.strptime no_others now "/t"
             (ledger_text ["you.202611030800.read"]) (Some "me") 1065488197
             (ledger_world ["you.202611030800.read"]) quiet_no_others eq_refl);
      [done | by vm_compute |].
    change (PyStr.readlines _) with [String PyStr.LF EmptyString; "you.202611030800.read"].
    apply Exists_cons_tl, Exists_cons_hd.
    exists "you", "202611030800", 1065488160. by vm_compute.
  - apply (cleanup_gate Strptime.strptime no_others now "/t"
             (ledger_text ["you.202601010000.read"]) (Some "me") 1065488197
             (ledger_world ["you.202601010000.read"]) quiet_no_others eq_refl);
      [done | by vm_compute | |];
      change (PyStr.readlines _) with [String PyStr.LF EmptyString; "you.202601010000.read"].
    + repeat constructor; intros field ts Hfield Hts; vm_compute in Hfield; [done |].
      injection Hfield as <-. vm_compute in Hts. injection Hts as <-. done.
    + repeat constructor.
Defined.





(** In that example the speech file is listed first, and the pool gets
    the job of the noise file first; with the workers idle both jobs
    are still queued, in that order. *)
Lemma noise_before_speech_example :
  submitted (world_after
               (Script.copy_split category sizes rsync_fine idle "/s" "/t" 100%Q false 0%Q
                  [("speechA.bin", 5%Q); ("noiseA.bin", 2%Q)] (world ∅)))
  = [job_of "/s" "/t" ("noiseA.bin", 2%Q); job_of "/s" "/t" ("speechA.bin", 5%Q)]
  ∧ queue (world_after
             (Script.copy_split category sizes rsync_fine idle "/s" "/t" 100%Q false 0%Q
                [("speechA.bin", 5%Q); ("noiseA.bin", 2%Q)] (world ∅)))
    = [job_of "/s" "/t" ("noiseA.bin", 2%Q); job_of "/s" "/t" ("speechA.bin", 5%Q)].
Proof. split; by vm_compute. Qed.



(** C7 fails as to the bound: a write lock that stays is waited for
    during 4095 seconds, nearly twice [2^11]. *)
Lemma lock_wait_counterexample :
  ∃ w', has_locks now (Some "me") true (ledger_world ["you.202611030830.write"])
        = Ok (true, true) w'
        ∧ total (slept w') = 4095
        ∧ ¬ total (slept w') ≤ 2 ^ 11.
Proof.
  exists (world_after (has_locks now (Some "me") true (ledger_world ["you.202611030830.write"]))).
  split; [by vm_compute |]. split; by vm_compute.
Qed.

Lemma lock_wait_is_bounded_witness :
  match has_locks now (Some "me") true (ledger_world ["you.202611030830.write"]) with
  | Ok r w' =>
      r.2 = true
      ∧ ∃ k, (1 ≤ k ≤ 12)%nat
             ∧ slept w' = slept (ledger_world ["you.202611030830.write"]) ++ pow2s 0 k
             ∧ total (pow2s 0 k) ≤ 2 ^ 12 - 1
  | Raise _ w' =>
      ∃ k, (1 ≤ k ≤ 12)%nat
           ∧ slept w' = slept (ledger_world ["you.202611030830.write"]) ++ pow2s 0 k
           ∧ total (pow2s 0 k) ≤ 2 ^ 12 - 1
  | OutOfFuel => False
  end.
Proof.
  apply (lock_wait_is_bounded Strptime.strptime no_others now "/t"
           (ledger_text ["you.202611030830.write"]) (Some "me")
           (ledger_world ["you.202611030830.write"])).
  - by vm_compute.
  - by vm_compute.
Defined.

Lemma second_run_keeps_entries_witness :
  dom (files (world_after
                (copy_datasets "202611031200" two_files 5%Q (Some "me")
                   (world_after (copy_datasets now two_files 5%Q (Some "me") (world ∅))))))
  = dom (files (world_after (copy_datasets now two_files 5%Q (Some "me") (world ∅)))).
Proof.
  apply (second_run_keeps_entries Strptime.strptime category sizes rsync_fine no_others idle
           now "202611031200" "/s" "/t" two_files 5%Q 5%Q (Some "me") (Some "me") (world ∅)).
  - apply quiet_no_others.
  - by vm_compute.
  - by vm_compute.
Defined.


(** C10 fails for a name that starts with white space: the line is
    stripped before it is compared, so the record of [" ab"] is foreign
    to the caller [" a"]. *)
Lemma leading_space_counterexample :
  String.prefix " a" " ab" = true
  ∧ has_locks now (Some " a") false (ledger_world [record " ab" "202611030830" "write"])
    = Ok (true, true) (ledger_world [record " ab" "202611030830" "write"]).
Proof. split; by vm_compute. Qed.

Lemma prefix_owner_counts_as_own_witness :
  ∃ answer w' wy',
    has_locks now (Some "job1") false (ledger_world ["you.202611030830.read"])
    = Ok answer w'
    ∧ has_locks now (Some "job1") false
        (ledger_world [record "job10" "202611030831" "write"; "you.202611030830.read"])
      = Ok answer wy'.
Proof.
  apply (prefix_owner_counts_as_own Strptime.strptime no_others now "/t" "job1"
           (record "job10" "202611030831" "write" +:+ String PyStr.LF EmptyString)
           false 1065488197
           [String PyStr.LF EmptyString] ["you.202611030830.read"]
           (ledger_text ["you.202611030830.read"])
           (ledger_text [record "job10" "202611030831" "write"; "you.202611030830.read"])).
  - apply quiet_no_others.
  - by vm_compute.
  - exists "job10", "202611030831", "write".
    split; [done |]. split; [done |]. split; [by right | by right].
  - by vm_compute.
  - by vm_compute.
  - by vm_compute.
  - by vm_compute.
Defined.

(** A ledger of the records of [job10] alone tells [job1] nothing. *)
Lemma own_ledger_example :
  has_locks now (Some "job1") true
    (ledger_world [record "job10" "202611030830" "write"; record "job10" "202611030831" "read"])
  = Ok (false, false)
      (ledger_world [record "job10" "202611030830" "write"; record "job10" "202611030831" "read"]).
Proof. by vm_compute. Qed.

(** The wait re-reads the ledger at every round: a lock released during
    the first sleep ends it after that sleep (and is still reported). *)
Lemma lock_released_example :
  ∃ w', Script.has_locks Strptime.strptime release_at_once now "/t" (Some "me") true
          (ledger_world ["you.202611030830.write"])
        = Ok (false, true) w'
        ∧ slept w' = [1].
Proof.
  exists (world_after
            (Script.has_locks Strptime.strptime release_at_once now "/t" (Some "me") true
               (ledger_world ["you.202611030830.write"]))).
  split; by vm_compute.
Qed.

(** In a quiet environment the loop sees the lock at every one of its
    twelve scans, and then gives up. *)
Lemma lock_wait_gives_up_example :
  ∃ hr w', has_locks now (Some "me") true (ledger_world ["you.202611030830.write"])
           = Ok (hr, true) w'
           ∧ slept w' = slept (ledger_world ["you.202611030830.write"]) ++ pow2s 0 12
           ∧ total (pow2s 0 12) = 2 ^ 12 - 1.
Proof.
  apply (lock_wait_gives_up Strptime.strptime no_others now "/t"
           (ledger_text ["you.202611030830.write"]) (Some "me") 1065488197).
  - apply quiet_no_others.
  - by vm_compute.
  - by vm_compute.
  - by vm_compute.
Qed.

End Checks.

(** * Further properties of the script *)

(** ** More about lines *)

Module LineFacts.
Import PyStr PyStrFacts.

Lemma free_lstrip (c : ascii) (s : string) : free c s = true → free c (lstrip s) = true.
Proof.
  induction s as [|x s IH]; simpl; [done |].
  intros [Hx Hs]%andb_true_iff. destruct (is_space x); [by apply IH |].
  simpl. by rewrite Hx, Hs.
Qed.

Lemma free_rstrip (c : ascii) (s : string) : free c s = true → free c (rstrip s) = true.
Proof.
  induction s as [|x s IH]; simpl; [done |].
  intros [Hx Hs]%andb_true_iff. specialize (IH Hs).
  destruct (rstrip s) as [|y r].
  - destruct (is_space x); simpl; [done | by rewrite Hx].
  - cbn [free] in *. by rewrite Hx, IH.
Qed.

Lemma free_strip (c : ascii) (s : string) : free c s = true → free c (strip s) = true.
Proof. intros H. by apply free_rstrip, free_lstrip. Qed.

Lemma no_leading_space_lstrip (s : string) : no_leading_space (lstrip s) = true.
Proof.
  induction s as [|x s IH]; simpl; [done |].
  destruct (is_space x) eqn:Hx; [done |]. simpl. by rewrite Hx.
Qed.

Lemma no_leading_space_rstrip (s : string) :
  no_leading_space s = true → no_leading_space (rstrip s) = true.
Proof.
  destruct s as [|x s]; simpl; [done |]. intros Hx.
  destruct (rstrip s); [| done].
  apply negb_true_iff in Hx. rewrite Hx. simpl. by rewrite Hx.
Qed.

Lemma lstrip_no_leading_space (s : string) : no_leading_space s = true → lstrip s = s.
Proof.
  destruct s as [|x s]; simpl; [done |]. intros Hx. apply negb_true_iff in Hx. by rewrite Hx.
Qed.

Lemma rstrip_idem (s : string) : rstrip (rstrip s) = rstrip s.
Proof.
  induction s as [|x s IH]; [done |]. cbn [rstrip].
  destruct (rstrip s) as [|y r] eqn:Hr.
  - destruct (is_space x) eqn:Hx; [done |]. simpl. by rewrite Hx.
  - cbn [rstrip]. cbn [rstrip] in IH. by rewrite IH.
Qed.

(** Stripping twice is stripping once. *)
Lemma strip_idem (s : string) : strip (strip s) = strip s.
Proof.
  unfold strip.
  rewrite (lstrip_no_leading_space (rstrip (lstrip s)))
    by apply no_leading_space_rstrip, no_leading_space_lstrip.
  apply rstrip_idem.
Qed.

Lemma split_fields_free (sep : ascii) (s : string) :
  Forall (λ f, free sep f = true) (split sep s).
Proof.
  induction s as [|x s IH]; simpl; [by repeat constructor |].
  destruct (Ascii.eqb x sep) eqn:Hx; [by constructor |].
  destruct (split sep s) as [|f fs]; [repeat constructor; simpl; by rewrite Hx |].
  apply Forall_cons in IH as [Hf Hfs]. constructor; [| done]. simpl. by rewrite Hx, Hf.
Qed.

Lemma split_fields_keep_free (c sep : ascii) (s : string) :
  free c s = true → Forall (λ f, free c f = true) (split sep s).
Proof.
  induction s as [|x s IH]; simpl; [by repeat constructor |].
  intros [Hx Hs]%andb_true_iff. specialize (IH Hs).
  destruct (Ascii.eqb x sep); [by constructor |].
  destruct (split sep s) as [|f fs]; [repeat constructor; simpl; by rewrite Hx |].
  apply Forall_cons in IH as [Hf Hfs]. constructor; [| done]. simpl. by rewrite Hx, Hf.
Qed.

Lemma universal_newlines_no_CR (b : bool) (s : string) :
  free CR (universal_newlines b s) = true.
Proof.
  revert b. induction s as [|x s IH]; intros b; simpl; [done |].
  destruct (Ascii.eqb x LF) eqn:Hl.
  - destruct b; [apply IH |]. simpl. by rewrite IH.
  - destruct (Ascii.eqb x CR) eqn:Hc; simpl; [by rewrite IH |]. by rewrite Hc, IH.
Qed.

Lemma universal_newlines_id (s : string) :
  free CR s = true → universal_newlines false s = s.
Proof.
  induction s as [|x s IH]; simpl; [done |].
  intros [Hx Hs]%andb_true_iff. apply negb_true_iff in Hx. rewrite Hx, (IH Hs).
  by destruct (Ascii.eqb x LF) eqn:Hl; [apply Ascii.eqb_eq in Hl as -> |].
Qed.

(** What is left of the lines of a file is what is left of the fields
    between its line feeds. *)
Lemma stripped_keepends (fs : list string) :
  flat_map stripped (keepends fs) = flat_map stripped fs.
Proof.
  unfold keepends. rewrite <- (reverse_involutive fs) at 2.
  destruct (reverse fs) as [|last init]; [done |].
  rewrite reverse_cons, !flat_map_app. f_equal.
  - induction (reverse init) as [|f l IH]; [done |].
    rewrite fmap_cons. cbn [flat_map]. rewrite IH. f_equal.
    unfold stripped. by rewrite strip_terminator.
  - destruct (String.eqb_spec last EmptyString) as [-> | _]; [done | done].
Qed.

Lemma readlines_stripped (t : string) :
  flat_map stripped (readlines t) = flat_map stripped (split LF (universal_newlines false t)).
Proof. apply stripped_keepends. Qed.

Lemma universal_newlines_append (a r : string) :
  free LF r = true → free CR r = true →
  (∃ x, String LF (universal_newlines true (a +:+ String LF r)) = x +:+ String LF r
        ∧ (String LF (universal_newlines true a) = x
           ∨ String LF (universal_newlines true a) = x +:+ String LF EmptyString))
  ∧ (∃ x, universal_newlines false (a +:+ String LF r) = x +:+ String LF r
          ∧ (universal_newlines false a = x
             ∨ universal_newlines false a = x +:+ String LF EmptyString)).
Proof.
  intros Hl Hc. induction a as [|c a [(x1 & E1 & D1) (x2 & E2 & D2)]].
  - simpl. rewrite (universal_newlines_free _ _ Hl Hc).
    split; exists EmptyString; (split; [done |]); [by right | by left].
  - simpl. destruct (Ascii.eqb c LF).
    + split; exists (String LF x2); simpl; rewrite E2; (split; [done |]);
        (destruct D2 as [D | D]; [left | right]; by rewrite D).
    + destruct (Ascii.eqb c CR).
      * split; [exists (String LF x1) | exists x1]; simpl; rewrite E1; (split; [done |]);
          (destruct D1 as [D | D]; [left | right]; by rewrite D).
      * split; [exists (String LF (String c x2)) | exists (String c x2)]; simpl; rewrite E2;
          (split; [done |]); (destruct D2 as [D | D]; [left | right]; by rewrite D).
Qed.

(** Appending a line after a line feed adds that line to what is left of
    the file, and changes nothing else of it. *)
Lemma readlines_append_stripped (a r : string) :
  free LF r = true → free CR r = true →
  flat_map stripped (readlines (a +:+ String LF r))
  = flat_map stripped (readlines a) ++ stripped r.
Proof.
  intros Hl Hc. rewrite !readlines_stripped.
  destruct (universal_newlines_append a r Hl Hc) as [_ (x & -> & [-> | ->])];
    rewrite !split_app_sep, (split_free _ _ Hl), ?flat_map_app; simpl;
    by rewrite ?app_nil_r.
Qed.

Lemma unlines_cons (l : string) (ls : list string) :
  unlines (l :: ls) = l +:+ String LF (unlines ls).
Proof. unfold unlines. rewrite fmap_cons. cbn [foldr]. by rewrite app_assoc. Qed.

Lemma split_unlines (ls : list string) :
  Forall (λ l, one_line l = true) ls → split LF (unlines ls) = ls ++ [EmptyString].
Proof.
  induction 1 as [|l ls [Hl _]%andb_true_iff _ IH]; [done |].
  by rewrite unlines_cons, split_app_sep, (split_free _ _ Hl), IH.
Qed.

Lemma free_CR_unlines (ls : list string) :
  Forall (λ l, one_line l = true) ls → free CR (unlines ls) = true.
Proof.
  induction 1 as [|l ls [_ Hl]%andb_true_iff _ IH]; [done |].
  rewrite unlines_cons, free_app, Hl. simpl. exact IH.
Qed.

(** Lines written with [writelines] are read back as they were written. *)
Lemma readlines_unlines (ls : list string) :
  Forall (λ l, one_line l = true) ls →
  readlines (unlines ls) = (λ l, l +:+ String LF EmptyString) <$> ls.
Proof.
  intros Hls. unfold readlines.
  rewrite (universal_newlines_id _ (free_CR_unlines ls Hls)), (split_unlines ls Hls).
  unfold keepends. by rewrite reverse_snoc, reverse_involutive, app_nil_r.
Qed.

(** A line that was read and stripped holds no line break. *)
Lemma stripped_one_line (t : string) :
  Forall (λ l, one_line l = true) (flat_map stripped (readlines t)).
Proof.
  rewrite readlines_stripped.
  pose proof (split_fields_free LF (universal_newlines false t)) as H1.
  pose proof (split_fields_keep_free CR LF _ (universal_newlines_no_CR false t)) as H2.
  induction H1 as [|f fs Hf _ IH]; [done |].
  apply Forall_cons in H2 as [Hc H2]. simpl. apply Forall_app. split; [| by apply IH].
  unfold stripped. destruct (String.eqb _ _); [done |].
  apply Forall_singleton. unfold one_line. by rewrite !free_strip.
Qed.

Lemma stripped_idem (l : string) : flat_map stripped (stripped l) = stripped l.
Proof.
  unfold stripped. destruct (String.eqb (strip l) EmptyString) eqn:He; [done |].
  simpl. rewrite app_nil_r. unfold stripped. by rewrite strip_idem, He.
Qed.

End LineFacts.

(** ** Rewriting the ledger *)

Section RewriteFacts.
Import PyStr PyStrFacts LineFacts.

Lemma prefix_trans (a b c : string) :
  String.prefix a b = true → String.prefix b c = true → String.prefix a c = true.
Proof.
  revert b c. induction a as [|x a IH]; intros [|y b] [|z c]; simpl; try done.
  destruct (ascii_dec x y) as [-> |]; [| done]. destruct (ascii_dec y z) as [-> |]; [| done].
  apply IH.
Qed.

Lemma prefix_refl (a : string) : String.prefix a a = true.
Proof. induction a as [|x a IH]; simpl; [done |]. by destruct (ascii_dec x x). Qed.

Lemma kept_line_stripped (lock : string) (new_lock : option string) (line : string) :
  Script.kept_line lock new_lock line
  = (λ l, l +:+ String LF EmptyString)
      <$> filter (λ l, survives lock new_lock l = true) (stripped line).
Proof.
  unfold Script.kept_line, stripped.
  destruct (String.eqb (strip line) EmptyString); [done |]. cbn [orb].
  rewrite filter_cons, filter_nil. unfold survives.
  destruct (startswith (strip line) lock); [by case_decide |]. cbn [negb andb].
  destruct (match new_lock with Some n => startswith (strip line) n | None => false end);
    by case_decide.
Qed.

Lemma kept_lines_stripped (lock : string) (new_lock : option string) (lines : list string) :
  flat_map (Script.kept_line lock new_lock) lines
  = (λ l, l +:+ String LF EmptyString)
      <$> filter (λ l, survives lock new_lock l = true) (flat_map stripped lines).
Proof.
  induction lines as [|line lines IH]; [done |].
  cbn [flat_map]. by rewrite filter_app, fmap_app, IH, kept_line_stripped.
Qed.

(** The text [remove_lock] leaves in the ledger. *)
Lemma remove_lock_text (target_dir lock : string) (new_lock : option string) (t : string)
    (w : World) :
  files w !! path_join target_dir ".lock" = Some (Text t) →
  Script.remove_lock target_dir lock new_lock w
  = Ok tt (set_files <[path_join target_dir ".lock"
                       := Text (unlines (remaining lock new_lock (readlines t)))]> w).
Proof.
  intros Ht. unfold Script.remove_lock, mbind, M_bind, open_lines. rewrite Ht.
  unfold rewrite_text, unlines, remaining. rewrite kept_lines_stripped.
  destruct new_lock; simpl; by rewrite ?fmap_app, ?app_nil_r.
Qed.

Lemma remaining_one_line (lock : string) (new_lock : option string) (t : string) :
  (∀ n, new_lock = Some n → one_line n = true) →
  Forall (λ l, one_line l = true) (remaining lock new_lock (readlines t)).
Proof.
  intros Hn. apply Forall_app. split.
  - apply Forall_forall. intros l [_ Hl]%list_elem_of_filter. revert l Hl.
    apply Forall_forall, stripped_one_line.
  - destruct new_lock as [n|]; [apply Forall_singleton; by apply Hn | by apply Forall_nil].
Qed.

Lemma stripped_terminated (ls : list string) :
  flat_map stripped ((λ l, l +:+ String LF EmptyString) <$> ls) = flat_map stripped ls.
Proof.
  induction ls as [|l ls IH]; [done |]. rewrite fmap_cons. cbn [flat_map]. rewrite IH.
  f_equal. unfold stripped. by rewrite strip_terminator.
Qed.

Lemma stripped_fixed (ls : list string) :
  Forall (λ a, stripped a = [a]) (flat_map stripped ls).
Proof.
  induction ls as [|l ls IH]; [done |]. cbn [flat_map]. apply Forall_app. split; [| done].
  unfold stripped at 2. destruct (String.eqb (strip l) EmptyString) eqn:He; [done |].
  apply Forall_singleton. unfold stripped. by rewrite strip_idem, He.
Qed.

Lemma flat_map_stripped_fixed (ls : list string) :
  Forall (λ a, stripped a = [a]) ls → flat_map stripped ls = ls.
Proof. induction 1 as [|a ls Ha _ IH]; [done |]. cbn [flat_map]. by rewrite Ha, IH. Qed.

Lemma remaining_idem (lock : string) (ls : list string) :
  remaining lock None (remaining lock None ls) = remaining lock None ls.
Proof.
  unfold remaining. simpl. rewrite !app_nil_r.
  rewrite flat_map_stripped_fixed.
  - by apply list_filter_filter_l.
  - apply Forall_forall. intros l [_ Hl]%list_elem_of_filter. revert l Hl.
    apply Forall_forall, stripped_fixed.
Qed.

End RewriteFacts.

(** ** What [remove_lock] leaves in the ledger *)

Section RemoveLock.
Import PyStr PyStrFacts LineFacts.

Lemma set_files_insert_twice (p : string) (x : Node) (w : World) :
  set_files <[p := x]> (set_files <[p := x]> w) = set_files <[p := x]> w.
Proof. unfold set_files. simpl. by rewrite insert_insert_eq. Qed.

Lemma remove_lock_Ok_text (target_dir lock : string) (new_lock : option string) (w w' : World) :
  Script.remove_lock target_dir lock new_lock w = Ok tt w' →
  ∃ t, files w !! path_join target_dir ".lock" = Some (Text t).
Proof.
  unfold Script.remove_lock. intros (old & w1 & H1 & _)%bind_inv.
  unfold open_lines in H1. destruct (files w !! _) as [[t| |]|]; [by eauto | done | done | done].
Qed.

(** X1: on a readable ledger [remove_lock] returns; read back, the ledger
    holds the lines that were neither blank nor started with [lock] or
    with the new record, stripped and in their order, followed by the new
    record if one is given; no other path has changed. *)
Theorem remove_lock_leaves_the_others (target_dir lock : string) (new_lock : option string)
    (t : string) (w : World) :
  files w !! path_join target_dir ".lock" = Some (Text t) →
  (∀ n, new_lock = Some n → one_line n = true) →
  ∃ w', Script.remove_lock target_dir lock new_lock w = Ok tt w'
        ∧ ledger_lines target_dir w'
          = Some ((λ l, l +:+ String LF EmptyString)
                    <$> (filter (λ l, survives lock new_lock l = true)
                           (flat_map stripped (readlines t))
                         ++ option_list new_lock))
        ∧ (∀ p, p ≠ path_join target_dir ".lock" → files w' !! p = files w !! p).
Proof.
  intros Ht Hn. eexists. split; [by apply remove_lock_text |]. split.
  - unfold ledger_lines. simpl. rewrite lookup_insert_eq. f_equal.
    apply readlines_unlines, remaining_one_line, Hn.
  - intros p Hp. simpl. by rewrite lookup_insert_ne.
Qed.

(** X2: [remove_lock] is idempotent: a second call with the same
    arguments, the new record being given as it will be read back,
    leaves the world as the first call left it. *)
Theorem remove_lock_twice (target_dir lock : string) (new_lock : option string)
    (w w1 : World) :
  (∀ n, new_lock = Some n → one_line n = true ∧ strip n = n) →
  Script.remove_lock target_dir lock new_lock w = Ok tt w1 →
  Script.remove_lock target_dir lock new_lock w1 = Ok tt w1.
Proof.
  intros Hn H. destruct (remove_lock_Ok_text _ _ _ _ _ H) as [t Ht].
  rewrite (remove_lock_text _ _ _ _ _ Ht) in H. injection H as <-.
  erewrite remove_lock_text by (simpl; apply lookup_insert_eq).
  set (R := remaining lock new_lock (readlines t)).
  assert (Heq : remaining lock new_lock (readlines (unlines R)) = R).
  { rewrite readlines_unlines by (apply remaining_one_line; intros n Hs; by apply Hn).
    unfold remaining at 1. rewrite stripped_terminated.
    unfold R, remaining. rewrite flat_map_app, filter_app. f_equal.
    rewrite flat_map_stripped_fixed.
    - rewrite list_filter_filter_l by done.
      assert (Hnew : filter (λ l, survives lock new_lock l = true)
                       (flat_map stripped (option_list new_lock)) = []).
      { destruct new_lock as [n|]; [| done]. destruct (Hn n eq_refl) as [_ Hs].
        simpl. rewrite app_nil_r. unfold stripped. rewrite Hs.
        destruct (String.eqb n EmptyString); [done |].
        rewrite filter_cons_False; [done |]. unfold survives, startswith.
        rewrite prefix_refl. by rewrite andb_false_r. }
      by rewrite Hnew, app_nil_r.
    - apply Forall_forall. intros l [_ Hl]%list_elem_of_filter. revert l Hl.
      apply Forall_forall, stripped_fixed. }
  rewrite Heq. f_equal. apply set_files_insert_twice.
Qed.

End RemoveLock.

(** ** The [cleanup] subcommand *)

Section CleanupCommand.
Import PyStr PyStrFacts LineFacts.

Variable strptime : string → option Z.
Variable dstype : string → string.
Variable du : gmap string Node → string → Q.
Variable rsync_ok : string → bool.
Variable others : list Z → gmap string Node → gmap string Node.
Variable sched : nat → list nat.
Variable timestamp : string.

Local Abbreviation has_locks := (Script.has_locks strptime others timestamp).
Local Abbreviation cleanup := (Script.cleanup strptime others timestamp).
Local Abbreviation main := (Script.main strptime dstype du rsync_ok others sched timestamp).

(** X3: without a ledger, the [cleanup] subcommand given a lock name
    raises [FileNotFoundError] before it has printed or removed anything,
    although [cleanup] itself finds no lock there and goes on to clean. *)
Theorem cleanup_with_lock_needs_ledger (target_dir l : string) (w : World) :
  files w !! path_join target_dir ".lock" = None →
  main (CleanupArgs target_dir (Some l)) w = Raise FileNotFoundError w
  ∧ match cleanup target_dir (Some l) w with
    | Ok _ w' | Raise _ w' => trace w' = trace w ++ [Cleaning target_dir]
    | OutOfFuel => False
    end.
Proof.
  intros Hnone. split.
  - unfold Script.main, Script.remove_lock, mbind, M_bind, open_lines. by rewrite Hnone.
  - unfold Script.cleanup, mbind, M_bind.
    rewrite (has_locks_no_ledger strptime others timestamp _ _ _ _ Hnone).
    simpl. unfold rmtree. by destruct (_ || _).
Qed.

Lemma foreign_write_strip (lock : option string) (a b : string) :
  strip a = strip b → Script.foreign_write lock a = Script.foreign_write lock b.
Proof. unfold Script.foreign_write. by intros ->. Qed.

(** Blank lines and lines of the caller count for nothing in either scan
    of [has_locks], and only what [strip] leaves of a line counts. *)
Lemma answers_filtered (l : string) (P : string → bool) (cur : Z) (lines : list string) :
  (∀ s, P s = false → startswith s l = true) →
  existsb (Script.foreign_write (Some l))
    ((λ s, s +:+ String LF EmptyString) <$> filter (λ s, P s = true) (flat_map stripped lines))
  = existsb (Script.foreign_write (Some l)) lines
  ∧ Script.recent_activity strptime (Some l) cur
      ((λ s, s +:+ String LF EmptyString) <$> filter (λ s, P s = true) (flat_map stripped lines))
    = Script.recent_activity strptime (Some l) cur lines.
Proof.
  intros HP. induction lines as [|line lines [IH1 IH2]]; [done |].
  cbn [flat_map existsb Script.recent_activity]. unfold stripped at 1 3.
  destruct (String.eqb_spec (strip line) EmptyString) as [He | Hne].
  - simpl. rewrite IH1, IH2. unfold Script.foreign_write. rewrite He.
    split; [done |]. by destruct l.
  - rewrite filter_app, fmap_app, existsb_app.
    rewrite filter_cons, filter_nil. destruct (P (strip line)) eqn:HPs.
    + rewrite decide_True by done. simpl. rewrite IH1, IH2.
      rewrite strip_terminator, strip_idem.
      rewrite (foreign_write_strip _ (strip line +:+ String LF EmptyString) line)
        by (by rewrite strip_terminator, strip_idem).
      by rewrite orb_false_r.
    + rewrite decide_False by done. simpl. rewrite IH1, IH2.
      unfold Script.foreign_write. rewrite (HP _ HPs). by rewrite andb_false_r.
Qed.

Lemma survives_own (l suffix s : string) :
  survives (l +:+ suffix) None s = false → startswith s l = true.
Proof.
  unfold survives, startswith. rewrite andb_true_r. intros H%negb_false_iff.
  eapply prefix_trans; [apply prefix_app | exact H].
Qed.

(** Removing the records of an owner whose name starts with the caller's
    does not change what [has_locks] answers the caller. *)
Lemma answers_rewritten (l suffix t : string) (cur : Z) :
  let t' := unlines (remaining (l +:+ suffix) None (readlines t)) in
  existsb (Script.foreign_write (Some l)) (readlines t')
  = existsb (Script.foreign_write (Some l)) (readlines t)
  ∧ Script.recent_activity strptime (Some l) cur (readlines t')
    = Script.recent_activity strptime (Some l) cur (readlines t).
Proof.
  intros t'. unfold t'.
  rewrite readlines_unlines by (by apply remaining_one_line).
  unfold remaining. simpl. rewrite app_nil_r.
  apply (answers_filtered l (survives (l +:+ suffix) None)). apply survives_own.
Qed.

(** X4: on a readable ledger and in a quiet environment, the [cleanup]
    subcommand given a lock name comes to the verdict of [cleanup]
    itself: both print the same one verdict, that the directory is
    cleaned or that it could not be, and the two [remove_lock] calls
    made first make no difference to the time slept or to any path but
    the ledger. (What [has_locks] prints about single lines of the
    ledger is not recorded in [trace].) *)
Theorem cleanup_with_lock_same_verdict (target_dir l t : string) (cur : Z) (w : World) :
  quiet others →
  strptime timestamp = Some cur →
  target_dir ≠ EmptyString →
  files w !! path_join target_dir ".lock" = Some (Text t) →
  ∃ verdict w1 w2,
    cleanup target_dir (Some l) w = Ok tt w1
    ∧ main (CleanupArgs target_dir (Some l)) w = Ok 0 w2
    ∧ (verdict = CouldNotCleanup ∨ verdict = Cleaning target_dir)
    ∧ trace w1 = trace w ++ [verdict] ∧ trace w2 = trace w ++ [verdict]
    ∧ slept w2 = slept w1
    ∧ ∀ p, p ≠ path_join target_dir ".lock" → files w2 !! p = files w1 !! p.
Proof.
  intros Hq Hcur Hdir Ht.
  set (lock_f := path_join target_dir ".lock") in *.
  set (t1 := unlines (remaining (l +:+ ".read") None (readlines t))).
  set (t2 := unlines (remaining (l +:+ ".write") None (readlines t1))).
  set (wa := set_files <[lock_f := Text t1]> w).
  set (wb := set_files <[lock_f := Text t2]> wa).
  assert (H1 : Script.remove_lock target_dir (l +:+ ".read") None w = Ok tt wa)
    by (by apply remove_lock_text).
  assert (H2 : Script.remove_lock target_dir (l +:+ ".write") None wa = Ok tt wb).
  { apply remove_lock_text. simpl. apply lookup_insert_eq. }
  assert (Hb : files wb !! lock_f = Some (Text t2)) by (simpl; apply lookup_insert_eq).
  destruct (answers_rewritten l ".read" t cur) as [Hw1 Hr1]. fold t1 in Hw1, Hr1.
  destruct (answers_rewritten l ".write" t1 cur) as [Hw2 Hr2]. fold t2 in Hw2, Hr2.
  destruct (has_locks_quiet strptime others timestamp target_dir t (Some l) true cur w
              Hq Ht Hcur) as (w1 & Hl1 & Hf1 & Hn1).
  destruct (has_locks_quiet strptime others timestamp target_dir t2 (Some l) true cur wb
              Hq Hb Hcur) as (w2 & Hl2 & Hf2 & Hn2).
  rewrite Hw2, Hw1 in Hl2, Hn2. rewrite Hr2, Hr1 in Hl2.
  set (naps := if existsb (Script.foreign_write (Some l)) (readlines t) && true
               then pow2s 0 12 else []) in *.
  destruct Hn1 as (Hs1 & _ & Htr1 & _). destruct Hn2 as (Hs2 & _ & Htr2 & _).
  assert (Hout : ∀ p, p ≠ lock_f → files w2 !! p = files w1 !! p).
  { intros p Hp. rewrite Hf1, Hf2. simpl. by rewrite !lookup_insert_ne. }
  assert (Hin : (_ ← Script.remove_lock target_dir (l +:+ ".read") None;
                 Script.remove_lock target_dir (l +:+ ".write") None) w = Ok tt wb)
    by (by rewrite (bind_Ok _ _ _ _ _ H1)).
  set (refused := Script.recent_activity strptime (Some l) cur (readlines t)
                  || existsb (Script.foreign_write (Some l)) (readlines t)).
  assert (Hc : ∀ w0 w0' n,
               has_locks target_dir (Some l) true w0
               = Ok (Script.recent_activity strptime (Some l) cur (readlines t),
                     existsb (Script.foreign_write (Some l)) (readlines t)) w0' →
               files w0' !! lock_f = Some n →
               cleanup target_dir (Some l) w0
               = Ok tt (if refused then say CouldNotCleanup w0'
                        else set_files (filter (λ kv, inside target_dir kv.1 = false))
                               (say (Cleaning target_dir) w0'))).
  { intros w0 w0' n H0 Hn. unfold Script.cleanup. rewrite (bind_Ok _ _ _ _ _ H0). cbn [fst snd].
    fold refused. destruct refused; [done |].
    unfold mbind, M_bind, emit. by rewrite (rmtree_ledger target_dir n). }
  assert (Hc1 := Hc w w1 (Text t) Hl1 ltac:(by rewrite Hf1)).
  assert (Hc2 := Hc wb w2 (Text t2) Hl2 ltac:(by rewrite Hf2)).
  unfold Script.main. rewrite (bind_Ok _ _ _ _ _ Hin), (bind_Ok _ _ _ _ _ Hc2).
  exists (if refused then CouldNotCleanup else Cleaning target_dir).
  eexists _, _. split; [exact Hc1 |]. split; [reflexivity |].
  destruct refused; simpl; rewrite Htr1, Htr2, Hs1, Hs2;
    (split; [by auto |]); (split; [done |]); (split; [done |]); (split; [done |]).
  - exact Hout.
  - intros p Hp. rewrite !map_lookup_filter. by rewrite Hout.
Qed.

End CleanupCommand.

(** ** More about [has_locks] *)

Section HasLocksProperties.
Import PyStr PyStrFacts LineFacts.

Variable strptime : string → option Z.
Variable others : list Z → gmap string Node → gmap string Node.
Variable timestamp : string.

Local Abbreviation has_locks := (Script.has_locks strptime others timestamp).

Lemma wait_write_at_once (fuel : nat) (lock_f : string) (lock : option string) (tries : Z)
    (hw : bool) (w : World) :
  (1 ≤ fuel)%nat →
  match Script.wait_write others fuel lock_f lock false tries hw w with
  | Ok _ w' | Raise _ w' => w' = w
  | OutOfFuel => False
  end.
Proof.
  intros Hfuel. destruct fuel as [|fuel]; [lia |].
  cbn [Script.wait_write]. unfold mbind, M_bind, open_lines.
  destruct (files w !! lock_f) as [[t| |]|]; [| done | done | done].
  by destruct (existsb _ _).
Qed.

(** X5: called without [wait_write_lock], [has_locks] only looks: however
    it ends, it has not slept and the world is as it was. *)
Theorem has_locks_only_looks (directory : string) (lock : option string) (w : World) :
  match has_locks directory lock false w with
  | Ok _ w' | Raise _ w' => w' = w
  | OutOfFuel => False
  end.
Proof.
  unfold Script.has_locks, mbind at 1, M_bind at 1, isfile.
  destruct (present (files w) _); [| done].
  pose proof (wait_write_at_once Script.wait_write_fuel (path_join directory ".lock") lock 1
                false w ltac:(unfold Script.wait_write_fuel; lia)) as Hw.
  unfold mbind at 1, M_bind at 1.
  destruct (Script.wait_write _ _ _ _ _ _ _ _) as [hw w1|e w1|]; [| done | done].
  subst w1. unfold mbind at 1, M_bind at 1.
  destruct (strptime timestamp); [| done]. simpl.
  unfold mbind, M_bind, open_lines.
  by destruct (files w !! _) as [[t| |]|].
Qed.

Lemma recent_activity_cons (lock : option string) (cur : Z) (line : string) :
  ∃ b, ∀ rest, Script.recent_activity strptime lock cur (line :: rest)
               = b || Script.recent_activity strptime lock cur rest.
Proof.
  cbn [Script.recent_activity].
  destruct (match lock with Some l => startswith (strip line) l | None => false end);
    [by exists false |].
  destruct (split _ _ !! 1%nat) as [field|]; [| by exists false].
  destruct (strptime field) as [ts|]; [| by exists false].
  destruct (_ <? _); [by exists true | by exists false].
Qed.

Lemma recent_activity_perm (lock : option string) (cur : Z) (l1 l2 : list string) :
  l1 ≡ₚ l2 →
  Script.recent_activity strptime lock cur l1 = Script.recent_activity strptime lock cur l2.
Proof.
  induction 1 as [|x l1 l2 _ IH|x y l|l1 l2 l3 _ IH1 _ IH2]; [done | | | congruence].
  - destruct (recent_activity_cons lock cur x) as [b Hb]. by rewrite !Hb, IH.
  - destruct (recent_activity_cons lock cur x) as [b Hb].
    destruct (recent_activity_cons lock cur y) as [c Hc].
    rewrite !Hb, !Hc, Hb. by destruct b, c.
Qed.

Lemma existsb_perm {A} (f : A → bool) (l1 l2 : list A) :
  l1 ≡ₚ l2 → existsb f l1 = existsb f l2.
Proof.
  induction 1 as [|x l1 l2 _ IH|x y l|l1 l2 l3 _ IH1 _ IH2]; [done | | | congruence].
  - simpl. by rewrite IH.
  - simpl. by destruct (f x), (f y).
Qed.

(** X6: what [has_locks] answers does not depend on the order of the
    lines of the ledger: in a quiet environment two ledgers holding the
    same lines get the same answer, after the same sleeps. *)
Theorem ledger_order_is_irrelevant (directory t1 t2 : string) (lock : option string)
    (wait : bool) (cur : Z) (w1 w2 : World) :
  quiet others →
  strptime timestamp = Some cur →
  files w1 !! path_join directory ".lock" = Some (Text t1) →
  files w2 !! path_join directory ".lock" = Some (Text t2) →
  readlines t1 ≡ₚ readlines t2 →
  ∃ answer naps w1' w2',
    has_locks directory lock wait w1 = Ok answer w1'
    ∧ has_locks directory lock wait w2 = Ok answer w2'
    ∧ slept w1' = slept w1 ++ naps ∧ slept w2' = slept w2 ++ naps.
Proof.
  intros Hq Hcur H1 H2 Hperm.
  destruct (has_locks_quiet strptime others timestamp directory t1 lock wait cur w1 Hq H1 Hcur)
    as (w1' & Hr1 & _ & Hn1 & _).
  destruct (has_locks_quiet strptime others timestamp directory t2 lock wait cur w2 Hq H2 Hcur)
    as (w2' & Hr2 & _ & Hn2 & _).
  rewrite <- (recent_activity_perm lock cur _ _ Hperm) in Hr2.
  rewrite <- (existsb_perm (Script.foreign_write lock) _ _ Hperm) in Hr2, Hn2.
  by eauto 10.
Qed.

Lemma recent_activity_hit (lock : option string) (cur ts : Z) (field line : string)
    (lines : list string) :
  line ∈ lines →
  match lock with Some l => startswith (strip line) l | None => false end = false →
  split "." (strip line) !! 1%nat = Some field →
  strptime field = Some ts →
  cur - ts < 24 * 60 →
  Script.recent_activity strptime lock cur lines = true.
Proof.
  intros Hin Hown Hfield Hts Hage.
  induction Hin as [line rest | line x rest _ IH].
  - cbn [Script.recent_activity]. rewrite Hown, Hfield, Hts.
    by destruct (Z.ltb_spec (cur - ts) (24 * 60)); [| lia].
  - destruct (recent_activity_cons lock cur x) as [b ->]. rewrite IH by done.
    by rewrite orb_true_r.
Qed.

(** X7: a Write record of another owner that is less than 24 hours old
    is reported twice over: [has_locks] answers that there is a write
    lock and that there is a read lock. *)
Theorem fresh_write_record_counts_twice (directory t x owner stamp line : string)
    (wait : bool) (cur ts : Z) (w : World) :
  quiet others →
  strptime timestamp = Some cur →
  files w !! path_join directory ".lock" = Some (Text t) →
  line ∈ readlines t →
  strip line = record owner stamp "write" →
  free "." owner = true → free "." stamp = true →
  startswith (record owner stamp "write") x = false →
  strptime stamp = Some ts → cur - ts < 24 * 60 →
  ∃ w', has_locks directory (Some x) wait w = Ok (true, true) w'.
Proof.
  intros Hq Hcur Ht Hin Hl Ho Hs Hx Hts Hage.
  destruct (has_locks_quiet strptime others timestamp directory t (Some x) wait cur w Hq Ht Hcur)
    as (w' & Hr & _).
  exists w'. rewrite Hr. do 2 f_equal.
  - apply (recent_activity_hit (Some x) cur ts stamp line); try done.
    + by rewrite Hl.
    + rewrite Hl. unfold record.
      change ("." +:+ stamp +:+ "." +:+ "write")
        with (String "." (stamp +:+ String "." "write")).
      by rewrite !split_app_sep, (split_free _ _ Ho), (split_free _ _ Hs).
  - apply existsb_exists. exists line. split; [by apply list_elem_of_In |].
    unfold Script.foreign_write. rewrite Hl, Hx. unfold record.
    change ("." +:+ "write") with ".write".
    rewrite <- !app_assoc. by rewrite endswith_app.
Qed.

End HasLocksProperties.

(** ** More about a whole run *)

Section RunProperties.
Import PyStr PyStrFacts LineFacts.

Variable strptime : string → option Z.
Variable dstype : string → string.
Variable du : gmap string Node → string → Q.
Variable rsync_ok : string → bool.
Variable others : list Z → gmap string Node → gmap string Node.
Variable sched : nat → list nat.

Local Abbreviation has_locks := (Script.has_locks strptime others).
Local Abbreviation place := (Script.place du rsync_ok sched).
Local Abbreviation copy_datasets := (Script.copy_datasets strptime dstype du rsync_ok others sched).
Local Abbreviation finish_next := (Script.finish_next rsync_ok sched).
Local Abbreviation cleanup := (Script.cleanup strptime others).

(** What [copy_datasets] does once it has written its lock line and
    created the pool. *)
Local Abbreviation after_lock timestamp src_dir target_dir cfg max_gb hrl lock :=
  (cur_gb ← Script.measure du target_dir;
   _ ← for_each (visited dstype src_dir cfg) (place src_dir target_dir max_gb hrl) cur_gb;
   _ ← Script.as_completed rsync_ok sched;
   match lock with
   | Some l => Script.remove_lock target_dir l (Some (l +:+ "." +:+ timestamp +:+ ".read"))
   | None => mret tt
   end).

Lemma wait_write_frame (lock_f : string) (lock : option string) (wait : bool) (fuel : nat) :
  quiet others →
  ∀ (tries : Z) (hw : bool) (w : World),
    match Script.wait_write others fuel lock_f lock wait tries hw w with
    | Ok _ w' | Raise _ w' => files w' = files w
    | OutOfFuel => True
    end.
Proof.
  intros Hq. induction fuel as [|fuel IH]; intros tries hw w; [done |].
  cbn [Script.wait_write]. unfold mbind at 1, M_bind at 1, open_lines.
  destruct (files w !! lock_f) as [[t| |]|]; [| done | done | done].
  destruct (existsb _ _); [| done]. destruct (negb wait); [done |].
  unfold mbind, M_bind, Script.sleep. destruct (tries <? 0); [done |].
  destruct (2 ^ 11 <? tries * 2); [simpl; apply Hq |].
  match goal with
  | |- match Script.wait_write _ _ _ _ _ _ _ ?w0 with _ => _ end =>
      specialize (IH (tries * 2) true w0)
  end.
  destruct (Script.wait_write _ _ _ _ _ _ _ _) as [b w1|e w1|]; [| | done];
    simpl in IH; rewrite IH; apply Hq.
Qed.

(** In a quiet environment [has_locks] leaves the filesystem, the pool
    and the messages alone, however it ends. *)
Lemma has_locks_frame (timestamp directory : string) (lock : option string) (wait : bool)
    (w : World) :
  quiet others →
  match has_locks timestamp directory lock wait w with
  | Ok _ w' | Raise _ w' => files w' = files w ∧ queue w' = queue w ∧ trace w' = trace w
  | OutOfFuel => False
  end.
Proof.
  intros Hq.
  pose proof (has_locks_backed_off strptime others timestamp directory lock wait w) as Hb.
  assert (Hf : match has_locks timestamp directory lock wait w with
               | Ok _ w' | Raise _ w' => files w' = files w
               | OutOfFuel => True
               end).
  { unfold Script.has_locks, mbind at 1, M_bind at 1, isfile.
    destruct (present _ _); [| done].
    pose proof (wait_write_frame (path_join directory ".lock") lock wait
                  Script.wait_write_fuel Hq 1 false w) as Hw.
    unfold mbind at 1, M_bind at 1.
    destruct (Script.wait_write _ _ _ _ _ _ _ _) as [hw w1|e w1|]; [| done | done].
    unfold mbind at 1, M_bind at 1. destruct (strptime timestamp); [| done].
    unfold mbind, M_bind, open_lines. simpl.
    by destruct (files w1 !! _) as [[?| |]|]. }
  destruct (has_locks timestamp directory lock wait w) as [r w'|e w'|]; [| | done].
  - by destruct Hb as [(k & _ & _ & Hqu & Htr & _) _].
  - by destruct Hb as (k & _ & _ & Hqu & Htr & _).
Qed.

Lemma append_text_Ok (p s : string) (w : World) : ∃ w2, append_text p s w = Ok tt w2.
Proof. unfold append_text. destruct (files w !! p) as [[?| |]|]; by eexists. Qed.

(** The run after its lock line is written. *)
Lemma copy_datasets_after_lock (timestamp src_dir target_dir : string) (cfg : Catalog)
    (max_gb : Q) (lock : option string) (w w1 w2 : World) (locks : bool * bool) :
  has_locks timestamp target_dir lock true w = Ok locks w1 →
  append_text (path_join target_dir ".lock")
    (String LF EmptyString +:+ str_of_optional lock +:+ "." +:+ timestamp +:+ ".write") w1
  = Ok tt w2 →
  copy_datasets timestamp src_dir target_dir cfg max_gb lock w
  = after_lock timestamp src_dir target_dir cfg max_gb locks.1 lock (set_queue (λ _, []) w2).
Proof.
  intros H1 H2. unfold Script.copy_datasets.
  rewrite (bind_Ok _ _ _ _ _ H1), (bind_Ok _ _ _ _ _ H2).
  assert (Hpool : ThreadPoolExecutor w2 = Ok tt (set_queue (λ _, []) w2)) by done.
  rewrite (bind_Ok _ _ _ _ _ Hpool).
  unfold mbind at 1 5, M_bind at 1 5, Script.measure.
  unfold mbind at 1 4, M_bind at 1 4. by rewrite copy_splits_eq.
Qed.

Lemma keeps_remove_lock (T : string → Prop) (f0 : gmap string Node)
    (target_dir lock : string) (new_lock : option string) :
  T (path_join target_dir ".lock") →
  keeps (untouched T f0) (Script.remove_lock target_dir lock new_lock).
Proof.
  intros HT w Hw. unfold Script.remove_lock, mbind, M_bind, open_lines.
  destruct (files w !! _) as [[t| |]|]; [| done | done | done].
  by apply untouched_insert.
Qed.

Lemma keeps_after_lock (T : string → Prop) (f0 : gmap string Node)
    (timestamp src_dir target_dir : string) (cfg : Catalog) (max_gb : Q) (hrl : bool)
    (lock : option string) :
  (∀ e c, e ∈ visited dstype src_dir cfg →
          keeps (untouched T f0) (place src_dir target_dir max_gb hrl c e)) →
  (is_Some lock → T (path_join target_dir ".lock")) →
  keeps (untouched T f0) (after_lock timestamp src_dir target_dir cfg max_gb hrl lock).
Proof.
  intros Hplace Hlock.
  apply keeps_bind; [intros w0 Hw0; exact Hw0 | intros cur].
  apply keeps_bind; [| intros _].
  { apply keeps_for_each, Forall_forall. intros e He c. by apply Hplace. }
  apply keeps_bind; [| intros _].
  { intros w0 Hw0. simpl.
    destruct (drain_spec rsync_ok sched (length (queue w0)) w0) as ((_ & Hun & _) & _).
    by apply Hun. }
  destruct lock as [l|]; [| apply keeps_ret].
  apply keeps_remove_lock, Hlock. by eexists.
Qed.

(** The two ways a run can go: [has_locks] raises, or the lock line is
    written and the pool created. *)
Lemma copy_datasets_cases (timestamp src_dir target_dir : string) (cfg : Catalog)
    (max_gb : Q) (lock : option string) (w : World) (P : World → Prop) :
  (∀ e w1, has_locks timestamp target_dir lock true w = Raise e w1 → P w1) →
  (∀ locks w1 w2,
     has_locks timestamp target_dir lock true w = Ok locks w1 →
     append_text (path_join target_dir ".lock")
       (String LF EmptyString +:+ str_of_optional lock +:+ "." +:+ timestamp +:+ ".write") w1
     = Ok tt w2 →
     match after_lock timestamp src_dir target_dir cfg max_gb locks.1 lock
             (set_queue (λ _, []) w2) with
     | Ok _ w' | Raise _ w' => P w'
     | OutOfFuel => True
     end) →
  match copy_datasets timestamp src_dir target_dir cfg max_gb lock w with
  | Ok _ w' | Raise _ w' => P w'
  | OutOfFuel => False
  end.
Proof.
  intros Hraise Hgo.
  pose proof (ends_copy_datasets strptime dstype du rsync_ok others sched
                timestamp src_dir target_dir cfg max_gb lock w) as Hends.
  destruct (has_locks timestamp target_dir lock true w) as [locks w1|e w1|] eqn:H1.
  - destruct (append_text_Ok (path_join target_dir ".lock")
                (String LF EmptyString +:+ str_of_optional lock +:+ "." +:+ timestamp
                   +:+ ".write") w1) as [w2 H2].
    specialize (Hgo locks w1 w2 eq_refl H2).
    rewrite (copy_datasets_after_lock _ _ _ _ _ _ _ _ _ _ H1 H2) in Hends |- *.
    match goal with
    | |- match ?o with _ => _ end => destruct o as [[] w'|e w'|]
    end; done.
  - unfold Script.copy_datasets, mbind at 1, M_bind at 1. rewrite H1. by eapply Hraise.
  - exfalso. by apply (ends_has_locks strptime others timestamp target_dir lock true w).
Qed.

(** X8: a run writes to the ledger and to the target paths of the
    catalog entries of category noise, speech or rir, and nowhere else:
    nobody else being active, every other path is afterwards what it was
    before, whether the run returns or raises. *)
Theorem run_stays_on_its_paths (timestamp src_dir target_dir : string) (cfg : Catalog)
    (max_gb : Q) (lock : option string) (w : World) :
  quiet others →
  match copy_datasets timestamp src_dir target_dir cfg max_gb lock w with
  | Ok _ w' | Raise _ w' =>
      ∀ p, (∀ e, e ∈ train cfg ++ valid cfg ++ test cfg →
                 dstype (path_join src_dir e.1) ∈ Script.priority →
                 p ≠ path_join target_dir e.1) →
           p ≠ path_join target_dir ".lock" →
           files w' !! p = files w !! p
  | OutOfFuel => False
  end.
Proof.
  intros Hq.
  set (lock_f := path_join target_dir ".lock").
  set (T := λ p, p ∈ target_of target_dir <$> visited dstype src_dir cfg ∨ p = lock_f).
  apply (copy_datasets_cases timestamp src_dir target_dir cfg max_gb lock w
           (λ w', ∀ p, (∀ e, e ∈ train cfg ++ valid cfg ++ test cfg →
                             dstype (path_join src_dir e.1) ∈ Script.priority →
                             p ≠ path_join target_dir e.1) →
                       p ≠ lock_f → files w' !! p = files w !! p)).
  - intros e w1 H1 p _ _.
    pose proof (has_locks_frame timestamp target_dir lock true w Hq) as Hl.
    rewrite H1 in Hl. destruct Hl as (-> & _). done.
  - intros locks w1 w2 H1 H2.
    pose proof (has_locks_frame timestamp target_dir lock true w Hq) as Hl.
    rewrite H1 in Hl. destruct Hl as (Hf1 & _).
    apply append_text_spec in H2 as (_ & Hf2 & _).
    assert (Hkeep : keeps (untouched T (files w2))
                      (after_lock timestamp src_dir target_dir cfg max_gb locks.1 lock)).
    { apply keeps_after_lock; [| intros _; by right].
      intros e c He. apply keeps_place. left. apply list_elem_of_fmap. by exists e. }
    specialize (Hkeep (set_queue (λ _, []) w2) ltac:(by split)).
    assert (Hout : ∀ p, (∀ e, e ∈ train cfg ++ valid cfg ++ test cfg →
                              dstype (path_join src_dir e.1) ∈ Script.priority →
                              p ≠ path_join target_dir e.1) →
                        p ≠ lock_f → ¬ T p).
    { intros p Hp Hne [(e & -> & [He Hcat]%elem_of_visited)%list_elem_of_fmap | ?]; [| done].
      by apply (Hp e). }
    match goal with
    | |- match ?o with _ => _ end => destruct o as [[] w'|e w'|]
    end; [| | done]; destruct Hkeep as [Hk _]; intros p Hp Hne;
      rewrite (Hk _ (Hout p Hp Hne)); rewrite Hf2 by done; by rewrite Hf1.
Qed.

(** X9: when a run returns, no job is left in the pool. *)
Theorem run_waits_for_its_jobs (timestamp src_dir target_dir : string) (cfg : Catalog)
    (max_gb : Q) (lock : option string) (w w' : World) :
  copy_datasets timestamp src_dir target_dir cfg max_gb lock w = Ok tt w' →
  queue w' = [].
Proof.
  intros (locks & w1 & w2 & cur' & w3 & _ & _ & _ & H4)%copy_datasets_inv.
  destruct (drain_spec rsync_ok sched (length (queue w3)) w3) as (_ & _ & Hlen).
  assert (Hq4 : queue (Nat.iter (length (queue w3)) finish_next w3) = [])
    by (apply nil_length_inv; lia).
  destruct lock as [l|]; [| by subst].
  destruct (remove_lock_Ok_text _ _ _ _ _ H4) as [t Ht].
  rewrite (remove_lock_text _ _ _ _ _ Ht) in H4. injection H4 as <-. done.
Qed.

(** X10: every message of a run is about an entry of the catalog whose
    category is noise, speech or rir: files of any other category are
    passed over. *)
Theorem other_categories_are_passed_over (timestamp src_dir target_dir : string)
    (cfg : Catalog) (max_gb : Q) (lock : option string) (w w' : World) :
  copy_datasets timestamp src_dir target_dir cfg max_gb lock w = Ok tt w' →
  ∃ evs, trace w' = trace w ++ evs
         ∧ Forall (λ ev, ∃ e, e ∈ train cfg ++ valid cfg ++ test cfg
                              ∧ dstype (path_join src_dir e.1) ∈ Script.priority
                              ∧ event_src ev = Some (path_join src_dir e.1)) evs.
Proof.
  intros (f & evs & cur' & Ht & Hpl)%copy_datasets_trace.
  exists evs. split; [done |]. apply placed_all_events in Hpl.
  eapply Forall_impl; [exact Hpl |]. intros ev (e & [He Hcat]%elem_of_visited & Hsrc).
  by exists e.
Qed.

(** X11: when a run returns, nobody else was active and [rsync] has
    copied every file it was given (so that no worker had to fall back
    on a link), every entry of the catalog whose category is noise,
    speech or rir has something at its target path, a copy or a link. *)
Theorem every_visited_file_is_placed (timestamp src_dir target_dir : string)
    (cfg : Catalog) (max_gb : Q) (lock : option string) (w w' : World) :
  quiet others →
  (∀ e, e ∈ train cfg ++ valid cfg ++ test cfg → rsync_ok (path_join src_dir e.1) = true) →
  copy_datasets timestamp src_dir target_dir cfg max_gb lock w = Ok tt w' →
  ∀ e, e ∈ train cfg ++ valid cfg ++ test cfg →
       dstype (path_join src_dir e.1) ∈ Script.priority →
       present (files w') (path_join target_dir e.1) = true.
Proof.
  intros Hq _ [Hin _]%copy_datasets_files e He Hcat; [| done].
  apply Hin. left. apply list_elem_of_fmap. exists e. split; [done |].
  by apply elem_of_visited.
Qed.

Lemma ledger_lines_text (directory : string) (w : World) (old : list string) :
  ledger_lines directory w = Some old →
  ∃ t, old = readlines t
       ∧ (files w !! path_join directory ".lock" = None ∧ t = EmptyString
          ∨ files w !! path_join directory ".lock" = Some (Text t)).
Proof.
  unfold ledger_lines. destruct (files w !! _) as [[t| |]|]; intros H; simplify_eq.
  - exists t. by eauto.
  - exists EmptyString. by eauto.
Qed.

(** The ledger after a run under the lock name [l] that returns, when
    [has_locks] has left the filesystem as it was. *)
Lemma named_run_ledger (timestamp src_dir target_dir l : string)
    (cfg : Catalog) (max_gb : Q) (old : list string) (w w' : World) :
  (∀ locks w1, has_locks timestamp target_dir (Some l) true w = Ok locks w1 →
               files w1 = files w) →
  one_line l = true → one_line timestamp = true → no_leading_space l = true →
  path_join target_dir ".lock" ∉ target_of target_dir <$> (train cfg ++ valid cfg ++ test cfg) →
  ledger_lines target_dir w = Some old →
  copy_datasets timestamp src_dir target_dir cfg max_gb (Some l) w = Ok tt w' →
  ledger_lines target_dir w'
  = Some ((λ s, s +:+ String LF EmptyString)
            <$> (filter (λ s, startswith s l = false) (flat_map stripped old)
                 ++ [record l timestamp "read"])).
Proof.
  intros Hframe [Hl1 Hl2]%andb_true_iff [Ht1 Ht2]%andb_true_iff Hsp Hout Hold
    (locks & w1 & w2 & cur' & w3 & H1 & H2 & H3 & H4)%copy_datasets_inv.
  set (lock_f := path_join target_dir ".lock") in *.
  set (recw := record l timestamp "write").
  set (recr := record l timestamp "read").
  change (String LF EmptyString +:+ str_of_optional (Some l) +:+ "." +:+ timestamp +:+ ".write")
    with (String LF recw) in H2.
  change (l +:+ "." +:+ timestamp +:+ ".read") with recr in H4.
  pose proof (Hframe _ _ H1) as Hf1.
  destruct (ledger_lines_text _ _ _ Hold) as (t & -> & Ht). fold lock_f in Ht.
  apply append_text_spec in H2 as (_ & _ & _ & _ & Happ). rewrite Hf1 in Happ.
  assert (Hw2 : files w2 !! lock_f = Some (Text (t +:+ String LF recw))).
  { destruct Ht as [[Hn ->] | Hs]; [by rewrite Hn in Happ | by rewrite Hs in Happ]. }
  apply place_all_spec in H3 as (_ & _ & Hun & _).
  specialize (Hun (λ p, p ∈ target_of target_dir <$> (train cfg ++ valid cfg ++ test cfg))
                (files w2)).
  destruct (drain_spec rsync_ok sched (length (queue w3)) w3) as ((_ & Hun4 & _) & _).
  set (w4 := Nat.iter (length (queue w3)) finish_next w3) in *.
  assert (Hw4 : files w4 !! lock_f = Some (Text (t +:+ String LF recw))).
  { rewrite <- Hw2.
    assert (Hu4 : untouched
                    (λ p, p ∈ target_of target_dir <$> (train cfg ++ valid cfg ++ test cfg))
                    (files w2) w4).
    { apply Hun4, Hun; [| by split].
      apply Forall_forall. intros e [He _]%elem_of_visited.
      apply list_elem_of_fmap. by exists e. }
    destruct Hu4 as [Hu4 _]. by apply Hu4. }
  rewrite (remove_lock_text _ _ _ _ _ Hw4) in H4. injection H4 as <-.
  assert (Hrecw : free LF recw = true ∧ free CR recw = true).
  { unfold recw, record. by rewrite !free_app, Hl1, Hl2, Ht1, Ht2. }
  assert (Hrecr : one_line recr = true).
  { unfold one_line, recr, record. by rewrite !free_app, Hl1, Hl2, Ht1, Ht2. }
  destruct Hrecw as [Hw1' Hw2'].
  unfold ledger_lines. simpl. rewrite lookup_insert_eq. f_equal.
  rewrite readlines_unlines by (apply remaining_one_line; intros n Hn; by simplify_eq).
  f_equal. unfold remaining. simpl. f_equal.
  rewrite readlines_append_stripped, filter_app by done.
  assert (Hown : filter (λ s, survives l (Some recr) s = true) (stripped recw) = []).
  { pose proof (strip_record l timestamp "write" Hsp ltac:(by right)) as Hs. fold recw in Hs.
    unfold stripped. rewrite Hs.
    destruct (String.eqb _ _); [done |]. rewrite filter_cons_False; [done |].
    unfold survives, startswith, recw, record. by rewrite prefix_app. }
  rewrite Hown, app_nil_r. apply list_filter_iff. intros s. unfold survives, startswith.
  split.
  - intros [H%negb_true_iff _]%andb_true_iff. done.
  - intros H. rewrite H. simpl. apply negb_true_iff.
    destruct (String.prefix recr s) eqn:Hp; [| done].
    rewrite (prefix_trans l recr s) in H; [done | apply prefix_app | done].
Qed.

(** X12: a run under a lock name releases its write lock when it
    returns: nobody else being active, the ledger then holds the lines
    it held before that were not blank and did not start with the lock
    name, followed by the one Read record of this run. *)
Theorem named_run_swaps_its_record (timestamp src_dir target_dir l : string)
    (cfg : Catalog) (max_gb : Q) (old : list string) (w w' : World) :
  quiet others →
  one_line l = true → one_line timestamp = true → no_leading_space l = true →
  path_join target_dir ".lock" ∉ target_of target_dir <$> (train cfg ++ valid cfg ++ test cfg) →
  ledger_lines target_dir w = Some old →
  copy_datasets timestamp src_dir target_dir cfg max_gb (Some l) w = Ok tt w' →
  ledger_lines target_dir w'
  = Some ((λ s, s +:+ String LF EmptyString)
            <$> (filter (λ s, startswith s l = false) (flat_map stripped old)
                 ++ [record l timestamp "read"])).
Proof.
  intros Hq. apply named_run_ledger. intros locks w1 H1.
  apply has_locks_Ok in H1 as (_ & Hf1 & _). by apply Hf1.
Qed.

(** The sleeps of a run are those of its lock check. *)
Lemma run_slept (timestamp src_dir target_dir : string) (cfg : Catalog) (max_gb : Q)
    (lock : option string) (w w' : World) :
  copy_datasets timestamp src_dir target_dir cfg max_gb lock w = Ok tt w' →
  ∃ locks w1, has_locks timestamp target_dir lock true w = Ok locks w1 ∧ slept w' = slept w1.
Proof.
  intros (locks & w1 & w2 & cur' & w3 & H1 & H2 & H3 & H4)%copy_datasets_inv.
  exists locks, w1. split; [done |].
  apply append_text_spec in H2 as (_ & _ & _ & Hs2 & _).
  apply place_all_spec in H3 as (_ & Hs3 & _).
  destruct (drain_spec rsync_ok sched (length (queue w3)) w3) as ((Hs4 & _) & _).
  assert (Hs' : slept w' = slept (Nat.iter (length (queue w3)) finish_next w3)).
  { destruct lock as [l|]; [| by subst].
    destruct (remove_lock_Ok_text _ _ _ _ _ H4) as [t Ht].
    rewrite (remove_lock_text _ _ _ _ _ Ht) in H4. by injection H4 as <-. }
  rewrite Hs', Hs4, Hs3. simpl. exact Hs2.
Qed.

(** X17: a run that returns has slept for at most 4095 seconds, all of
    them while it waited for a write lock: for 1, 2, 4, ... seconds, at
    most twelve times. *)
Theorem run_waits_at_most_4095_seconds (timestamp src_dir target_dir : string)
    (cfg : Catalog) (max_gb : Q) (lock : option string) (w w' : World) :
  copy_datasets timestamp src_dir target_dir cfg max_gb lock w = Ok tt w' →
  ∃ k, (k ≤ 12)%nat ∧ slept w' = slept w ++ pow2s 0 k ∧ total (pow2s 0 k) ≤ 4095.
Proof.
  intros (locks & w1 & H1 & Hs)%run_slept.
  pose proof (has_locks_backed_off strptime others timestamp target_dir lock true w) as Hb.
  rewrite H1 in Hb. destruct Hb as [(k & Hk & Hs1 & _) _].
  exists k. split; [lia |]. split; [by rewrite Hs |].
  rewrite total_pow2s. simpl.
  assert (2 ^ Z.of_nat k ≤ 2 ^ 12) by (apply Z.pow_le_mono_r; lia). lia.
Qed.

(** A caller whose lock name every line starts with finds no lock. *)
Lemma has_locks_all_own (timestamp directory t x : string) (wait : bool) (cur : Z)
    (w : World) :
  files w !! path_join directory ".lock" = Some (Text t) →
  strptime timestamp = Some cur →
  Forall (λ line, startswith (strip line) x = true) (readlines t) →
  has_locks timestamp directory (Some x) wait w = Ok (false, false) w.
Proof.
  intros Hf Hcur Hall.
  assert (Hw : existsb (Script.foreign_write (Some x)) (readlines t) = false).
  { apply existsb_Forall_false. eapply Forall_impl; [exact Hall |].
    intros line Hl. unfold Script.foreign_write. by rewrite Hl, andb_false_r. }
  assert (Hr : Script.recent_activity strptime (Some x) cur (readlines t) = false).
  { clear Hw. induction Hall as [|line rest Hl _ IH]; [done |].
    cbn [Script.recent_activity]. by rewrite Hl. }
  unfold Script.has_locks.
  unfold mbind at 1, M_bind at 1, isfile, present. rewrite Hf.
  unfold Script.wait_write_fuel. cbn [Script.wait_write].
  unfold mbind, M_bind, open_lines. rewrite Hf, Hw. simpl. rewrite Hcur. simpl.
  by rewrite Hf, Hr.
Qed.

(** X18: the empty lock name switches the locking off: a run under it
    finds no lock whatever the ledger holds, does not wait, and when it
    returns has wiped the ledger, which then holds the Read record of
    this run and nothing else. *)
Theorem empty_lock_name_wipes_the_ledger (timestamp src_dir target_dir : string)
    (cfg : Catalog) (max_gb : Q) (old : list string) (w w' : World) :
  one_line timestamp = true →
  path_join target_dir ".lock" ∉ target_of target_dir <$> (train cfg ++ valid cfg ++ test cfg) →
  ledger_lines target_dir w = Some old →
  copy_datasets timestamp src_dir target_dir cfg max_gb (Some EmptyString) w = Ok tt w' →
  has_locks timestamp target_dir (Some EmptyString) true w = Ok (false, false) w
  ∧ slept w' = slept w
  ∧ ledger_lines target_dir w'
    = Some [record EmptyString timestamp "read" +:+ String LF EmptyString].
Proof.
  intros Hts Hout Hold Hrun.
  destruct (run_slept _ _ _ _ _ _ _ _ Hrun) as (locks & w1 & H1 & Hs).
  assert (Hblind : has_locks timestamp target_dir (Some EmptyString) true w
                   = Ok (false, false) w).
  { pose proof (has_locks_Ok _ _ _ _ _ _ _ _ _ H1) as (_ & _ & Hcur & _).
    destruct (ledger_lines_text _ _ _ Hold) as (t & _ & [[Hn _] | Ht]).
    - by apply has_locks_no_ledger.
    - destruct Hcur as [Hn | [cur Hcur]]; [congruence |].
      apply (has_locks_all_own timestamp target_dir t EmptyString true cur w Ht Hcur).
      apply Forall_forall. intros line _. unfold startswith. by destruct (strip line). }
  split; [done |]. split; [congruence |].
  rewrite (named_run_ledger timestamp src_dir target_dir EmptyString cfg max_gb old w w');
    try done.
  - do 2 f_equal.
    assert (Hnone : ∀ L : list string, filter (λ s, startswith s EmptyString = false) L = []).
    { induction L as [|s L IH]; [done |]. rewrite filter_cons_False; [done |].
      unfold startswith. by destruct s. }
    by rewrite Hnone.
  - intros locks' w1' H1'. congruence.
Qed.

(** X13: [cleanup] removes nothing outside the directory it is given,
    and nothing at all unless it has announced the cleaning; nobody
    else being active, this holds whether it returns or raises. *)
Theorem cleanup_stays_inside (timestamp target_dir : string) (lock : option string)
    (w : World) :
  quiet others →
  match cleanup timestamp target_dir lock w with
  | Ok _ w' | Raise _ w' =>
      (∀ p, inside target_dir p = false → files w' !! p = files w !! p)
      ∧ (last (trace w') ≠ Some (Cleaning target_dir) → files w' = files w)
  | OutOfFuel => False
  end.
Proof.
  intros Hq. unfold Script.cleanup, mbind at 1, M_bind at 1.
  pose proof (has_locks_frame timestamp target_dir lock true w Hq) as Hl.
  destruct (has_locks timestamp target_dir lock true w) as [locks w1|e w1|]; [| | done];
    destruct Hl as (Hf & _ & Htr).
  - destruct (_ || _); simpl.
    + split; [intros p _; by rewrite Hf | done].
    + unfold mbind, M_bind, emit, rmtree. cbn [files say].
      destruct (_ || _); simpl.
      * split; [intros p _; by rewrite Hf | by rewrite last_snoc].
      * split.
        -- intros p Hp. rewrite Hf.
           destruct (files w !! p) as [n|] eqn:Hn.
           ++ by apply map_lookup_filter_Some_2.
           ++ apply map_lookup_filter_None. by left.
        -- rewrite last_snoc. done.
  - split; [intros p _; by rewrite Hf | done].
Qed.

End RunProperties.

Section PlaceProperties.
Import PyStr PyStrFacts LineFacts.

Variable strptime : string → option Z.
Variable dstype : string → string.
Variable du : gmap string Node → string → Q.
Variable rsync_ok : string → bool.
Variable others : list Z → gmap string Node → gmap string Node.
Variable sched : nat → list nat.

Local Abbreviation has_locks := (Script.has_locks strptime others).
Local Abbreviation place := (Script.place du rsync_ok sched).
Local Abbreviation turn := (Script.turn rsync_ok sched).
Local Abbreviation copy_datasets := (Script.copy_datasets strptime dstype du rsync_ok others sched).

Lemma untouched_turn (T : string → Prop) (f0 : gmap string Node) (w : World) :
  untouched T f0 w → untouched T f0 (turn w).
Proof. destruct (settled_turn rsync_ok sched w) as (_ & Hun & _). apply Hun. Qed.

Lemma untouched_say (T : string → Prop) (f0 : gmap string Node) (e : Event) (w : World) :
  untouched T f0 w → untouched T f0 (say e w).
Proof. done. Qed.

(** A path that is not there now and was there at first is one that may
    be written. *)
Lemma untouched_absent (f0 : gmap string Node) (lock_f p : string) (w : World) :
  untouched (λ p, f0 !! p = None ∨ p = lock_f) f0 w →
  files w !! p = None → f0 !! p = None ∨ p = lock_f.
Proof.
  intros [Hw _] Hp. destruct (f0 !! p) as [n|] eqn:H0; [| by left].
  destruct (decide (p = lock_f)) as [| Hne]; [by right |].
  rewrite Hw in Hp; [congruence |]. intros [? | ?]; congruence.
Qed.

(** With a read lock in force, placing a file writes only where nothing
    was. *)
Lemma keeps_place_locked (f0 : gmap string Node) (lock_f src_dir target_dir : string)
    (max_gb cur_gb : Q) (e : string * Q) :
  keeps (untouched (λ p, f0 !! p = None ∨ p = lock_f) f0)
    (place src_dir target_dir max_gb true cur_gb e).
Proof.
  intros w Hw. unfold Script.place. cbn [negb].
  unfold Script.pooled, Script.workers, Script.measure, path_exists, isfile, islink, emit,
    submit, mbind, M_bind, mret, M_ret.
  assert (H1 : untouched (λ p, f0 !! p = None ∨ p = lock_f) f0 (turn w))
    by (by apply untouched_turn).
  assert (H2 : untouched (λ p, f0 !! p = None ∨ p = lock_f) f0 (turn (turn w)))
    by (by apply untouched_turn).
  destruct (negb (Qle_bool _ _)).
  - destruct (negb (present _ _)); [| done].
    match goal with
    | |- match match ln _ _ ?x with _ => _ end with _ => _ end =>
        assert (H3 : untouched (λ p, f0 !! p = None ∨ p = lock_f) f0 x)
          by (by apply untouched_turn, untouched_say)
    end.
    unfold ln. destruct (files _ !! _) eqn:Hl; [done |].
    apply untouched_insert; [| done]. by eapply untouched_absent.
  - rewrite andb_false_r.
    assert (H3 : untouched (λ p, f0 !! p = None ∨ p = lock_f) f0 (turn (turn (turn w))))
      by (by apply untouched_turn).
    destruct (present _ _) eqn:Hp; [done |].
    apply untouched_submit; [| by apply untouched_say].
    eapply untouched_absent; [exact H3 |]. unfold present in Hp.
    by destruct (files _ !! _).
Qed.

(** With a read lock in force, the run after its lock line writes only
    where nothing was, and to the ledger. *)
Lemma keeps_locked_run (f0 : gmap string Node) (timestamp src_dir target_dir : string)
    (cfg : Catalog) (max_gb : Q) (lock : option string) :
  keeps (untouched (λ p, f0 !! p = None ∨ p = path_join target_dir ".lock") f0)
    (cur_gb ← Script.measure du target_dir;
     _ ← for_each (visited dstype src_dir cfg) (place src_dir target_dir max_gb true) cur_gb;
     _ ← Script.as_completed rsync_ok sched;
     match lock with
     | Some l => Script.remove_lock target_dir l (Some (l +:+ "." +:+ timestamp +:+ ".read"))
     | None => mret tt
     end).
Proof.
  apply keeps_after_lock; [| intros _; by right].
  intros e c _. apply keeps_place_locked.
Qed.

(** X14: while [has_locks] reports a read lock, a run changes nothing
    that is there: nobody else being active, every path but the ledger
    that held something before the run holds the same afterwards,
    whether the run returns or raises. *)
Theorem read_lock_protects_entries (timestamp src_dir target_dir : string) (cfg : Catalog)
    (max_gb : Q) (lock : option string) (hw : bool) (w w1 : World) :
  quiet others →
  has_locks timestamp target_dir lock true w = Ok (true, hw) w1 →
  match copy_datasets timestamp src_dir target_dir cfg max_gb lock w with
  | Ok _ w' | Raise _ w' =>
      ∀ p n, p ≠ path_join target_dir ".lock" → files w !! p = Some n → files w' !! p = Some n
  | OutOfFuel => False
  end.
Proof.
  intros Hq H1.
  set (lock_f := path_join target_dir ".lock").
  apply (copy_datasets_cases strptime dstype du rsync_ok others sched
           timestamp src_dir target_dir cfg max_gb lock w
           (λ w', ∀ p n, p ≠ lock_f → files w !! p = Some n → files w' !! p = Some n)).
  - intros e w0 H0. congruence.
  - intros locks w0 w2 H0 H2. rewrite H1 in H0. injection H0 as <- <-. cbn [fst].
    pose proof (has_locks_frame strptime others timestamp target_dir lock true w Hq) as Hl.
    rewrite H1 in Hl. destruct Hl as (Hf1 & _).
    apply append_text_spec in H2 as (_ & Hf2 & _).
    pose proof (keeps_locked_run (files w2) timestamp src_dir target_dir cfg max_gb lock)
      as Hkeep.
    fold lock_f in Hkeep.
    specialize (Hkeep (set_queue (λ _, []) w2) ltac:(by split)).
    match goal with
    | |- match ?o with _ => _ end => destruct o as [[] w'|e w'|]
    end; [| | done]; destruct Hkeep as [Hk _]; intros p n Hne Hp;
      (rewrite Hk; [rewrite Hf2 by done; by rewrite Hf1 |]);
      (intros [Hn | ?]; [| done]); rewrite Hf2, Hf1 in Hn by done; congruence.
Qed.

End PlaceProperties.

(** ** The order of the placements *)

Lemma insert_desc_sorted (e : string * Q) (l : list (string * Q)) :
  StronglySorted (λ a b, (b.2 <= a.2)%Q) l →
  StronglySorted (λ a b, (b.2 <= a.2)%Q) (insert_desc e l).
Proof.
  induction 1 as [|x xs Hs IH Hx]; simpl; [by repeat constructor |].
  destruct (Qle_bool x.2 e.2) eqn:Hle.
  - apply Qle_bool_iff in Hle. constructor; [by constructor |].
    constructor; [done |]. eapply Forall_impl; [exact Hx |]. intros b Hb. simpl in Hb. lra.
  - assert (Hlt : (e.2 <= x.2)%Q).
    { apply Qlt_le_weak, Qnot_le_lt. intros Hle'. apply Qle_bool_iff in Hle'. congruence. }
    constructor; [done |]. rewrite insert_desc_perm. by constructor.
Qed.

(** [sorted] leaves the entries in descending order of their factors. *)
Lemma sorted_desc_sorted (l : list (string * Q)) :
  StronglySorted (λ a b, (b.2 <= a.2)%Q) (sorted_desc l).
Proof.
  induction l as [|e l IH]; [constructor |]. simpl. by apply insert_desc_sorted.
Qed.

Lemma StronglySorted_weaken {A} (R1 R2 : A → A → Prop) (l : list A) :
  (∀ x y, R1 x y → R2 x y) → StronglySorted R1 l → StronglySorted R2 l.
Proof.
  intros HR. induction 1 as [|x xs _ IH Hx]; constructor; [done |].
  eapply Forall_impl; [exact Hx | by auto].
Qed.

(** Of two entries of the same category, [copy_split] visits the one
    with the larger factor first. *)
Lemma visit_order_sorted (dstype : string → string) (src_dir : string)
    (entries : list (string * Q)) :
  StronglySorted
    (λ a b, dstype (PyStr.path_join src_dir a.1) = dstype (PyStr.path_join src_dir b.1) →
            (b.2 <= a.2)%Q)
    (visit_order dstype src_dir entries).
Proof.
  assert (Hcat : ∀ k (e : string * Q),
             e ∈ sorted_desc (filter (λ e, dstype (PyStr.path_join src_dir e.1) = k) entries) →
             dstype (PyStr.path_join src_dir e.1) = k).
  { intros k e. rewrite sorted_desc_perm. by intros [? _]%list_elem_of_filter. }
  assert (Hblock : ∀ k,
             StronglySorted
               (λ a b, dstype (PyStr.path_join src_dir a.1)
                       = dstype (PyStr.path_join src_dir b.1) → (b.2 <= a.2)%Q)
               (sorted_desc (filter (λ e, dstype (PyStr.path_join src_dir e.1) = k) entries))).
  { intros k. eapply StronglySorted_weaken; [| apply sorted_desc_sorted]. by auto. }
  unfold visit_order, Script.priority. cbn [flat_map]. rewrite app_nil_r.
  apply StronglySorted_app_2; [| apply Hblock |].
  - intros x1 x2 H1 [H2 | H2]%elem_of_app Heq; apply Hcat in H1, H2; congruence.
  - apply StronglySorted_app_2; [| apply Hblock | apply Hblock].
    intros x1 x2 H1 H2 Heq. apply Hcat in H1, H2. congruence.
Qed.

Lemma NoDup_fmap_eq {A B} (f : A → B) (l : list A) (x y : A) :
  NoDup (f <$> l) → x ∈ l → y ∈ l → f x = f y → x = y.
Proof.
  induction l as [|a l IH]; intros Hnd Hx Hy Heq; [by apply elem_of_nil in Hx |].
  rewrite fmap_cons in Hnd. apply NoDup_cons in Hnd as [Ha Hnd].
  apply elem_of_cons in Hx as [-> | Hx], Hy as [-> | Hy]; [done | | | by apply IH].
  - destruct Ha. rewrite Heq. apply list_elem_of_fmap. by exists y.
  - destruct Ha. rewrite <- Heq. apply list_elem_of_fmap. by exists x.
Qed.

Section Order.

Variable dstype : string → string.
Variable du : gmap string Node → string → Q.
Variable rsync_ok : string → bool.
Variable sched : nat → list nat.

(** The messages come in the order of the list, so a relation that
    holds between each entry and the later ones holds between the
    entries of any two messages. *)
Lemma placed_all_sorted (R : string * Q → string * Q → Prop) (max_gb : Q)
    (src_dir target_dir : string) (es : list (string * Q)) (cur_gb : Q) (evs : list Event)
    (cur_gb' : Q) :
  placed_all du max_gb src_dir target_dir es cur_gb evs cur_gb' →
  StronglySorted R es →
  ∀ (i j : nat) (a b : Event),
    (i < j)%nat → evs !! i = Some a → evs !! j = Some b →
    ∃ e1 e2, e1 ∈ es ∧ e2 ∈ es ∧ R e1 e2
             ∧ event_src a = Some (PyStr.path_join src_dir e1.1)
             ∧ event_src b = Some (PyStr.path_join src_dir e2.1).
Proof.
  induction 1 as [cur | e es cur evs1 cur1 evs2 cur2 Hp Hrest IH];
    intros Hs i j a b Hij Hi Hj; [done |].
  apply StronglySorted_inv in Hs as [Hs He].
  assert (Hlater : ∀ i j a b, (i < j)%nat → evs2 !! i = Some a → evs2 !! j = Some b →
            ∃ e1 e2, e1 ∈ e :: es ∧ e2 ∈ e :: es ∧ R e1 e2
                     ∧ event_src a = Some (PyStr.path_join src_dir e1.1)
                     ∧ event_src b = Some (PyStr.path_join src_dir e2.1)).
  { intros i' j' a' b' Hij' Hi' Hj'.
    destruct (IH Hs i' j' a' b' Hij' Hi' Hj') as (e1 & e2 & H1 & H2 & HR & Ha & Hb).
    exists e1, e2. repeat split; try done; apply elem_of_cons; by right. }
  assert (Hfirst : ∀ ev, evs1 = [ev] →
            event_src ev = Some (PyStr.path_join src_dir e.1) →
            ∃ e1 e2, e1 ∈ e :: es ∧ e2 ∈ e :: es ∧ R e1 e2
                     ∧ event_src a = Some (PyStr.path_join src_dir e1.1)
                     ∧ event_src b = Some (PyStr.path_join src_dir e2.1)).
  { intros ev -> Hev. destruct i as [|i], j as [|j]; try lia; simpl in Hi, Hj.
    - injection Hi as <-.
      pose proof (placed_all_events du max_gb src_dir target_dir _ _ _ _ Hrest) as Hevs.
      destruct (Forall_lookup_1 _ _ _ _ Hevs Hj) as (e2 & He2 & Hb).
      exists e, e2. split; [apply elem_of_cons; by left |].
      split; [apply elem_of_cons; by right |]. split; [| done].
      by apply (proj1 (Forall_forall _ _) He).
    - apply (Hlater i j); [lia | done | done]. }
  destruct Hp as [| | |f Hfit]; [by apply (Hlater i j) | | |]; by apply (Hfirst _ eq_refl).
Qed.

(** X16: within one split, of two files of the same category the one
    with the larger sampling factor is placed first: when a message
    comes before another and both are about files of one category, the
    factor of the first file is at least that of the second.  No
    source path is listed twice in the split. *)
Theorem larger_factor_first (src_dir target_dir : string) (max_gb : Q) (hrl : bool)
    (cur_gb : Q) (entries : list (string * Q)) (w : World) (cur_gb' : Q) (w' : World) :
  NoDup ((λ e, PyStr.path_join src_dir e.1) <$> entries) →
  Script.copy_split dstype du rsync_ok sched src_dir target_dir max_gb hrl cur_gb entries w
  = Ok cur_gb' w' →
  ∃ evs, trace w' = trace w ++ evs
    ∧ ∀ (i j : nat) (a b : Event) (ea eb : string * Q),
        (i < j)%nat → evs !! i = Some a → evs !! j = Some b →
        ea ∈ entries → eb ∈ entries →
        event_src a = Some (PyStr.path_join src_dir ea.1) →
        event_src b = Some (PyStr.path_join src_dir eb.1) →
        dstype (PyStr.path_join src_dir ea.1) = dstype (PyStr.path_join src_dir eb.1) →
        (eb.2 <= ea.2)%Q.
Proof.
  intros Hnd. rewrite copy_split_eq. intros ((evs & Ht & Hpl) & _)%place_all_spec.
  exists evs. split; [done |]. intros i j a b ea eb Hij Hi Hj Hea Heb Ha Hb Hcat.
  destruct (placed_all_sorted _ _ _ _ _ _ _ _ Hpl (visit_order_sorted dstype src_dir entries)
              i j a b Hij Hi Hj) as (e1 & e2 & [H1 _]%elem_of_visit_order
                                     & [H2 _]%elem_of_visit_order & HR & Ha' & Hb').
  assert (e1 = ea) as ->.
  { apply (NoDup_fmap_eq (λ e, PyStr.path_join src_dir e.1) entries); [done ..|]. congruence. }
  assert (e2 = eb) as ->.
  { apply (NoDup_fmap_eq (λ e, PyStr.path_join src_dir e.1) entries); [done ..|]. congruence. }
  by apply HR.
Qed.

End Order.

(** ** Failing runs *)

Section FailingRuns.
Import PyStr PyStrFacts LineFacts.

Variable strptime : string → option Z.
Variable dstype : string → string.
Variable du : gmap string Node → string → Q.
Variable rsync_ok : string → bool.
Variable others : list Z → gmap string Node → gmap string Node.
Variable sched : nat → list nat.

Local Abbreviation has_locks := (Script.has_locks strptime others).
Local Abbreviation place := (Script.place du rsync_ok sched).
Local Abbreviation copy_datasets := (Script.copy_datasets strptime dstype du rsync_ok others sched).


End FailingRuns.

(** ** Runs and cleanups, one after the other *)

Section Protocol.
Import PyStr PyStrFacts LineFacts.

Variable strptime : string → option Z.
Variable dstype : string → string.
Variable du : gmap string Node → string → Q.
Variable rsync_ok : string → bool.
Variable others : list Z → gmap string Node → gmap string Node.
Variable sched : nat → list nat.

Local Abbreviation has_locks := (Script.has_locks strptime others).
Local Abbreviation cleanup := (Script.cleanup strptime others).
Local Abbreviation copy_datasets := (Script.copy_datasets strptime dstype du rsync_ok others sched).

(** X21: a write lock of another owner delays a run and does not stop
    it: nobody else being active, a run that finds such a lock in the
    ledger and returns has slept through the whole back-off, twelve
    sleeps of 4095 seconds in all, and has then gone on. *)
Theorem write_lock_only_delays_a_run (timestamp src_dir target_dir t : string)
    (cfg : Catalog) (max_gb : Q) (lock : option string) (w w' : World) :
  quiet others →
  files w !! path_join target_dir ".lock" = Some (Text t) →
  existsb (Script.foreign_write lock) (readlines t) = true →
  copy_datasets timestamp src_dir target_dir cfg max_gb lock w = Ok tt w' →
  slept w' = slept w ++ pow2s 0 12 ∧ total (pow2s 0 12) = 4095.
Proof.
  intros Hq Ht Hex (locks & w1 & H1 & Hs)%run_slept. split; [| done].
  pose proof (has_locks_Ok _ _ _ _ _ _ _ _ _ H1) as (_ & _ & [Hn | [cur Hcur]] & _);
    [congruence |].
  destruct (has_locks_quiet strptime others timestamp target_dir t lock true cur w Hq Ht Hcur)
    as (w1' & H1' & _ & Hs1 & _).
  rewrite H1 in H1'. injection H1' as _ <-. rewrite Hex in Hs1. by rewrite Hs.
Qed.

Lemma placed_all_full (max_gb : Q) (src_dir target_dir : string) (es : list (string * Q))
    (cur_gb : Q) (evs : list Event) (cur_gb' : Q) :
  (∀ f p, (0 <= du f p)%Q) →
  placed_all du max_gb src_dir target_dir es cur_gb evs cur_gb' →
  (max_gb < cur_gb)%Q →
  Forall (λ ev, ∀ src tgt gb, ev ≠ Copying src tgt gb) evs.
Proof.
  intros Hdu. induction 1 as [cur | e es cur evs1 cur1 evs2 cur2 Hp _ IH]; intros Hfull;
    [constructor |].
  assert (H1 : Forall (λ ev, ∀ src tgt gb, ev ≠ Copying src tgt gb) evs1 ∧ cur1 = cur).
  { destruct Hp as [| | |f Hfit]; try (split; [by repeat constructor | done]).
    apply Qle_bool_iff in Hfit. pose proof (Hdu f (path_join src_dir e.1)). lra. }
  destruct H1 as [H1 ->]. apply Forall_app. split; [done | by apply IH].
Qed.

(** X22: the budget counts what the target directory holds already:
    when [du] reports more than the budget for the target directory
    itself (sizes being never negative), a run copies nothing; every
    file it places is linked or re-checked. *)
Theorem full_directory_takes_no_copies (timestamp src_dir target_dir : string)
    (cfg : Catalog) (max_gb : Q) (lock : option string) (w w' : World) :
  (∀ f p, (0 <= du f p)%Q) →
  (∀ f, (max_gb < du f target_dir)%Q) →
  copy_datasets timestamp src_dir target_dir cfg max_gb lock w = Ok tt w' →
  ∃ evs, trace w' = trace w ++ evs
         ∧ Forall (λ ev, ∀ src tgt gb, ev ≠ Copying src tgt gb) evs.
Proof.
  intros Hdu Hfull (f & evs & cur' & Ht & Hpl)%copy_datasets_trace.
  exists evs. split; [done |]. eapply placed_all_full; [exact Hdu | exact Hpl | apply Hfull].
Qed.

(** The ledger a returning run under a lock name leaves is a text, and
    its last line is the Read record of the run. *)
Lemma named_run_text (timestamp src_dir target_dir l : string)
    (cfg : Catalog) (max_gb : Q) (old : list string) (w w' : World) :
  quiet others →
  one_line l = true → one_line timestamp = true → no_leading_space l = true →
  path_join target_dir ".lock" ∉ target_of target_dir <$> (train cfg ++ valid cfg ++ test cfg) →
  ledger_lines target_dir w = Some old →
  copy_datasets timestamp src_dir target_dir cfg max_gb (Some l) w = Ok tt w' →
  ∃ t', files w' !! path_join target_dir ".lock" = Some (Text t')
        ∧ readlines t'
          = (λ s, s +:+ String LF EmptyString)
              <$> (filter (λ s, startswith s l = false) (flat_map stripped old)
                   ++ [record l timestamp "read"]).
Proof.
  intros Hq Hl Hts Hsp Hout Hold Hrun.
  assert (Hled : ledger_lines target_dir w'
                 = Some ((λ s, s +:+ String LF EmptyString)
                           <$> (filter (λ s, startswith s l = false) (flat_map stripped old)
                                ++ [record l timestamp "read"]))).
  { apply (named_run_ledger strptime dstype du rsync_ok others sched
             timestamp src_dir target_dir l cfg max_gb old w w'); try done.
    intros locks w1 H1. apply has_locks_Ok in H1 as (_ & Hf & _). by apply Hf. }
  apply ledger_lines_text in Hled as (t' & Hlines & [[Hn ->] | Ht']).
  - rewrite fmap_app in Hlines. by destruct (_ <$> filter _ _).
  - by exists t'.
Qed.

Lemma record_field (owner stamp kind : string) :
  free "." owner = true → free "." stamp = true →
  split "." (record owner stamp kind) !! 1%nat = Some stamp.
Proof.
  intros Ho Hs. unfold record.
  change ("." +:+ stamp +:+ "." +:+ kind) with (String "." (stamp +:+ String "." kind)).
  by rewrite !split_app_sep, (split_free _ _ Ho), (split_free _ _ Hs).
Qed.

(** A Read record less than 24 hours old is seen by everybody who does
    not take it for its own. *)
Lemma read_record_is_seen (caller : option string) (now ran : Z) (l timestamp : string)
    (pre : list string) :
  no_leading_space l = true → free "." l = true → free "." timestamp = true →
  foreign caller (record l timestamp "read") →
  strptime timestamp = Some ran → now - ran < 24 * 60 →
  Script.recent_activity strptime caller now
    ((λ s, s +:+ String LF EmptyString) <$> (pre ++ [record l timestamp "read"])) = true.
Proof.
  intros Hsp Hdl Hdt Hfor Hran Hage.
  set (rec := record l timestamp "read") in *.
  assert (Hstrip : strip (rec +:+ String LF EmptyString) = rec).
  { rewrite strip_terminator. by apply strip_record; [| left]. }
  apply (recent_activity_hit strptime caller now ran timestamp (rec +:+ String LF EmptyString)).
  - rewrite fmap_app. apply elem_of_app. right. apply elem_of_cons. by left.
  - rewrite Hstrip. by destruct caller.
  - rewrite Hstrip. by apply record_field.
  - done.
  - done.
Qed.

(** X23: the Read record a run leaves keeps others from cleaning up for
    24 hours: after a run under the lock name [l] has returned, a
    [cleanup] started less than 24 hours after the run by a caller who
    does not take the record for its own refuses, and removes nothing
    (nobody else being active; [l] and the time stamp of the run hold
    no dot). *)
Theorem finished_run_blocks_cleanup (timestamp later src_dir target_dir l : string)
    (cfg : Catalog) (max_gb : Q) (old : list string) (caller : option string)
    (ran now : Z) (w w' : World) :
  quiet others →
  one_line l = true → one_line timestamp = true → no_leading_space l = true →
  free "." l = true → free "." timestamp = true →
  path_join target_dir ".lock" ∉ target_of target_dir <$> (train cfg ++ valid cfg ++ test cfg) →
  ledger_lines target_dir w = Some old →
  copy_datasets timestamp src_dir target_dir cfg max_gb (Some l) w = Ok tt w' →
  foreign caller (record l timestamp "read") →
  strptime timestamp = Some ran → strptime later = Some now → now - ran < 24 * 60 →
  ∃ w'', cleanup later target_dir caller w' = Ok tt w''
         ∧ files w'' = files w' ∧ trace w'' = trace w' ++ [CouldNotCleanup].
Proof.
  intros Hq Hl Hts Hsp Hdl Hdt Hout Hold Hrun Hfor Hran Hnow Hage.
  destruct (named_run_text _ _ _ _ _ _ _ _ _ Hq Hl Hts Hsp Hout Hold Hrun) as (t' & Ht' & Hlines).
  destruct (has_locks_quiet strptime others later target_dir t' caller true now w' Hq Ht' Hnow)
    as (w1 & H1 & Hf1 & _ & _ & Htr1 & _).
  assert (Hrecent : Script.recent_activity strptime caller now (readlines t') = true)
    by (rewrite Hlines; by apply (read_record_is_seen caller now ran)).
  unfold Script.cleanup. rewrite (bind_Ok _ _ _ _ _ H1). cbn [fst snd]. rewrite Hrecent.
  cbn [orb]. eexists. split; [reflexivity |]. simpl. by rewrite Hf1, Htr1.
Qed.

(** X24: the owner can clean up after itself: when the ledger held no
    record of anybody else before a run under the lock name [l], a
    [cleanup] under the same name after the run finds no lock, does not
    wait, and goes on to clean the directory. *)
Theorem owner_cleans_up_after_its_run (timestamp later src_dir target_dir l : string)
    (cfg : Catalog) (max_gb : Q) (old : list string) (now : Z) (w w' : World) :
  quiet others →
  one_line l = true → one_line timestamp = true → no_leading_space l = true →
  target_dir ≠ EmptyString →
  path_join target_dir ".lock" ∉ target_of target_dir <$> (train cfg ++ valid cfg ++ test cfg) →
  ledger_lines target_dir w = Some old →
  Forall (λ line, strip line = EmptyString ∨ startswith (strip line) l = true) old →
  copy_datasets timestamp src_dir target_dir cfg max_gb (Some l) w = Ok tt w' →
  strptime later = Some now →
  ∃ w'', cleanup later target_dir (Some l) w' = Ok tt w''
         ∧ slept w'' = slept w'
         ∧ trace w'' = trace w' ++ [Cleaning target_dir]
         ∧ files w'' = filter (λ kv, inside target_dir kv.1 = false) (files w').
Proof.
  intros Hq Hl Hts Hsp Hdir Hout Hold Hown Hrun Hnow.
  assert (Hnone : filter (λ s, startswith s l = false) (flat_map stripped old) = []).
  { clear Hold. induction Hown as [|line rest Hline _ IH]; [done |].
    cbn [flat_map]. rewrite filter_app, IH, app_nil_r. unfold stripped.
    destruct Hline as [-> | Hline]; [done |].
    destruct (String.eqb _ _); [done |]. rewrite filter_cons_False; [done |].
    by rewrite Hline. }
  destruct (named_run_text _ _ _ _ _ _ _ _ _ Hq Hl Hts Hsp Hout Hold Hrun) as (t' & Ht' & Hlines).
  rewrite Hnone in Hlines. cbn in Hlines.
  assert (H1 : has_locks later target_dir (Some l) true w' = Ok (false, false) w').
  { apply (has_locks_all_own strptime others later target_dir t' l true now w' Ht' Hnow).
    rewrite Hlines. apply Forall_singleton.
    rewrite strip_terminator, strip_record by (done || by left).
    apply prefix_app. }
  unfold Script.cleanup. rewrite (bind_Ok _ _ _ _ _ H1). cbn [fst snd orb].
  unfold mbind, M_bind, emit. rewrite (rmtree_ledger target_dir (Text t')) by done.
  eexists. split; [reflexivity |]. done.
Qed.

(** X25: the Read record a run leaves protects what is in the target
    directory for 24 hours: a run started less than 24 hours later by a
    caller who does not take the record for its own, over any catalog
    and with any budget, changes nothing that is there; every path but
    the ledger that held something holds the same afterwards, whether
    that run returns or raises (nobody else being active). *)
Theorem finished_run_protects_its_files (timestamp later src_dir src_dir' target_dir l : string)
    (cfg cfg' : Catalog) (max_gb max_gb' : Q) (old : list string) (caller : option string)
    (ran now : Z) (w w' : World) :
  quiet others →
  one_line l = true → one_line timestamp = true → no_leading_space l = true →
  free "." l = true → free "." timestamp = true →
  path_join target_dir ".lock" ∉ target_of target_dir <$> (train cfg ++ valid cfg ++ test cfg) →
  ledger_lines target_dir w = Some old →
  copy_datasets timestamp src_dir target_dir cfg max_gb (Some l) w = Ok tt w' →
  foreign caller (record l timestamp "read") →
  strptime timestamp = Some ran → strptime later = Some now → now - ran < 24 * 60 →
  match copy_datasets later src_dir' target_dir cfg' max_gb' caller w' with
  | Ok _ w'' | Raise _ w'' =>
      ∀ p n, p ≠ path_join target_dir ".lock" → files w' !! p = Some n → files w'' !! p = Some n
  | OutOfFuel => False
  end.
Proof.
  intros Hq Hl Hts Hsp Hdl Hdt Hout Hold Hrun Hfor Hran Hnow Hage.
  destruct (named_run_text _ _ _ _ _ _ _ _ _ Hq Hl Hts Hsp Hout Hold Hrun) as (t' & Ht' & Hlines).
  destruct (has_locks_quiet strptime others later target_dir t' caller true now w' Hq Ht' Hnow)
    as (w1 & H1 & Hf1 & _).
  assert (Hrecent : Script.recent_activity strptime caller now (readlines t') = true)
    by (rewrite Hlines; by apply (read_record_is_seen caller now ran)).
  rewrite Hrecent in H1.
  set (lock_f := path_join target_dir ".lock") in *.
  apply (copy_datasets_cases strptime dstype du rsync_ok others sched
           later src_dir' target_dir cfg' max_gb' caller w'
           (λ w'', ∀ p n, p ≠ lock_f → files w' !! p = Some n → files w'' !! p = Some n)).
  - intros e w0 H0. congruence.
  - intros locks w0 w2 H0 H2. rewrite H1 in H0. injection H0 as <- <-. cbn [fst].
    apply append_text_spec in H2 as (_ & Hf2 & _).
    pose proof (keeps_locked_run dstype du rsync_ok sched (files w2) later src_dir' target_dir
                  cfg' max_gb' caller) as Hkeep.
    fold lock_f in Hkeep.
    specialize (Hkeep (set_queue (λ _, []) w2) ltac:(by split)).
    match goal with
    | |- match ?o with _ => _ end => destruct o as [[] w''|e w''|]
    end; [| | done]; destruct Hkeep as [Hk _]; intros p n Hne Hp;
      (rewrite Hk; [rewrite Hf2 by done; by rewrite Hf1 |]);
      (intros [Hn | ?]; [| done]); rewrite Hf2, Hf1 in Hn by done; congruence.
Qed.

End Protocol.

(** ** Equal factors *)

Lemma listed_before_cons {A} (x : A) (l : list A) (a b : A) :
  listed_before l a b → listed_before (x :: l) a b.
Proof. intros (l1 & l2 & l3 & ->). by exists (x :: l1), l2, l3. Qed.

Lemma listed_before_head {A} (l : list A) (a b : A) : b ∈ l → listed_before (a :: l) a b.
Proof. intros (l2 & l3 & ->)%list_elem_of_split. by exists [], l2, l3. Qed.

Lemma listed_before_filter {A} (P : A → Prop) `{∀ x, Decision (P x)} (l : list A) (a b : A) :
  listed_before (filter P l) a b → listed_before l a b.
Proof.
  induction l as [|x l IH]; intros (l1 & l2 & l3 & Heq).
  - by destruct l1.
  - rewrite filter_cons in Heq. destruct (decide (P x)).
    + destruct l1 as [|y l1]; simpl in Heq; injection Heq as -> Heq.
      * apply listed_before_head.
        assert (Hb : b ∈ filter P l) by (rewrite Heq; apply elem_of_app; right; by left).
        by apply list_elem_of_filter in Hb as [_ ?].
      * apply listed_before_cons, IH. by exists l1, l2, l3.
    + apply listed_before_cons, IH. by exists l1, l2, l3.
Qed.

(** Inserting an entry puts it before the entries with the same factor. *)
Lemma insert_desc_stable (e : string * Q) (l s : list (string * Q)) :
  (∀ b, b ∈ s → b ∈ l) →
  StronglySorted (λ a b, (b.2 < a.2)%Q ∨ ((b.2 == a.2)%Q ∧ listed_before l a b)) s →
  StronglySorted (λ a b, (b.2 < a.2)%Q ∨ ((b.2 == a.2)%Q ∧ listed_before (e :: l) a b))
    (insert_desc e s).
Proof.
  intros Hin Hs.
  assert (Hweak : ∀ a b, (b.2 < a.2)%Q ∨ ((b.2 == a.2)%Q ∧ listed_before l a b) →
                         (b.2 < a.2)%Q ∨ ((b.2 == a.2)%Q ∧ listed_before (e :: l) a b)).
  { intros a b [? | [? ?]]; [by left | right]. split; [done | by apply listed_before_cons]. }
  induction Hs as [|x xs Hs IH Hx]; simpl; [by repeat constructor |].
  assert (Hin' : ∀ b, b ∈ xs → b ∈ l) by (intros b Hb; apply Hin, elem_of_cons; by right).
  destruct (Qle_bool x.2 e.2) eqn:Hle.
  - apply Qle_bool_iff in Hle. constructor.
    + constructor; [eapply StronglySorted_weaken; [exact Hweak | exact Hs] |].
      eapply Forall_impl; [exact Hx | intros b; apply Hweak].
    + assert (Hbelow : ∀ b, b ∈ x :: xs → (b.2 <= e.2)%Q).
      { intros b [-> | Hb]%elem_of_cons; [done |].
        destruct (proj1 (Forall_forall _ _) Hx b Hb) as [? | [? _]]; lra. }
      apply Forall_forall. intros b Hb.
      destruct (Qle_lt_or_eq _ _ (Hbelow b Hb)) as [? | Heq]; [by left | right].
      split; [done |]. by apply listed_before_head, Hin.
  - assert (Hlt : (e.2 < x.2)%Q).
    { apply Qnot_le_lt. intros Hle'. apply Qle_bool_iff in Hle'. congruence. }
    constructor; [by apply IH |]. rewrite insert_desc_perm. constructor; [by left |].
    eapply Forall_impl; [exact Hx | intros b; apply Hweak].
Qed.

Lemma sorted_desc_stable (l : list (string * Q)) :
  StronglySorted (λ a b, (b.2 < a.2)%Q ∨ ((b.2 == a.2)%Q ∧ listed_before l a b))
    (sorted_desc l).
Proof.
  induction l as [|e l IH]; [constructor |]. simpl. apply insert_desc_stable; [| done].
  intros b. by rewrite sorted_desc_perm.
Qed.

Lemma visit_order_stable (dstype : string → string) (src_dir : string)
    (entries : list (string * Q)) :
  StronglySorted
    (λ a b, dstype (PyStr.path_join src_dir a.1) = dstype (PyStr.path_join src_dir b.1) →
            (b.2 < a.2)%Q ∨ ((b.2 == a.2)%Q ∧ listed_before entries a b))
    (visit_order dstype src_dir entries).
Proof.
  assert (Hcat : ∀ k (e : string * Q),
             e ∈ sorted_desc (filter (λ e, dstype (PyStr.path_join src_dir e.1) = k) entries) →
             dstype (PyStr.path_join src_dir e.1) = k).
  { intros k e. rewrite sorted_desc_perm. by intros [? _]%list_elem_of_filter. }
  assert (Hblock : ∀ k,
             StronglySorted
               (λ a b, dstype (PyStr.path_join src_dir a.1)
                       = dstype (PyStr.path_join src_dir b.1) →
                       (b.2 < a.2)%Q ∨ ((b.2 == a.2)%Q ∧ listed_before entries a b))
               (sorted_desc (filter (λ e, dstype (PyStr.path_join src_dir e.1) = k) entries))).
  { intros k. eapply StronglySorted_weaken; [| apply sorted_desc_stable].
    intros a b [? | [? Hb]] _; [by left | right]. split; [done |].
    by eapply listed_before_filter. }
  unfold visit_order, Script.priority. cbn [flat_map]. rewrite app_nil_r.
  apply StronglySorted_app_2; [| apply Hblock |].
  - intros x1 x2 H1 [H2 | H2]%elem_of_app Heq; apply Hcat in H1, H2; congruence.
  - apply StronglySorted_app_2; [| apply Hblock | apply Hblock].
    intros x1 x2 H1 H2 Heq. apply Hcat in H1, H2. congruence.
Qed.

Section Ties.

Variable dstype : string → string.
Variable du : gmap string Node → string → Q.
Variable rsync_ok : string → bool.
Variable sched : nat → list nat.

(** X27: of two files of one category with the same sampling factor,
    the one listed first in the split is placed first: when a message
    comes before another, both are about entries of the same category
    and the two factors are equal, the entry of the first message
    stands before the other in the catalog.  No source path is listed
    twice in the split. *)
Theorem equal_factors_keep_catalog_order (src_dir target_dir : string) (max_gb : Q)
    (hrl : bool) (cur_gb : Q) (entries : list (string * Q)) (w : World) (cur_gb' : Q)
    (w' : World) :
  NoDup ((λ e, PyStr.path_join src_dir e.1) <$> entries) →
  Script.copy_split dstype du rsync_ok sched src_dir target_dir max_gb hrl cur_gb entries w
  = Ok cur_gb' w' →
  ∃ evs, trace w' = trace w ++ evs
    ∧ ∀ (i j : nat) (a b : Event) (ea eb : string * Q),
        (i < j)%nat → evs !! i = Some a → evs !! j = Some b →
        ea ∈ entries → eb ∈ entries →
        event_src a = Some (PyStr.path_join src_dir ea.1) →
        event_src b = Some (PyStr.path_join src_dir eb.1) →
        dstype (PyStr.path_join src_dir ea.1) = dstype (PyStr.path_join src_dir eb.1) →
        (ea.2 == eb.2)%Q →
        listed_before entries ea eb.
Proof.
  intros Hnd. rewrite copy_split_eq. intros ((evs & Ht & Hpl) & _)%place_all_spec.
  exists evs. split; [done |]. intros i j a b ea eb Hij Hi Hj Hea Heb Ha Hb Hcat Heq.
  destruct (placed_all_sorted du _ _ _ _ _ _ _ _ Hpl (visit_order_stable dstype src_dir entries)
              i j a b Hij Hi Hj) as (e1 & e2 & [H1 _]%elem_of_visit_order
                                     & [H2 _]%elem_of_visit_order & HR & Ha' & Hb').
  assert (e1 = ea) as ->.
  { apply (NoDup_fmap_eq (λ e, PyStr.path_join src_dir e.1) entries); [done ..|]. congruence. }
  assert (e2 = eb) as ->.
  { apply (NoDup_fmap_eq (λ e, PyStr.path_join src_dir e.1) entries); [done ..|]. congruence. }
  destruct (HR Hcat) as [Hlt | [_ Hbefore]]; [lra | done].
Qed.

End Ties.

(** ** A lock released during the wait *)

Section Released.
Import PyStr PyStrFacts LineFacts.

Variable strptime : string → option Z.
Variable others : list Z → gmap string Node → gmap string Node.
Variable timestamp : string.

Local Abbreviation has_locks := (Script.has_locks strptime others timestamp).
Local Abbreviation cleanup := (Script.cleanup strptime others timestamp).

(** The world after one sleep. *)
Local Abbreviation asleep t w :=
  {| files := others (slept w ++ [t]) (files w); slept := slept w ++ [t];
     queue := queue w; submitted := submitted w; trace := trace w; tick := tick w |}.

Lemma wait_write_released (fuel : nat) (lock_f t t2 : string) (lock : option string)
    (tries : Z) (hw : bool) (w : World) :
  0 ≤ tries → tries * 2 ≤ 2 ^ 11 →
  files w !! lock_f = Some (Text t) →
  existsb (Script.foreign_write lock) (readlines t) = true →
  others (slept w ++ [tries]) (files w) !! lock_f = Some (Text t2) →
  existsb (Script.foreign_write lock) (readlines t2) = false →
  Script.wait_write others (S (S fuel)) lock_f lock true tries hw w = Ok true (asleep tries w).
Proof.
  intros H0 H2 Ht Hex Ht2 Hex2. cbn [Script.wait_write].
  unfold mbind, M_bind, open_lines, Script.sleep. rewrite Ht, Hex. cbn [negb].
  destruct (Z.ltb_spec tries 0) as [? | _]; [lia |].
  destruct (Z.ltb_spec (2 ^ 11) (tries * 2)) as [? | _]; [lia |].
  cbn [files]. by rewrite Ht2, Hex2.
Qed.

(** X26: a write lock released during the wait is reported all the
    same: when the lock of another owner has gone from the ledger by
    the end of the first sleep, [has_locks] sleeps that one second and
    no more, and still answers that there is a write lock, so that
    [cleanup] refuses although nothing holds the directory any more. *)
Theorem released_lock_is_still_reported (directory t t2 : string) (lock : option string)
    (cur : Z) (w : World) :
  files w !! path_join directory ".lock" = Some (Text t) →
  existsb (Script.foreign_write lock) (readlines t) = true →
  others (slept w ++ [1]) (files w) !! path_join directory ".lock" = Some (Text t2) →
  existsb (Script.foreign_write lock) (readlines t2) = false →
  strptime timestamp = Some cur →
  ∃ hr w1 w2,
    has_locks directory lock true w = Ok (hr, true) w1
    ∧ slept w1 = slept w ++ [1]
    ∧ cleanup directory lock w = Ok tt w2
    ∧ slept w2 = slept w ++ [1]
    ∧ trace w2 = trace w ++ [CouldNotCleanup].
Proof.
  intros Ht Hex Ht2 Hex2 Hcur.
  assert (H1 : has_locks directory lock true w
               = Ok (Script.recent_activity strptime lock cur (readlines t2), true)
                   (asleep 1 w)).
  { unfold Script.has_locks. unfold mbind at 1, M_bind at 1, isfile, present. rewrite Ht.
    change Script.wait_write_fuel with (S (S 10)).
    rewrite (bind_Ok _ _ _ _ _
               (wait_write_released 10 _ t t2 lock 1 false w ltac:(lia) ltac:(lia)
                  Ht Hex Ht2 Hex2)).
    rewrite Hcur. unfold mbind, M_bind, open_lines. cbn [files mret M_ret]. by rewrite Ht2. }
  eexists _, _, _. split; [exact H1 |]. split; [done |].
  unfold Script.cleanup. rewrite (bind_Ok _ _ _ _ _ H1). cbn [fst snd].
  rewrite orb_true_r. split; [reflexivity |]. done.
Qed.

End Released.

(** ** The further properties at concrete inputs *)

Module MoreChecks.
Import Examples.

Local Abbreviation has_locks timestamp :=
  (Script.has_locks Strptime.strptime no_others timestamp "/t").
Local Abbreviation cleanup timestamp :=
  (Script.cleanup Strptime.strptime no_others timestamp "/t").
Local Abbreviation copy_datasets timestamp :=
  (Script.copy_datasets Strptime.strptime category sizes rsync_fine no_others idle
     timestamp "/s" "/t").
Local Abbreviation main :=
  (Script.main Strptime.strptime category sizes rsync_fine no_others idle now).

Lemma nobody_else : quiet no_others.
Proof. by intros h f. Qed.

Lemma remove_lock_leaves_the_others_witness :
  ∃ w', Script.remove_lock "/t" "me" (Some "me.202611030837.read")
          (ledger_world ["you.202611030800.read"; "me.202611030837.write"]) = Ok tt w'
        ∧ ledger_lines "/t" w'
          = Some ((λ l, l +:+ String PyStr.LF EmptyString)
                    <$> (filter (λ l, survives "me" (Some "me.202611030837.read") l = true)
                           (flat_map stripped
                              (PyStr.readlines
                                 (ledger_text ["you.202611030800.read";
                                               "me.202611030837.write"])))
                         ++ option_list (Some "me.202611030837.read")))
        ∧ (∀ p, p ≠ PyStr.path_join "/t" ".lock" →
                files w' !! p
                = files (ledger_world ["you.202611030800.read"; "me.202611030837.write"]) !! p).
Proof.
  apply (remove_lock_leaves_the_others "/t" "me" (Some "me.202611030837.read")
           (ledger_text ["you.202611030800.read"; "me.202611030837.write"])
           (ledger_world ["you.202611030800.read"; "me.202611030837.write"])).
  - by vm_compute.
  - intros n [= <-]. by vm_compute.
Defined.

(** What is left in that example: the record of the other owner and the
    new record. *)
Lemma remove_lock_example :
  ledger_lines "/t"
    (world_after (Script.remove_lock "/t" "me" (Some "me.202611030837.read")
                    (ledger_world ["you.202611030800.read"; "me.202611030837.write"])))
  = Some ["you.202611030800.read" +:+ String PyStr.LF EmptyString;
          "me.202611030837.read" +:+ String PyStr.LF EmptyString].
Proof. by vm_compute. Qed.

Lemma remove_lock_twice_witness :
  Script.remove_lock "/t" "me" (Some "me.202611030837.read")
    (world_after (Script.remove_lock "/t" "me" (Some "me.202611030837.read")
                    (ledger_world ["you.202611030800.read"; "me.202611030837.write"])))
  = Ok tt (world_after (Script.remove_lock "/t" "me" (Some "me.202611030837.read")
                          (ledger_world ["you.202611030800.read"; "me.202611030837.write"]))).
Proof.
  apply (remove_lock_twice "/t" "me" (Some "me.202611030837.read")
           (ledger_world ["you.202611030800.read"; "me.202611030837.write"])).
  - intros n [= <-]. by vm_compute.
  - by vm_compute.
Defined.

Lemma cleanup_with_lock_needs_ledger_witness :
  main (CleanupArgs "/t" (Some "me")) (world ∅) = Raise FileNotFoundError (world ∅)
  ∧ match cleanup now (Some "me") (world ∅) with
    | Ok _ w' | Raise _ w' => trace w' = trace (world ∅) ++ [Cleaning "/t"]
    | OutOfFuel => False
    end.
Proof.
  apply (cleanup_with_lock_needs_ledger Strptime.strptime category sizes rsync_fine no_others
           idle now "/t" "me" (world ∅)).
  by vm_compute.
Defined.

Lemma cleanup_with_lock_same_verdict_witness :
  ∃ verdict w1 w2,
    cleanup now (Some "me")
      (ledger_world ["you.202611030800.read"; "me.202611020800.read"]) = Ok tt w1
    ∧ main (CleanupArgs "/t" (Some "me"))
        (ledger_world ["you.202611030800.read"; "me.202611020800.read"]) = Ok 0 w2
    ∧ (verdict = CouldNotCleanup ∨ verdict = Cleaning "/t")
    ∧ trace w1 = trace (ledger_world ["you.202611030800.read"; "me.202611020800.read"])
                 ++ [verdict]
    ∧ trace w2 = trace (ledger_world ["you.202611030800.read"; "me.202611020800.read"])
                 ++ [verdict]
    ∧ slept w2 = slept w1
    ∧ ∀ p, p ≠ PyStr.path_join "/t" ".lock" → files w2 !! p = files w1 !! p.
Proof.
  apply (cleanup_with_lock_same_verdict Strptime.strptime category sizes rsync_fine no_others
           idle now "/t" "me"
           (ledger_text ["you.202611030800.read"; "me.202611020800.read"]) 1065488197
           (ledger_world ["you.202611030800.read"; "me.202611020800.read"])).
  - apply nobody_else.
  - by vm_compute.
  - done.
  - by vm_compute.
Defined.

Lemma ledger_order_is_irrelevant_witness :
  ∃ answer naps w1' w2',
    has_locks now (Some "me") true
      (world {[ "/t/.lock" := Text (unlines ["you.202611030800.read";
                                             "him.202611030830.write"]) ]})
    = Ok answer w1'
    ∧ has_locks now (Some "me") true
        (world {[ "/t/.lock" := Text (unlines ["him.202611030830.write";
                                               "you.202611030800.read"]) ]})
      = Ok answer w2'
    ∧ slept w1' = slept (world {[ "/t/.lock" := Text (unlines ["you.202611030800.read";
                                                               "him.202611030830.write"]) ]})
                  ++ naps
    ∧ slept w2' = slept (world {[ "/t/.lock" := Text (unlines ["him.202611030830.write";
                                                               "you.202611030800.read"]) ]})
                  ++ naps.
Proof.
  apply (ledger_order_is_irrelevant Strptime.strptime no_others now "/t"
           (unlines ["you.202611030800.read"; "him.202611030830.write"])
           (unlines ["him.202611030830.write"; "you.202611030800.read"])
           (Some "me") true 1065488197).
  - apply nobody_else.
  - by vm_compute.
  - by vm_compute.
  - by vm_compute.
  - vm_compute. apply perm_swap.
Defined.

Lemma fresh_write_record_counts_twice_witness :
  ∃ w', has_locks now (Some "me") false (ledger_world ["you.202611030830.write"])
        = Ok (true, true) w'.
Proof.
  apply (fresh_write_record_counts_twice Strptime.strptime no_others now "/t"
           (ledger_text ["you.202611030830.write"]) "me" "you" "202611030830"
           "you.202611030830.write" false 1065488197 1065488190).
  - apply nobody_else.
  - by vm_compute.
  - by vm_compute.
  - apply (bool_decide_unpack _). by vm_compute.
  - by vm_compute.
  - by vm_compute.
  - by vm_compute.
  - by vm_compute.
  - by vm_compute.
  - by vm_compute.
Defined.

Lemma run_stays_on_its_paths_witness :
  match copy_datasets now with_music 100%Q (Some "me")
          (world {[ "/t/musicA.bin" := Link; "/u/keep.bin" := Data ]}) with
  | Ok _ w' | Raise _ w' =>
      ∀ p, (∀ e, e ∈ train with_music ++ valid with_music ++ test with_music →
                 category (PyStr.path_join "/s" e.1) ∈ Script.priority →
                 p ≠ PyStr.path_join "/t" e.1) →
           p ≠ PyStr.path_join "/t" ".lock" →
           files w' !! p = files (world {[ "/t/musicA.bin" := Link; "/u/keep.bin" := Data ]}) !! p
  | OutOfFuel => False
  end.
Proof.
  apply (run_stays_on_its_paths Strptime.strptime category sizes rsync_fine no_others idle
           now "/s" "/t" with_music 100%Q (Some "me")
           (world {[ "/t/musicA.bin" := Link; "/u/keep.bin" := Data ]})).
  apply nobody_else.
Defined.

Lemma run_waits_for_its_jobs_witness :
  queue (world_after (copy_datasets now two_files 5%Q (Some "me") (world ∅))) = [].
Proof.
  apply (run_waits_for_its_jobs Strptime.strptime category sizes rsync_fine no_others idle
           now "/s" "/t" two_files 5%Q (Some "me") (world ∅)).
  by vm_compute.
Defined.

Lemma other_categories_are_passed_over_witness :
  ∃ evs, trace (world_after (copy_datasets now with_music 100%Q (Some "me") (world ∅)))
         = trace (world ∅) ++ evs
         ∧ Forall (λ ev, ∃ e, e ∈ train with_music ++ valid with_music ++ test with_music
                              ∧ category (PyStr.path_join "/s" e.1) ∈ Script.priority
                              ∧ event_src ev = Some (PyStr.path_join "/s" e.1)) evs.
Proof.
  apply (other_categories_are_passed_over Strptime.strptime category sizes rsync_fine
           no_others idle now "/s" "/t" with_music 100%Q (Some "me") (world ∅)).
  by vm_compute.
Defined.

Lemma every_visited_file_is_placed_witness :
  present (files (world_after (copy_datasets now two_files 5%Q (Some "me") (world ∅))))
    (PyStr.path_join "/t" ("speechA.bin", 5%Q).1) = true.
Proof.
  apply (every_visited_file_is_placed Strptime.strptime category sizes rsync_fine no_others
           idle now "/s" "/t" two_files 5%Q (Some "me") (world ∅)).
  - apply nobody_else.
  - done.
  - by vm_compute.
  - cbn. apply elem_of_cons. right. apply elem_of_cons. by left.
  - apply (bool_decide_unpack _). by vm_compute.
Defined.

Lemma named_run_swaps_its_record_witness :
  ledger_lines "/t"
    (world_after (copy_datasets now two_files 5%Q (Some "me")
                    (ledger_world ["you.202601010000.read"; "me.202611020800.read"])))
  = Some ((λ s, s +:+ String PyStr.LF EmptyString)
            <$> (filter (λ s, PyStr.startswith s "me" = false)
                   (flat_map stripped
                      (PyStr.readlines
                         (ledger_text ["you.202601010000.read"; "me.202611020800.read"])))
                 ++ [record "me" now "read"])).
Proof.
  apply (named_run_swaps_its_record Strptime.strptime category sizes rsync_fine no_others
           idle now "/s" "/t" "me" two_files 5%Q
           (PyStr.readlines (ledger_text ["you.202601010000.read"; "me.202611020800.read"]))
           (ledger_world ["you.202601010000.read"; "me.202611020800.read"])).
  - apply nobody_else.
  - by vm_compute.
  - by vm_compute.
  - by vm_compute.
  - apply (bool_decide_unpack _). by vm_compute.
  - by vm_compute.
  - by vm_compute.
Defined.

(** The ledger of that example after the run. *)
Lemma named_run_example :
  ledger_lines "/t"
    (world_after (copy_datasets now two_files 5%Q (Some "me")
                    (ledger_world ["you.202601010000.read"; "me.202611020800.read"])))
  = Some ["you.202601010000.read" +:+ String PyStr.LF EmptyString;
          "me.202611030837.read" +:+ String PyStr.LF EmptyString].
Proof. by vm_compute. Qed.

Lemma cleanup_stays_inside_witness :
  match cleanup now (Some "me")
          (world {[ "/t/noiseA.bin" := Data; "/u/keep.bin" := Data ]}) with
  | Ok _ w' | Raise _ w' =>
      (∀ p, inside "/t" p = false →
            files w' !! p
            = files (world {[ "/t/noiseA.bin" := Data; "/u/keep.bin" := Data ]}) !! p)
      ∧ (last (trace w') ≠ Some (Cleaning "/t") →
         files w' = files (world {[ "/t/noiseA.bin" := Data; "/u/keep.bin" := Data ]}))
  | OutOfFuel => False
  end.
Proof.
  apply (cleanup_stays_inside Strptime.strptime no_others now "/t" (Some "me")
           (world {[ "/t/noiseA.bin" := Data; "/u/keep.bin" := Data ]})).
  apply nobody_else.
Defined.

(** In that example the directory is cleaned and the other one kept. *)
Lemma cleanup_example :
  files (world_after (cleanup now (Some "me")
                        (world {[ "/t/noiseA.bin" := Data; "/u/keep.bin" := Data ]})))
  = {[ "/u/keep.bin" := Data ]}.
Proof. by vm_compute. Qed.

Lemma read_lock_protects_entries_witness :
  match copy_datasets now two_files 100%Q (Some "me")
          (world {[ "/t/.lock" := Text (ledger_text ["you.202611030800.read"]);
                    "/t/noiseA.bin" := Link ]}) with
  | Ok _ w' | Raise _ w' =>
      ∀ p n, p ≠ PyStr.path_join "/t" ".lock" →
             files (world {[ "/t/.lock" := Text (ledger_text ["you.202611030800.read"]);
                             "/t/noiseA.bin" := Link ]}) !! p = Some n →
             files w' !! p = Some n
  | OutOfFuel => False
  end.
Proof.
  apply (read_lock_protects_entries Strptime.strptime category sizes rsync_fine no_others
           idle now "/s" "/t" two_files 100%Q (Some "me") false
           (world {[ "/t/.lock" := Text (ledger_text ["you.202611030800.read"]);
                     "/t/noiseA.bin" := Link ]})
           (world {[ "/t/.lock" := Text (ledger_text ["you.202611030800.read"]);
                     "/t/noiseA.bin" := Link ]})).
  - apply nobody_else.
  - by vm_compute.
Defined.

(** In that example the link stays a link although the file fits the
    budget; without the read lock it is replaced by a copy. *)
Lemma read_lock_example :
  files (world_after (copy_datasets now two_files 100%Q (Some "me")
                        (world {[ "/t/.lock" := Text (ledger_text ["you.202611030800.read"]);
                                  "/t/noiseA.bin" := Link ]})))
    !! "/t/noiseA.bin" = Some Link
  ∧ files (world_after (copy_datasets now two_files 100%Q (Some "me")
                          (world {[ "/t/noiseA.bin" := Link ]})))
      !! "/t/noiseA.bin" = Some Data.
Proof. split; by vm_compute. Qed.

Lemma larger_factor_first_witness :
  ∃ evs,
    trace (world_after
             (Script.copy_split category sizes rsync_fine idle "/s" "/t" 100%Q false 0%Q
                [("noiseA.bin", 2%Q); ("speechA.bin", 5%Q); ("noiseB.bin", 7%Q)] (world ∅)))
    = trace (world ∅) ++ evs
    ∧ ∀ (i j : nat) (a b : Event) (ea eb : string * Q),
        (i < j)%nat → evs !! i = Some a → evs !! j = Some b →
        ea ∈ [("noiseA.bin", 2%Q); ("speechA.bin", 5%Q); ("noiseB.bin", 7%Q)] →
        eb ∈ [("noiseA.bin", 2%Q); ("speechA.bin", 5%Q); ("noiseB.bin", 7%Q)] →
        event_src a = Some (PyStr.path_join "/s" ea.1) →
        event_src b = Some (PyStr.path_join "/s" eb.1) →
        category (PyStr.path_join "/s" ea.1) = category (PyStr.path_join "/s" eb.1) →
        (eb.2 <= ea.2)%Q.
Proof.
  apply (larger_factor_first category sizes rsync_fine idle "/s" "/t" 100%Q false 0%Q
           [("noiseA.bin", 2%Q); ("speechA.bin", 5%Q); ("noiseB.bin", 7%Q)] (world ∅) 9%Q).
  - apply (bool_decide_unpack _). by vm_compute.
  - by vm_compute.
Defined.

(** In that example the noise file with factor 7 comes first. *)
Lemma larger_factor_example :
  trace (world_after
           (Script.copy_split category sizes rsync_fine idle "/s" "/t" 100%Q false 0%Q
              [("noiseA.bin", 2%Q); ("speechA.bin", 5%Q); ("noiseB.bin", 7%Q)] (world ∅)))
  = [Copying "/s/noiseB.bin" "/t/noiseB.bin" 3; Copying "/s/noiseA.bin" "/t/noiseA.bin" 3;
     Copying "/s/speechA.bin" "/t/speechA.bin" 3].
Proof. by vm_compute. Qed.

Lemma run_waits_at_most_4095_seconds_witness :
  ∃ k, (k ≤ 12)%nat
       ∧ slept (world_after (copy_datasets now two_files 5%Q (Some "me")
                               (ledger_world ["you.202611030830.write"])))
         = slept (ledger_world ["you.202611030830.write"]) ++ pow2s 0 k
       ∧ total (pow2s 0 k) ≤ 4095.
Proof.
  apply (run_waits_at_most_4095_seconds Strptime.strptime category sizes rsync_fine no_others
           idle now "/s" "/t" two_files 5%Q (Some "me")
           (ledger_world ["you.202611030830.write"])).
  by vm_compute.
Defined.

Lemma empty_lock_name_wipes_the_ledger_witness :
  has_locks now (Some EmptyString) true (ledger_world ["you.202611030830.write"])
  = Ok (false, false) (ledger_world ["you.202611030830.write"])
  ∧ slept (world_after (copy_datasets now two_files 5%Q (Some EmptyString)
                          (ledger_world ["you.202611030830.write"])))
    = slept (ledger_world ["you.202611030830.write"])
  ∧ ledger_lines "/t"
      (world_after (copy_datasets now two_files 5%Q (Some EmptyString)
                      (ledger_world ["you.202611030830.write"])))
    = Some [record EmptyString now "read" +:+ String PyStr.LF EmptyString].
Proof.
  apply (empty_lock_name_wipes_the_ledger Strptime.strptime category sizes rsync_fine
           no_others idle now "/s" "/t" two_files 5%Q
           (PyStr.readlines (ledger_text ["you.202611030830.write"]))
           (ledger_world ["you.202611030830.write"])).
  - by vm_compute.
  - apply (bool_decide_unpack _). by vm_compute.
  - by vm_compute.
  - by vm_compute.
Defined.


Lemma write_lock_only_delays_a_run_witness :
  slept (world_after (copy_datasets now two_files 5%Q (Some "me")
                        (ledger_world ["you.202611030830.write"])))
  = slept (ledger_world ["you.202611030830.write"]) ++ pow2s 0 12
  ∧ total (pow2s 0 12) = 4095.
Proof.
  apply (write_lock_only_delays_a_run Strptime.strptime category sizes rsync_fine no_others
           idle now "/s" "/t" (ledger_text ["you.202611030830.write"]) two_files 5%Q
           (Some "me") (ledger_world ["you.202611030830.write"])).
  - apply nobody_else.
  - by vm_compute.
  - by vm_compute.
  - by vm_compute.
Defined.

Lemma full_directory_takes_no_copies_witness :
  ∃ evs,
    trace (world_after
             (Script.copy_datasets Strptime.strptime category crowded rsync_fine no_others
                idle now "/s" "/t" two_files 5%Q (Some "me") (world ∅)))
    = trace (world ∅) ++ evs
    ∧ Forall (λ ev, ∀ src tgt gb, ev ≠ Copying src tgt gb) evs.
Proof.
  apply (full_directory_takes_no_copies Strptime.strptime category crowded rsync_fine
           no_others idle now "/s" "/t" two_files 5%Q (Some "me") (world ∅)).
  - intros f p. unfold crowded. by destruct (PyStr.startswith p "/s/").
  - intros f. by vm_compute.
  - by vm_compute.
Defined.

Lemma finished_run_blocks_cleanup_witness :
  ∃ w'', cleanup noon (Some "you")
           (world_after (copy_datasets now two_files 5%Q (Some "me") (world ∅))) = Ok tt w''
         ∧ files w'' = files (world_after (copy_datasets now two_files 5%Q (Some "me") (world ∅)))
         ∧ trace w''
           = trace (world_after (copy_datasets now two_files 5%Q (Some "me") (world ∅)))
             ++ [CouldNotCleanup].
Proof.
  apply (finished_run_blocks_cleanup Strptime.strptime category sizes rsync_fine no_others
           idle now noon "/s" "/t" "me" two_files 5%Q [] (Some "you")
           1065488197 1065488400 (world ∅)).
  - apply nobody_else.
  - by vm_compute.
  - by vm_compute.
  - by vm_compute.
  - by vm_compute.
  - by vm_compute.
  - apply (bool_decide_unpack _). by vm_compute.
  - by vm_compute.
  - by vm_compute.
  - by vm_compute.
  - by vm_compute.
  - by vm_compute.
  - by vm_compute.
Defined.

Lemma owner_cleans_up_after_its_run_witness :
  ∃ w'', cleanup noon (Some "me")
           (world_after (copy_datasets now two_files 5%Q (Some "me") (world ∅))) = Ok tt w''
         ∧ slept w'' = slept (world_after (copy_datasets now two_files 5%Q (Some "me") (world ∅)))
         ∧ trace w''
           = trace (world_after (copy_datasets now two_files 5%Q (Some "me") (world ∅)))
             ++ [Cleaning "/t"]
         ∧ files w''
           = filter (λ kv, inside "/t" kv.1 = false)
               (files (world_after (copy_datasets now two_files 5%Q (Some "me") (world ∅)))).
Proof.
  apply (owner_cleans_up_after_its_run Strptime.strptime category sizes rsync_fine no_others
           idle now noon "/s" "/t" "me" two_files 5%Q [] 1065488400 (world ∅)).
  - apply nobody_else.
  - by vm_compute.
  - by vm_compute.
  - by vm_compute.
  - done.
  - apply (bool_decide_unpack _). by vm_compute.
  - by vm_compute.
  - by apply Forall_nil.
  - by vm_compute.
  - by vm_compute.
Defined.

Lemma finished_run_protects_its_files_witness :
  match copy_datasets noon two_files 100%Q (Some "you")
          (world_after (copy_datasets now two_files 5%Q (Some "me") (world ∅))) with
  | Ok _ w'' | Raise _ w'' =>
      ∀ p n, p ≠ PyStr.path_join "/t" ".lock" →
             files (world_after (copy_datasets now two_files 5%Q (Some "me") (world ∅))) !! p
             = Some n →
             files w'' !! p = Some n
  | OutOfFuel => False
  end.
Proof.
  apply (finished_run_protects_its_files Strptime.strptime category sizes rsync_fine no_others
           idle now noon "/s" "/s" "/t" "me" two_files two_files 5%Q 100%Q [] (Some "you")
           1065488197 1065488400 (world ∅)).
  - apply nobody_else.
  - by vm_compute.
  - by vm_compute.
  - by vm_compute.
  - by vm_compute.
  - by vm_compute.
  - apply (bool_decide_unpack _). by vm_compute.
  - by vm_compute.
  - by vm_compute.
  - by vm_compute.
  - by vm_compute.
  - by vm_compute.
  - by vm_compute.
Defined.

(** In that example the second run has budget for the file the first run
    linked, and leaves the link. *)
Lemma protected_link_example :
  files (world_after (copy_datasets now two_files 5%Q (Some "me") (world ∅)))
    !! "/t/speechA.bin" = Some Link
  ∧ files (world_after
             (copy_datasets noon two_files 100%Q (Some "you")
                (world_after (copy_datasets now two_files 5%Q (Some "me") (world ∅)))))
      !! "/t/speechA.bin" = Some Link.
Proof. split; by vm_compute. Qed.

Lemma released_lock_is_still_reported_witness :
  ∃ hr w1 w2,
    Script.has_locks Strptime.strptime release_at_once now "/t" (Some "me") true
      (ledger_world ["you.202611030830.write"]) = Ok (hr, true) w1
    ∧ slept w1 = slept (ledger_world ["you.202611030830.write"]) ++ [1]
    ∧ Script.cleanup Strptime.strptime release_at_once now "/t" (Some "me")
        (ledger_world ["you.202611030830.write"]) = Ok tt w2
    ∧ slept w2 = slept (ledger_world ["you.202611030830.write"]) ++ [1]
    ∧ trace w2 = trace (ledger_world ["you.202611030830.write"]) ++ [CouldNotCleanup].
Proof.
  apply (released_lock_is_still_reported Strptime.strptime release_at_once now "/t"
           (ledger_text ["you.202611030830.write"]) EmptyString (Some "me") 1065488197
           (ledger_world ["you.202611030830.write"])).
  - by vm_compute.
  - by vm_compute.
  - by vm_compute.
  - by vm_compute.
  - by vm_compute.
Defined.

Lemma equal_factors_keep_catalog_order_witness :
  ∃ evs,
    trace (world_after
             (Script.copy_split category sizes rsync_fine idle "/s" "/t" 100%Q false 0%Q
                [("noiseB.bin", 2%Q); ("speechA.bin", 5%Q); ("noiseA.bin", 2%Q)] (world ∅)))
    = trace (world ∅) ++ evs
    ∧ ∀ (i j : nat) (a b : Event) (ea eb : string * Q),
        (i < j)%nat → evs !! i = Some a → evs !! j = Some b →
        ea ∈ [("noiseB.bin", 2%Q); ("speechA.bin", 5%Q); ("noiseA.bin", 2%Q)] →
        eb ∈ [("noiseB.bin", 2%Q); ("speechA.bin", 5%Q); ("noiseA.bin", 2%Q)] →
        event_src a = Some (PyStr.path_join "/s" ea.1) →
        event_src b = Some (PyStr.path_join "/s" eb.1) →
        category (PyStr.path_join "/s" ea.1) = category (PyStr.path_join "/s" eb.1) →
        (ea.2 == eb.2)%Q →
        listed_before [("noiseB.bin", 2%Q); ("speechA.bin", 5%Q); ("noiseA.bin", 2%Q)] ea eb.
Proof.
  apply (equal_factors_keep_catalog_order category sizes rsync_fine idle "/s" "/t" 100%Q false
           0%Q [("noiseB.bin", 2%Q); ("speechA.bin", 5%Q); ("noiseA.bin", 2%Q)] (world ∅) 9%Q).
  - apply (bool_decide_unpack _). by vm_compute.
  - by vm_compute.
Defined.

(** In that example [noiseB.bin], listed first, is placed first. *)
Lemma equal_factors_example :
  trace (world_after
           (Script.copy_split category sizes rsync_fine idle "/s" "/t" 100%Q false 0%Q
              [("noiseB.bin", 2%Q); ("speechA.bin", 5%Q); ("noiseA.bin", 2%Q)] (world ∅)))
  = [Copying "/s/noiseB.bin" "/t/noiseB.bin" 3; Copying "/s/noiseA.bin" "/t/noiseA.bin" 3;
     Copying "/s/speechA.bin" "/t/speechA.bin" 3].
Proof. by vm_compute. Qed.

End MoreChecks.
